(** * remindme: the persistent playback scheduler

    A shallow embedding of the desktop client of the repository
    ([app/db.go], [app/app.go]): the catalogue and the progress records
    kept in a bbolt database, the two package-level maps
    [activeReminders] and [lastRunStatuses], and the timer goroutines
    started by [startTimer].

    The storage engine (go.etcd.io/bbolt), [strconv] and the widget
    toolkit are libraries the program imports; they are modelled by the
    part of their documented contract that the program uses.  What the
    outside decides is an input of the model: the payload of the HTTP
    download, whether the engine completes a write transaction, how
    [strings.ToLower], [image.Decode] and [url.Parse] answer, and the
    order in which clicks, ticks and cancellations arrive.

    Each handler and each segment of a goroutine between two blocking
    points runs as one step; the program has no lock on its maps, and
    interleavings inside a segment are not modelled.  The geometry of
    the reminder windows and the exits of [main] on a database that
    cannot be opened are left out.

    The API server of the repository is embedded after the client: its
    key-value store ([Store], [Get]) and its two handlers ([storeItem],
    [allItems]), with the request as the HTTP library parses it for
    input.  Listening, routing and the encoding of the answers are left
    out. *)

From Stdlib Require Import ZArith Lia Ascii DecimalString DecimalPos.
From stdpp Require Import gmap strings list fin_maps sorting.

Set Warnings "-register-all".
Set Default Proof Using "Type".

(** ** Results of fallible code *)

Inductive result (E A : Type) : Type :=
| Ok (a : A)
| Err (e : E).
Arguments Ok {E A} a.
Arguments Err {E A} e.

#[global] Instance result_bind {E} : MBind (result E) :=
  λ A B k r,
    match r with
    | Ok a => k a
    | Err e => Err e
    end.

(** ** Go's [int] on a 64-bit platform *)

Module GoInt.

Definition minInt : Z := - 2 ^ 63.
Definition maxInt : Z := 2 ^ 63 - 1.

(** Two's-complement wrap-around of an integer into 64 bits. *)
Definition wrap (z : Z) : Z := (z + 2 ^ 63) `mod` 2 ^ 64 - 2 ^ 63.

Definition add (a b : Z) : Z := wrap (a + b).
Definition sub (a b : Z) : Z := wrap (a - b).

Definition inRange (z : Z) : bool := (minInt <=? z)%Z && (z <=? maxInt)%Z.

(** [len(s)] of a slice. *)
Definition len {A} (l : list A) : Z := Z.of_nat (length l).

(** [s[i]]: [None] stands for the run-time panic "index out of range". *)
Definition index {A} (l : list A) (i : Z) : option A :=
  if (i <? 0)%Z then None else l !! Z.to_nat i.

End GoInt.

(** ** [strconv.Itoa] and [strconv.Atoi] *)

Module strconv.

Definition Itoa (i : Z) : string := NilZero.string_of_int (Z.to_int i).

Definition digit (c : ascii) : option Z :=
  let n := Z.of_N (N_of_ascii c) in
  if (48 <=? n)%Z && (n <=? 57)%Z then Some (n - 48)%Z else None.

Fixpoint digits (acc : Z) (s : string) : option Z :=
  match s with
  | EmptyString => Some acc
  | String c s' =>
      match digit c with
      | Some d => digits (acc * 10 + d) s'
      | None => None
      end
  end.

(** [Atoi] accepts an optional sign followed by at least one decimal
    digit and nothing else, and reports a range error outside [int].
    [None] stands for a non-nil [err]. *)
Definition Atoi (s : string) : option Z :=
  match s with
  | EmptyString => None
  | String c rest =>
      let neg := Ascii.eqb c "-" in
      let body := if neg || Ascii.eqb c "+" then rest else s in
      match body with
      | EmptyString => None
      | _ =>
          match digits 0 body with
          | None => None
          | Some n =>
              let v := if neg then (- n)%Z else n in
              if GoInt.inRange v then Some v else None
          end
      end
  end.

End strconv.

(** ** The bbolt contract

    A bucket maps keys to values or to nested buckets; a cursor walks
    the keys of one bucket in ascending byte order.  Keys and values are
    byte strings. *)

Module bbolt.

Inductive node : Type :=
| Leaf (v : string)
| Sub (b : gmap string node).

Abbreviation Bucket := (gmap string node).

(** The root of a database holds buckets only: [Tx] offers no [Put]. *)
Abbreviation Tx := (gmap string (gmap string node)).

Inductive error : Type :=
| ErrBucketNameRequired
| ErrIncompatibleValue
| ErrKeyRequired
| ErrKeyTooLarge
| ErrValueTooLarge
| ErrStorage                 (* the engine could not begin or commit *)
| Errorf (msg : string).     (* an error made by fmt.Errorf *)

Definition Error (e : error) : string :=
  match e with
  | ErrBucketNameRequired => "bucket name required"
  | ErrIncompatibleValue => "incompatible value"
  | ErrKeyRequired => "key required"
  | ErrKeyTooLarge => "key too large"
  | ErrValueTooLarge => "value too large"
  | ErrStorage => "storage failure"
  | Errorf msg => msg
  end.

Definition MaxKeySize : Z := 32768.
Definition MaxValueSize : Z := 2 ^ 31 - 2.

Definition blen (s : string) : Z := Z.of_nat (String.length s).

(** Byte order on keys ([bytes.Compare] is not greater). *)
Definition key_le (x y : string) : Prop := String.leb x y = true.
Definition key_lt (x y : string) : Prop := String.ltb x y = true.

Definition entry_le (x y : string * node) : Prop := key_le x.1 y.1.

#[global] Instance key_le_dec x y : Decision (key_le x y).
Proof. unfold key_le. apply _. Defined.

#[global] Instance entry_le_dec x y : Decision (entry_le x y).
Proof. unfold entry_le. apply _. Defined.

(** [b.Cursor()] walked with [First] and [Next]: every key of the
    bucket with what it holds, in ascending byte order. *)
Definition Cursor (b : Bucket) : list (string * node) :=
  merge_sort entry_le (map_to_list b).

(** The value a cursor yields next to a key: nil for a nested bucket. *)
Definition cursor_value (n : node) : string :=
  match n with
  | Leaf v => v
  | Sub _ => EmptyString
  end.

(** [b.Get(key)]: nil ([None]) for a missing key and for a nested bucket. *)
Definition Get (b : Bucket) (key : string) : option string :=
  match b !! key with
  | Some (Leaf v) => Some v
  | _ => None
  end.

(** [b.Bucket(name)]: nil ([None]) unless [name] holds a nested bucket. *)
Definition GetBucket (b : Bucket) (name : string) : option Bucket :=
  match b !! name with
  | Some (Sub c) => Some c
  | _ => None
  end.

Definition Put (b : Bucket) (key value : string) : result error Bucket :=
  if (blen key =? 0)%Z then Err ErrKeyRequired
  else if (MaxKeySize <? blen key)%Z then Err ErrKeyTooLarge
  else if (MaxValueSize <? blen value)%Z then Err ErrValueTooLarge
  else match b !! key with
       | Some (Sub _) => Err ErrIncompatibleValue
       | _ => Ok (<[key := Leaf value]> b)
       end.

Definition Delete (b : Bucket) (key : string) : result error Bucket :=
  match b !! key with
  | None => Ok b
  | Some (Sub _) => Err ErrIncompatibleValue
  | Some (Leaf _) => Ok (delete key b)
  end.

(** [b.CreateBucketIfNotExists(key)]: the contents of the nested bucket
    [key], empty when it is created now.  The handle Go returns writes
    through to [b]; callers here store the contents back under [key]. *)
Definition CreateBucketIfNotExists (b : Bucket) (key : string)
    : result error Bucket :=
  if (blen key =? 0)%Z then Err ErrBucketNameRequired
  else match b !! key with
       | Some (Leaf _) => Err ErrIncompatibleValue
       | Some (Sub c) => Ok c
       | None => Ok ∅
       end.

(** The same at the root, [tx.CreateBucketIfNotExists(name)]. *)
Definition TxCreateBucketIfNotExists (tx : Tx) (name : string)
    : result error Bucket :=
  if (blen name =? 0)%Z then Err ErrBucketNameRequired
  else Ok (default ∅ (tx !! name)).

(** [db.Update(fn)]: [fn] runs on the current contents; its writes
    are kept when it returns nil and the engine commits, and dropped
    otherwise.  [commit] says whether the engine begins and commits. *)
Definition Update (commit : bool) (fn : Tx → result error Tx) (db : Tx)
    : Tx * option error :=
  if commit then
    match fn db with
    | Ok db' => (db', None)
    | Err e => (db, Some e)
    end
  else (db, Some ErrStorage).

End bbolt.

Import bbolt.

(** ** app/db.go *)

Definition categoriesBkt : string := "categories".
Definition lastRunBktKey : string := "last_run".
Definition itemContentKey : string := "content".
Definition itemTypeKey : string := "type".

Record Item : Type := mkItem {
  Item_Name : string;
  Item_Type : string;
  Item_Content : string
}.

Record Category : Type := mkCategory {
  Category_Name : string;
  Category_Items : list Item
}.

(** A [for] loop whose body may return an error. *)
Fixpoint forEach {A S} (body : S → A → result error S) (l : list A) (s : S)
    : result error S :=
  match l with
  | [] => Ok s
  | x :: l' => s' ← body s x; forEach body l' s'
  end.

(** The inner loop body of [downloadFromAPI]: one item written under
    the bucket of its category. *)
Definition putItem (catBucket : Bucket) (item : Item) : result error Bucket :=
  match CreateBucketIfNotExists catBucket (Item_Name item) with
  | Err _ => Err (Errorf ("failed to open db record for " +:+ Item_Name item))
  | Ok itemBucket =>
      itemBucket ← Put itemBucket itemTypeKey (Item_Type item);
      itemBucket ← Put itemBucket itemContentKey (Item_Content item);
      Ok (<[Item_Name item := Sub itemBucket]> catBucket)
  end.

(** The outer loop body of [downloadFromAPI]. *)
Definition putCategory (tx : Tx) (category : Category) : result error Tx :=
  match TxCreateBucketIfNotExists tx categoriesBkt with
  | Err _ => Err (Errorf "failed to open db record for all categories")
  | Ok catsBucket =>
      match CreateBucketIfNotExists catsBucket (Category_Name category) with
      | Err _ =>
          Err (Errorf ("failed to open db record for " +:+ Category_Name category))
      | Ok catBucket =>
          catBucket ← forEach putItem (Category_Items category) catBucket;
          Ok (<[categoriesBkt :=
                  <[Category_Name category := Sub catBucket]> catsBucket]> tx)
      end
  end.

(** [downloadFromAPI]: [fetched] is what [http.Get], [ioutil.ReadAll] and
    [json.Unmarshal] produced.  The caller reads the names only when the
    error is nil, so they are returned in place of the nil error. *)
Definition downloadFromAPI (fetched : result error (list Category))
    (commit : bool) (db : Tx) : Tx * result error (list string) :=
  match fetched with
  | Err e => (db, Err e)
  | Ok catItems =>
      match Update commit (forEach putCategory catItems) db with
      | (db', None) => (db', Ok (Category_Name <$> catItems))
      | (db', Some e) => (db', Err e)
      end
  end.

Definition categoriesFromDB (db : Tx) : list string :=
  match db !! categoriesBkt with
  | None => []
  | Some catsBucket => (Cursor catsBucket).*1
  end.

(** The loop body of [categoryItems]: a key that is not a nested bucket
    is skipped. *)
Definition readItem (categoryBkt : Bucket) (itemB : string) : option Item :=
  match GetBucket categoryBkt itemB with
  | None => None
  | Some itemBkt =>
      Some {| Item_Name := itemB;
              Item_Type := default EmptyString (Get itemBkt itemTypeKey);
              Item_Content := default EmptyString (Get itemBkt itemContentKey) |}
  end.

Definition categoryItems (category : string) (db : Tx) : result error (list Item) :=
  match db !! categoriesBkt with
  | None => Err (Errorf "no data downloaded yet!")
  | Some catsBucket =>
      match GetBucket catsBucket category with
      | None => Err (Errorf ("unknown reminder category: " +:+ category))
      | Some categoryBkt =>
          Ok (omap (readItem categoryBkt) (Cursor categoryBkt).*1)
      end
  end.

Definition saveLastRun (commit : bool) (category : string) (index : Z) (db : Tx)
    : Tx * option error :=
  Update commit (λ tx,
    lastRunBkt ← TxCreateBucketIfNotExists tx lastRunBktKey;
    lastRunBkt ← Put lastRunBkt category (strconv.Itoa index);
    Ok (<[lastRunBktKey := lastRunBkt]> tx)) db.

Definition deleteLastRun (commit : bool) (category : string) (db : Tx)
    : Tx * option error :=
  Update commit (λ tx,
    lastRunBkt ← TxCreateBucketIfNotExists tx lastRunBktKey;
    lastRunBkt ← Delete lastRunBkt category;
    Ok (<[lastRunBktKey := lastRunBkt]> tx)) db.

(** [lastRuns].  The loop is
    [for catB, indexB := records.First(); catB != nil; catB, _ = records.Next()]:
    [indexB] is bound by [First] and the post statement assigns [catB]
    only, so every iteration parses the value of the first record. *)
Definition lastRuns (db : Tx) : gmap string Z * option error :=
  match db !! lastRunBktKey with
  | None => (∅, None)
  | Some lastRunBkt =>
      let records := Cursor lastRunBkt in
      let indexB :=
        match records with
        | [] => EmptyString
        | (_, first) :: _ => cursor_value first
        end in
      (foldl (λ (lastRuns : gmap string Z) (catB : string),
                match strconv.Atoi indexB with
                | None => lastRuns
                | Some index => <[catB := index]> lastRuns
                end) ∅ records.*1,
       None)
  end.

(** ** app/app.go *)

(** What a reminder window shows. *)
Inductive CanvasObject : Type :=
| Label (text : string)             (* widget.NewLabel *)
| StyledLabel (text : string)       (* widget.NewLabelWithStyle, centred italic *)
| Image (content : string)          (* canvas.NewImageFromImage *)
| Hyperlink (text : string).        (* widget.NewHyperlink *)

(** What the program does to the outside, in the order it does it. *)
Inductive Effect : Type :=
| SaveLastRun (category : string) (index : Z) (err : option error)
| DeleteLastRun (category : string) (err : option error)
| ShowWindow (title : string) (content : CanvasObject)
| SetText (text : string).          (* catLabel.SetText *)

(** A goroutine started by [startTimer]. *)
Inductive Phase : Type :=
| Spawned      (* started by the go statement, has not run yet *)
| Ticking      (* in the for-select loop, the deferred cleanup registered *)
| Returned.

Record Goroutine : Type := mkGoroutine {
  g_category : string;
  g_immediateDisplay : bool;
  g_phase : Phase;
  g_cancelled : bool                (* cancel() of its context was called *)
}.

(** The package-level variables, the database and the goroutines. *)
Record App : Type := mkApp {
  db : Tx;
  activeReminders : gmap string (list Item);
  lastRunStatuses : gmap string Z;
  categoryOptions : list string;    (* categoryEntry.Options *)
  errorLabel : option string;       (* the text shown, None when hidden *)
  activeRemindersBox : list nat;    (* one row per goroutine, by its number *)
  goroutines : list Goroutine;
  effects : list Effect
}.

Definition set_db (v : Tx) (s : App) : App :=
  mkApp v (activeReminders s) (lastRunStatuses s) (categoryOptions s)
        (errorLabel s) (activeRemindersBox s) (goroutines s) (effects s).
Definition set_activeReminders (v : gmap string (list Item)) (s : App) : App :=
  mkApp (db s) v (lastRunStatuses s) (categoryOptions s)
        (errorLabel s) (activeRemindersBox s) (goroutines s) (effects s).
Definition set_lastRunStatuses (v : gmap string Z) (s : App) : App :=
  mkApp (db s) (activeReminders s) v (categoryOptions s)
        (errorLabel s) (activeRemindersBox s) (goroutines s) (effects s).
Definition set_categoryOptions (v : list string) (s : App) : App :=
  mkApp (db s) (activeReminders s) (lastRunStatuses s) v
        (errorLabel s) (activeRemindersBox s) (goroutines s) (effects s).
Definition set_errorLabel (v : option string) (s : App) : App :=
  mkApp (db s) (activeReminders s) (lastRunStatuses s) (categoryOptions s)
        v (activeRemindersBox s) (goroutines s) (effects s).
Definition set_activeRemindersBox (v : list nat) (s : App) : App :=
  mkApp (db s) (activeReminders s) (lastRunStatuses s) (categoryOptions s)
        (errorLabel s) v (goroutines s) (effects s).
Definition set_goroutines (v : list Goroutine) (s : App) : App :=
  mkApp (db s) (activeReminders s) (lastRunStatuses s) (categoryOptions s)
        (errorLabel s) (activeRemindersBox s) v (effects s).
Definition emit (e : Effect) (s : App) : App :=
  mkApp (db s) (activeReminders s) (lastRunStatuses s) (categoryOptions s)
        (errorLabel s) (activeRemindersBox s) (goroutines s) (effects s ++ [e]).

Definition set_phase (id : nat) (p : Phase) (s : App) : App :=
  set_goroutines
    (alter (λ g, mkGoroutine (g_category g) (g_immediateDisplay g) p (g_cancelled g))
           id (goroutines s)) s.

(** A call returns with the state it leaves, or panics in it. *)
Inductive Outcome (A : Type) : Type :=
| Ret (a : A) (s : App)
| Panic (s : App).
Arguments Ret {A} a s.
Arguments Panic {A} s.

Definition final {A} (o : Outcome A) : App :=
  match o with
  | Ret _ s => s
  | Panic s => s
  end.

(** Library calls whose results the program only branches on. *)
Class Toolkit : Type := {
  ToLower : string → string;          (* strings.ToLower *)
  imageDecodes : string → bool;       (* image.Decode gives no error *)
  urlParses : string → bool           (* url.Parse gives no error *)
}.

Section Toolkit.

Context `{Toolkit}.

(** The switch of [showReminder] that builds the window content. *)
Definition itemUI (nextItem : Item) : CanvasObject :=
  let ty := ToLower (Item_Type nextItem) in
  if String.eqb ty "text" then Label (Item_Content nextItem)
  else if String.eqb ty "image" then
    if imageDecodes (Item_Content nextItem) then Image (Item_Content nextItem)
    else StyledLabel ("Error displaying image: " +:+ Item_Name nextItem)
  else if String.eqb ty "link" then
    if urlParses (Item_Content nextItem) then Hyperlink (Item_Content nextItem)
    else Label (Item_Content nextItem)
  else StyledLabel ("This is a/an " +:+ Item_Type nextItem).

Definition labelText (category : string) (remaining : Z) : string :=
  category +:+ " (" +:+ strconv.Itoa remaining +:+ ")".

(** [showReminder]; the window geometry is left out. *)
Definition showReminder (commit : bool) (category : string) (s : App)
    : Outcome bool :=
  match activeReminders s !! category with
  | None => Ret false s
  | Some items =>
      if (GoInt.len items =? 0)%Z then Ret false s
      else
        let lastIndex := default (-1)%Z (lastRunStatuses s !! category) in
        let nextIndex := GoInt.add lastIndex 1 in
        if (GoInt.len items <=? nextIndex)%Z then Ret false s
        else
          let s := set_lastRunStatuses (<[category := nextIndex]> (lastRunStatuses s)) s in
          let '(db', err) := saveLastRun commit category nextIndex (db s) in
          let s := emit (SaveLastRun category nextIndex err) (set_db db' s) in
          match GoInt.index items nextIndex with
          | None => Panic s
          | Some nextItem =>
              let s := emit (ShowWindow (category +:+ ": " +:+ Item_Name nextItem)
                                        (itemUI nextItem)) s in
              let remaining := GoInt.sub (GoInt.sub (GoInt.len items) nextIndex) 1 in
              let s := emit (SetText (labelText category remaining)) s in
              Ret (0 <? remaining)%Z s
          end
  end.

(** The closure [killReminder] of the goroutine numbered [id]. *)
Definition killReminder (id : nat) (commit : bool) (category : string) (s : App)
    : App :=
  let s := set_activeRemindersBox (filter (λ r, r ≠ id) (activeRemindersBox s)) s in
  let s := set_activeReminders (delete category (activeReminders s)) s in
  let s := set_lastRunStatuses (delete category (lastRunStatuses s)) s in
  let '(db', err) := deleteLastRun commit category (db s) in
  emit (DeleteLastRun category err) (set_db db' s).

(** [startTimer] up to and including the go statement. *)
Definition startTimer (immediateDisplay : bool) (category : string) (s : App)
    : App :=
  match activeReminders s !! category with
  | None => s
  | Some items =>
      if (GoInt.len items =? 0)%Z then s
      else
        let lastIndex := default (-1)%Z (lastRunStatuses s !! category) in
        let remaining := GoInt.sub (GoInt.sub (GoInt.len items) lastIndex) 1 in
        if (remaining =? 0)%Z then s
        else
          let id := length (goroutines s) in
          let s := set_goroutines
                     (goroutines s ++ [mkGoroutine category immediateDisplay Spawned false]) s in
          set_activeRemindersBox (activeRemindersBox s ++ [id]) s
  end.

(** The goroutine of [startTimer], cut at the points where it can be
    interleaved with the rest of the program. *)

(** From the go statement to the first [select]. *)
Definition goBegin (id : nat) (commit : bool) (s : App) : Outcome unit :=
  match goroutines s !! id with
  | Some (mkGoroutine category immediateDisplay Spawned _) =>
      if immediateDisplay then
        match showReminder commit category s with
        | Ret true s' => Ret () (set_phase id Ticking s')
        | Ret false s' => Ret () (set_phase id Returned s')
        | Panic s' => Panic s'
        end
      else Ret () (set_phase id Ticking s)
  | _ => Ret () s
  end.

(** [case <-ticker.C]; on the way out the deferred function runs,
    also when [showReminder] panics. *)
Definition goTick (id : nat) (commitSave commitDelete : bool) (s : App)
    : Outcome unit :=
  match goroutines s !! id with
  | Some (mkGoroutine category _ Ticking _) =>
      match showReminder commitSave category s with
      | Ret true s' => Ret () s'
      | Ret false s' =>
          Ret () (set_phase id Returned (killReminder id commitDelete category s'))
      | Panic s' => Panic (killReminder id commitDelete category s')
      end
  | _ => Ret () s
  end.

(** [case <-ctx.Done()], enabled once the context is cancelled. *)
Definition goDone (id : nat) (commit : bool) (s : App) : Outcome unit :=
  match goroutines s !! id with
  | Some (mkGoroutine category _ Ticking true) =>
      Ret () (set_phase id Returned (killReminder id commit category s))
  | _ => Ret () s
  end.

(** The X button of a row: [cancel] of the goroutine's context. *)
Definition clickX (id : nat) (s : App) : App :=
  set_goroutines
    (alter (λ g, mkGoroutine (g_category g) (g_immediateDisplay g) (g_phase g) true)
           id (goroutines s)) s.

(** The handler of the Start button; [selected] is [None] when
    [categoryEntry.SelectedIndex() < 0]. *)
Definition startButton (selected : option string) (noDelay : bool) (s : App)
    : App :=
  match selected with
  | None => set_errorLabel (Some "Please select a reminder category") s
  | Some selectedCategory =>
      match activeReminders s !! selectedCategory with
      | Some _ =>
          set_errorLabel
            (Some ("Already running reminders for " +:+ selectedCategory)) s
      | None =>
          match categoryItems selectedCategory (db s) with
          | Err err => set_errorLabel (Some (Error err)) s
          | Ok items =>
              let s := set_activeReminders
                         (<[selectedCategory := items]> (activeReminders s)) s in
              let s := set_errorLabel None s in
              startTimer noDelay selectedCategory s
          end
      end
  end.

(** The loop of [refreshCategories] over the keys of [activeReminders]. *)
Fixpoint reloadItems (categories : list string) (s : App) : App :=
  match categories with
  | [] => set_errorLabel None s
  | category :: rest =>
      match categoryItems category (db s) with
      | Err err => set_errorLabel (Some (Error err)) s
      | Ok items =>
          reloadItems rest
            (set_activeReminders (<[category := items]> (activeReminders s)) s)
      end
  end.

Definition refreshCategories (fetched : result error (list Category))
    (commit : bool) (s : App) : App :=
  let s := set_errorLabel (Some "Refreshing...") s in
  match downloadFromAPI fetched commit (db s) with
  | (_, Err err) => set_errorLabel (Some (Error err)) s
  | (db', Ok categories) =>
      let s := set_categoryOptions categories (set_db db' s) in
      reloadItems (map_to_list (activeReminders s)).*1 s
  end.

(** The loop of [main] over the keys of [lastRunStatuses]. *)
Definition resume (s : App) (category : string) : App :=
  match categoryItems category (db s) with
  | Err _ => set_lastRunStatuses (delete category (lastRunStatuses s)) s
  | Ok items =>
      startTimer false category
        (set_activeReminders (<[category := items]> (activeReminders s)) s)
  end.

(** [main], from an opened database to [ShowAndRun]. *)
Definition main (fetched : result error (list Category)) (commit : bool)
    (db0 : Tx) : App :=
  let s := mkApp db0 ∅ ∅ (categoriesFromDB db0) None [] [] [] in
  let s := refreshCategories fetched commit s in
  let s :=
    match lastRuns (db s) with
    | (runs, None) => set_lastRunStatuses runs s
    | (_, Some _) => set_lastRunStatuses ∅ s
    end in
  foldl resume s (map_to_list (lastRunStatuses s)).*1.

(** What can happen while the window runs: the clicks, and for the
    goroutine numbered [id] its start, a tick of its ticker and the
    cancellation of its context.  The booleans say whether the write
    transactions of the step are completed by the engine. *)
Inductive Event : Type :=
| ClickStart (selected : option string) (noDelay : bool)
| ClickRefresh (fetched : result error (list Category)) (commit : bool)
| ClickX (id : nat)
| Begin (id : nat) (commit : bool)
| Tick (id : nat) (commitSave commitDelete : bool)
| CtxDone (id : nat) (commit : bool).

Definition step (e : Event) (s : App) : Outcome unit :=
  match e with
  | ClickStart selected noDelay => Ret () (startButton selected noDelay s)
  | ClickRefresh fetched commit => Ret () (refreshCategories fetched commit s)
  | ClickX id => Ret () (clickX id s)
  | Begin id commit => goBegin id commit s
  | Tick id commitSave commitDelete => goTick id commitSave commitDelete s
  | CtxDone id commit => goDone id commit s
  end.

(** A panic ends the process: later events do not run. *)
Fixpoint run (es : list Event) (s : App) : Outcome unit :=
  match es with
  | [] => Ret () s
  | e :: es' =>
      match step e s with
      | Ret _ s' => run es' s'
      | Panic s' => Panic s'
      end
  end.

End Toolkit.

(** * Vocabulary of the properties *)

(** ** The catalogue *)

(** [name] holds a nested bucket in [catBucket]. *)
Definition has_item (catBucket : Bucket) (name : string) : Prop :=
  ∃ itemBkt, catBucket !! name = Some (Sub itemBkt).

(** [category] holds the nested bucket [catBucket] under "categories". *)
Definition has_category (tx : Tx) (category : string) (catBucket : Bucket) : Prop :=
  ∃ catsBucket, tx !! categoriesBkt = Some catsBucket
                ∧ catsBucket !! category = Some (Sub catBucket).

(** Nothing stored in [tx] is missing from [tx']. *)
Definition catalogue_le (tx tx' : Tx) : Prop :=
  ∀ category catBucket, has_category tx category catBucket →
    ∃ catBucket', has_category tx' category catBucket'
                  ∧ ∀ name, has_item catBucket name → has_item catBucket' name.

(** ** Effects and single steps *)

(** The effects added between two states. *)
Definition new_effects (s s' : App) : list Effect :=
  drop (length (effects s)) (effects s').

Definition is_display (e : Effect) : Prop :=
  ∃ title content, e = ShowWindow title content.

Definition is_persist (e : Effect) : Prop :=
  ∃ category index err, e = SaveLastRun category index err.

(** An effect satisfying [P] happens earlier in [es] than one satisfying [Q]. *)
Definition occurs_before (P Q : Effect → Prop) (es : list Effect) : Prop :=
  ∃ i j e1 e2, es !! i = Some e1 ∧ es !! j = Some e2 ∧ P e1 ∧ Q e2 ∧ i < j.

(** The index [showReminder] moves to. *)
Definition nextIndexOf (s : App) (category : string) : Z :=
  GoInt.add (default (-1)%Z (lastRunStatuses s !! category)) 1.

(** The state after [showReminder] recorded [nextIndex] in memory and
    called [saveLastRun]. *)
Definition recorded (commit : bool) (category : string) (nextIndex : Z) (s : App) : App :=
  emit (SaveLastRun category nextIndex (saveLastRun commit category nextIndex (db s)).2)
       (set_db (saveLastRun commit category nextIndex (db s)).1
               (set_lastRunStatuses (<[category := nextIndex]> (lastRunStatuses s)) s)).

(** ** The progress ledger *)

(** Every record of the "last_run" bucket is a value: the program never
    nests a bucket there. *)
Definition ledger_flat (db : Tx) : Prop :=
  ∀ lastRunBkt key n,
    db !! lastRunBktKey = Some lastRunBkt → lastRunBkt !! key = Some n →
    ∃ v, n = Leaf v.

(** The persisted record of [category], as stored. *)
Definition record (db : Tx) (category : string) : option node :=
  lastRunBkt ← db !! lastRunBktKey; lastRunBkt !! category.

Definition is_leaf (n : node) : bool :=
  match n with
  | Leaf _ => true
  | Sub _ => false
  end.

Definition ledger_flatb (db : Tx) : bool :=
  match db !! lastRunBktKey with
  | None => true
  | Some lastRunBkt => forallb is_leaf (map_to_list lastRunBkt).*2
  end.

(** Two states agree on everything but the goroutines and the labels. *)
Definition same_outside (s1 s2 : App) : Prop :=
  db s1 = db s2
  ∧ activeReminders s1 = activeReminders s2
  ∧ lastRunStatuses s1 = lastRunStatuses s2
  ∧ activeRemindersBox s1 = activeRemindersBox s2
  ∧ effects s1 = effects s2.

(** ** Progress of a category *)

(** [lastIndex] as the program reads it: -1 when there is no record. *)
Definition lastIndexOf (s : App) (category : string) : Z :=
  default (-1)%Z (lastRunStatuses s !! category).

(** The items of an active category that are still to be shown. *)
Definition remainingOf (s : App) (category : string) : Z :=
  match activeReminders s !! category with
  | Some items => (GoInt.len items - lastIndexOf s category - 1)%Z
  | None => 0%Z
  end.

(** [category] is active with [items], whose length fits [int], and its
    index lies between -1 and the last position of [items]. *)
Definition cursor_ok (s : App) (category : string) (items : list Item) : Prop :=
  activeReminders s !! category = Some items
  ∧ (GoInt.len items ≤ GoInt.maxInt)%Z
  ∧ (-1 ≤ lastIndexOf s category < GoInt.len items)%Z.

(** The indices recorded for [category], in the order they were recorded. *)
Definition saved_index (category : string) (e : Effect) : option Z :=
  match e with
  | SaveLastRun c i _ => if decide (c = category) then Some i else None
  | _ => None
  end.

Definition saved_indices (category : string) (es : list Effect) : list Z :=
  omap (saved_index category) es.

(** Every slice has a length that fits [int], and every index held in
    memory belongs to an active category and lies between -1 and the
    last position of its items. *)
Definition progress_ok (active : gmap string (list Item)) (runs : gmap string Z) : Prop :=
  (∀ c items, active !! c = Some items → (GoInt.len items ≤ GoInt.maxInt)%Z)
  ∧ (∀ c i, runs !! c = Some i →
       ∃ items, active !! c = Some items ∧ (-1 ≤ i < GoInt.len items)%Z).

Definition progress_inv (s : App) : Prop :=
  progress_ok (activeReminders s) (lastRunStatuses s).

Definition progress_okb (active : gmap string (list Item)) (runs : gmap string Z) : bool :=
  forallb (λ entry, (GoInt.len entry.2 <=? GoInt.maxInt)%Z) (map_to_list active)
  && forallb (λ entry,
                match active !! entry.1 with
                | Some items => (-1 <=? entry.2)%Z && (entry.2 <? GoInt.len items)%Z
                | None => false
                end) (map_to_list runs).

Definition is_tick (e : Event) : Prop :=
  match e with
  | Tick _ _ _ => True
  | _ => False
  end.

(** What one step did to a category: its maps are as before, or its
    entries are gone. *)
Definition kept (s s' : App) (category : string) : Prop :=
  lastRunStatuses s' !! category = lastRunStatuses s !! category
  ∧ activeReminders s' !! category = activeReminders s !! category.

Definition dropped (s' : App) (category : string) : Prop :=
  lastRunStatuses s' !! category = None ∧ activeReminders s' !! category = None.

(** ** Invariants of a run *)


(** A write that leaves the catalogue alone and keeps the ledger flat. *)
Definition ledger_write (db db' : Tx) : Prop :=
  db' !! categoriesBkt = db !! categoriesBkt
  ∧ (ledger_flat db → ledger_flat db').



Section Shown.

Context `{Toolkit}.

(** The state after the window is shown and the row label updated. *)
Definition shown (category : string) (items : list Item) (nextIndex : Z)
    (nextItem : Item) (s : App) : App :=
  emit (SetText (labelText category
                   (GoInt.sub (GoInt.sub (GoInt.len items) nextIndex) 1)))
       (emit (ShowWindow (category +:+ ": " +:+ Item_Name nextItem) (itemUI nextItem)) s).

End Shown.

(** * The examples *)

(** The catalogue of the example: three items fetched in the order zeta,
    alpha, mango. *)
Definition news : Category :=
  mkCategory "news"
    [mkItem "zeta" "text" "z"; mkItem "alpha" "text" "a"; mkItem "mango" "link" "m"].

(** strings.ToLower on ASCII text, for the examples. *)
Fixpoint lowerASCII (s : string) : string :=
  match s with
  | EmptyString => EmptyString
  | String c s' =>
      let n := N_of_ascii c in
      String (if (65 <=? n)%N && (n <=? 90)%N then ascii_of_N (n + 32) else c)
             (lowerASCII s')
  end.

(** Three items of the three kinds; q2 is an image that does not decode. *)
Definition quotes : Category :=
  mkCategory "quotes"
    [mkItem "q1" "text" "a"; mkItem "q2" "Image" "b"; mkItem "q3" "link" "c"].

(** The library answers of the examples: ASCII lower-casing, no image
    decodes, every link parses. *)
#[global] Instance example_toolkit : Toolkit := {|
  ToLower := lowerASCII;
  imageDecodes := λ content, false;
  urlParses := λ text, true
|}.

(** Start was clicked for "quotes" without "No initial delay" and the
    goroutine reached its loop. *)
Definition quotes_ticking : App :=
  final (run [ClickStart (Some "quotes") false; Begin 0 true]
             (main (Ok [quotes]) true ∅)).

Definition solo : Category := mkCategory "solo" [mkItem "only" "text" "o"].

(** First session, on an empty database: "quotes" is started with "No
    initial delay" and ticks once; "solo" is started the same way. *)
Definition first_session : App :=
  final (run [ClickStart (Some "quotes") true; Begin 0 true; Tick 0 true true;
              ClickStart (Some "solo") true; Begin 1 true]
             (main (Ok [quotes; solo]) true ∅)).

(** The process ends and is started again on the database it left; the
    download fails; both resumed goroutines reach their loop. *)
Definition second_session : App :=
  final (run [Begin 0 true; Begin 1 true]
             (main (Err (Errorf "offline")) true (db first_session))).

Definition alpha : Category :=
  mkCategory "alpha"
    [mkItem "a1" "text" "x"; mkItem "a2" "text" "y"; mkItem "a3" "text" "z"].

(** A session on an empty database: "alpha" shows its first item,
    "quotes" its first two; then the process ends. *)
Definition interrupted_session : App :=
  final (run [ClickStart (Some "alpha") true; Begin 0 true;
              ClickStart (Some "quotes") true; Begin 1 true; Tick 1 true true]
             (main (Ok [alpha; quotes]) true ∅)).

(** The program started again on the database left behind. *)
Definition resumed_session : App :=
  main (Err (Errorf "offline")) true (db interrupted_session).

(** Four ticks of "quotes" from the state where it has started without
    initial delay; the second save fails. *)
Definition four_ticks : list Event :=
  [Tick 0 true true; Tick 0 false true; Tick 0 true true; Tick 0 true true].

(** "quotes" after its first tick: q1 was shown, index 0 is recorded. *)
Definition quotes_at_0 : App := final (goTick 0 true true quotes_ticking).

Definition empty_category : Category := mkCategory "empty" [].


(** * The server

    The API server keeps its own bbolt database: every category is a
    bucket of the root, and every item a bucket nested in the bucket of
    its category.  What the HTTP library hands to a handler is an input:
    the form values, the attached file with its header, and the errors
    of reading them.  As for the client, a read transaction of the open
    database always begins. *)

(** [tx.Cursor()] walked with [First] and [Next]: the buckets of the
    root, in ascending byte order of their names. *)
Definition bucket_le (x y : string * Bucket) : Prop := key_le x.1 y.1.

#[global] Instance bucket_le_dec x y : Decision (bucket_le x y).
Proof. unfold bucket_le. apply _. Defined.

Definition TxCursor (tx : Tx) : list (string * Bucket) :=
  merge_sort bucket_le (map_to_list tx).

(** What [r.FormFile("item.attachment")] and [io.Copy] give. *)
Inductive FormFile : Type :=
| MissingFile                      (* http.ErrMissingFile, f == nil *)
| FileError                        (* any other error of r.FormFile *)
| File (contentType : string)      (* h.Header.Get("Content-Type") *)
       (bytes : result error string).   (* what io.Copy reads from f *)

Record Request : Type := mkRequest {
  form_category : string;          (* r.FormValue("category") *)
  form_item_name : string;         (* r.FormValue("item.name") *)
  form_item_type : string;         (* r.FormValue("item.type") *)
  form_item_content : string;      (* r.FormValue("item.content") *)
  form_attachment : FormFile
}.

(** A response: the status code, and the message given to [http.Error]
    or the value given to [writeJSON]. *)
Inductive Body : Type :=
| Text (msg : string)
| JSON (categoriesWithItems : list Category).

Record Response : Type := mkResponse {
  resp_code : Z;
  resp_body : Body
}.

(** The content of an item in a request: the attached file when there
    is one, the form value otherwise. *)
Definition request_content (r : Request) : string :=
  match form_attachment r with
  | File _ (Ok content) => content
  | _ => form_item_content r
  end.

Module apiServer.

(** [Store]: a value under a key of a general-use bucket. *)
Definition Store (commit : bool) (b k v : string) (db : Tx) : Tx * option error :=
  if (blen k =? 0)%Z || (blen b =? 0)%Z then
    (db, Some (Errorf "cannot store with empty bucket or key"))
  else
    Update commit (λ tx,
      match TxCreateBucketIfNotExists tx b with
      | Err _ => Err (Errorf "failed to create key bucket")
      | Ok bucket =>
          bucket ← Put bucket k v;
          Ok (<[b := bucket]> tx)
      end) db.

(** [Get]: the value stored with [Store]; [None] is the nil slice.  The
    operand [v] of [return v, api.db.View(...)] is read after the call
    has assigned it, as the gc compiler orders the two. *)
Definition Get (b k : string) (db : Tx) : result error (option string) :=
  if (blen k =? 0)%Z || (blen b =? 0)%Z then
    Err (Errorf "cannot get with empty bucket or key")
  else
    match db !! b with
    | None => Err (Errorf "app bucket not found")
    | Some bucket =>
        match bbolt.Get bucket k with
        | None => Err (Errorf ("no value found for " +:+ k))
        | Some vx => Ok (if (0 <? blen vx)%Z then Some vx else None)
        end
    end.

(** The loop body of [allItems]: one category with its items. *)
Definition readCategory (entry : string * Bucket) : Category :=
  {| Category_Name := entry.1;
     Category_Items := omap (readItem entry.2) (Cursor entry.2).*1 |}.

(** What [allItems] gives to [writeJSON]. *)
Definition categoriesWithItems (db : Tx) : list Category :=
  readCategory <$> TxCursor db.

Definition allItems (db : Tx) : Response :=
  mkResponse 200 (JSON (categoriesWithItems db)).

(** The transaction of [storeItem]. *)
Definition storeItemTx (category itemName itemType content : string) (tx : Tx)
    : result error Tx :=
  match TxCreateBucketIfNotExists tx category with
  | Err _ => Err (Errorf ("failed to open db record for " +:+ category))
  | Ok catBucket =>
      match CreateBucketIfNotExists catBucket itemName with
      | Err _ => Err (Errorf ("failed to open db record for " +:+ itemName))
      | Ok itemBucket =>
          itemBucket ← Put itemBucket itemTypeKey itemType;
          itemBucket ← Put itemBucket itemContentKey content;
          Ok (<[category := <[itemName := Sub itemBucket]> catBucket]> tx)
      end
  end.

Section Handlers.

Context `{Toolkit}.

(** [storeItem] from [api.db.Update] to its end. *)
Definition saveItem (commit : bool) (category itemName itemType content : string)
    (db : Tx) : Tx * Response :=
  match Update commit (storeItemTx category itemName itemType content) db with
  | (db', Some _) => (db', mkResponse 500 (Text "error saving item"))
  | (db', None) => (db', allItems db')
  end.

Definition storeItem (commit : bool) (r : Request) (db : Tx) : Tx * Response :=
  let category := form_category r in
  let itemName := form_item_name r in
  let itemType := ToLower (form_item_type r) in
  let itemContent := form_item_content r in
  match form_attachment r with
  | FileError => (db, mkResponse 500 (Text "error reading file attachment"))
  | File contentType (Err err) => (db, mkResponse 500 (Text (Error err)))
  | File contentType (Ok content) =>
      let fileType := ToLower contentType in
      if negb (String.prefix itemType fileType) then
        (db, mkResponse 400 (Text ("invalid attachment for " +:+ itemType)))
      else saveItem commit category itemName itemType content db
  | MissingFile =>
      if String.eqb itemType "video" || String.eqb itemType "image" then
        (db, mkResponse 400 (Text "video or image requires attachment"))
      else saveItem commit category itemName itemType itemContent db
  end.

End Handlers.

End apiServer.

(** * Vocabulary of the further properties *)

(** ** The stored catalogue *)

(** What the "categories" bucket holds under the name of a category. *)
Definition catalogue_entry (db : Tx) (category : string) : option node :=
  catsBucket ← db !! categoriesBkt; catsBucket !! category.

(** The bucket of a category before a download: empty when the
    category is not stored yet. *)
Definition bucket_before (db : Tx) (category : string) : Bucket :=
  match catalogue_entry db category with
  | Some (Sub catBucket) => catBucket
  | _ => ∅
  end.

(** The names of the categories of a payload. *)
Definition payload_names (fetched : result error (list Category)) : list string :=
  match fetched with
  | Ok catItems => Category_Name <$> catItems
  | Err _ => []
  end.

(** A category with an empty name, or with an item with an empty name. *)
Definition unnamed (category : Category) : Prop :=
  Category_Name category = EmptyString
  ∨ ∃ item, item ∈ Category_Items category ∧ Item_Name item = EmptyString.

(** Every key of the "categories" bucket holds a nested bucket. *)
Definition catalogue_wf (db : Tx) : Prop :=
  ∀ catsBucket category n,
    db !! categoriesBkt = Some catsBucket → catsBucket !! category = Some n →
    ∃ catBucket, n = Sub catBucket.

Definition catalogue_wfb (db : Tx) : bool :=
  match db !! categoriesBkt with
  | None => true
  | Some catsBucket => forallb (λ n, negb (is_leaf n)) (map_to_list catsBucket).*2
  end.


(** ** What can be started *)

(** [categoryItems] succeeds for every category the select offers. *)
Definition options_readable (s : App) : Prop :=
  ∀ category, category ∈ categoryOptions s →
    ∃ items, categoryItems category (db s) = Ok items.

(** [categoryItems] succeeds for every active category. *)
Definition active_readable (s : App) : Prop :=
  ∀ category, is_Some (activeReminders s !! category) →
    ∃ items, categoryItems category (db s) = Ok items.

Definition readable (s : App) : Prop := options_readable s ∧ active_readable s.

(** The loop of [refreshCategories] run to its end: every active
    category with the items the database holds for it. *)
Definition reloaded (db : Tx) (active : gmap string (list Item))
    : gmap string (list Item) :=
  map_imap (λ category _,
              match categoryItems category db with
              | Ok items => Some items
              | Err _ => None
              end) active.

(** ** Timers *)

(** A goroutine that has not returned. *)
Definition live (g : Goroutine) : Prop := g_phase g ≠ Returned.

(** No two goroutines that have not returned are timers of the same
    category. *)
Definition one_timer (s : App) : Prop :=
  ∀ i j gi gj,
    goroutines s !! i = Some gi → goroutines s !! j = Some gj →
    live gi → live gj → g_category gi = g_category gj → i = j.

(** The category of every goroutine that has not returned is in
    [activeReminders]. *)
Definition timers_registered (s : App) : Prop :=
  ∀ i g, goroutines s !! i = Some g → live g →
    is_Some (activeReminders s !! g_category g).

Definition timers_ok (s : App) : Prop := one_timer s ∧ timers_registered s.

(** The goroutine an event belongs to. *)
Definition goroutine_of (e : Event) : option nat :=
  match e with
  | ClickX id | Begin id _ | Tick id _ _ | CtxDone id _ => Some id
  | ClickStart _ _ | ClickRefresh _ _ => None
  end.

(** ** What is shown *)

(** The windows opened, in the order they were opened. *)
Definition window (e : Effect) : option (string * CanvasObject) :=
  match e with
  | ShowWindow title content => Some (title, content)
  | _ => None
  end.

Definition windows (es : list Effect) : list (string * CanvasObject) :=
  omap window es.

Section Windows.

Context `{Toolkit}.

(** The window [showReminder] opens for an item. *)
Definition window_of (category : string) (item : Item) : string * CanvasObject :=
  (category +:+ ": " +:+ Item_Name item, itemUI item).

End Windows.

(** * Further examples *)

(** A payload whose second category has no name. *)
Definition unnamed_payload : list Category := [news; mkCategory EmptyString []].

(** "solo" was started with "No initial delay": its only item was shown
    and the goroutine returned before its loop. *)
Definition solo_shown : App :=
  final (run [ClickStart (Some "solo") true; Begin 0 true]
             (main (Ok [solo]) true ∅)).

(** A payload that adds an item to "quotes". *)
Definition quotes_update : list Category :=
  [mkCategory "quotes" [mkItem "q0" "text" "new"]].

(** A text item sent to the server without attachment. *)
Definition store_request : Request :=
  mkRequest "quotes" "q9" "Text" "hello" MissingFile.

(** The database of the server after that request, from an empty one. *)
Definition server_after_store : Tx :=
  (apiServer.storeItem true store_request ∅).1.

(** * Properties *)

(** ** The model on small inputs *)

Example Itoa_examples :
  strconv.Itoa 0 = "0" ∧ strconv.Itoa 42 = "42" ∧ strconv.Itoa (-7) = "-7".
Proof. repeat split; reflexivity. Qed.

Example Atoi_examples :
  strconv.Atoi "12" = Some 12%Z
  ∧ strconv.Atoi "+7" = Some 7%Z
  ∧ strconv.Atoi "-0" = Some 0%Z
  ∧ strconv.Atoi "" = None
  ∧ strconv.Atoi "-" = None
  ∧ strconv.Atoi "1x" = None
  ∧ strconv.Atoi "9223372036854775807" = Some GoInt.maxInt
  ∧ strconv.Atoi "9223372036854775808" = None.
Proof. repeat split; reflexivity. Qed.

Example int_wraps_around :
  GoInt.add GoInt.maxInt 1 = GoInt.minInt ∧ GoInt.sub GoInt.minInt 1 = GoInt.maxInt.
Proof. split; reflexivity. Qed.

Example Cursor_follows_bytes :
  (Cursor {[ "b" := Leaf "1"; "a" := Leaf "2"; "B" := Leaf "3"; "ab" := Sub ∅ ]}).*1
  = ["B"; "a"; "ab"; "b"].
Proof. by vm_compute. Qed.

(** "quotes" from Start with "No initial delay" to its end: each item is
    saved, then shown; the tick that shows the last item also deletes the
    record. *)
Example quotes_from_start_to_end :
  effects (final (run [ClickStart (Some "quotes") true; Begin 0 true;
                       Tick 0 true true; Tick 0 true true]
                      (main (Ok [quotes]) true ∅)))
  = [SaveLastRun "quotes" 0 None; ShowWindow "quotes: q1" (Label "a");
     SetText "quotes (2)";
     SaveLastRun "quotes" 1 None;
     ShowWindow "quotes: q2" (StyledLabel "Error displaying image: q2");
     SetText "quotes (1)";
     SaveLastRun "quotes" 2 None; ShowWindow "quotes: q3" (Hyperlink "c");
     SetText "quotes (0)";
     DeleteLastRun "quotes" None].
Proof. by vm_compute. Qed.

(** ** Byte order and cursors *)

Section ByteOrder.

Lemma ascii_compare_lt_trans a b c :
  Ascii.compare a b = Lt → Ascii.compare b c = Lt → Ascii.compare a c = Lt.
Proof. unfold Ascii.compare. rewrite !N.compare_lt_iff. lia. Qed.

Lemma ascii_compare_refl c : Ascii.compare c c = Eq.
Proof. apply N.compare_refl. Qed.

Lemma string_compare_refl s : String.compare s s = Eq.
Proof.
  induction s as [|c s IH]; simpl; [done|]. by rewrite ascii_compare_refl.
Qed.

Lemma string_compare_lt_trans a : ∀ b c,
  String.compare a b = Lt → String.compare b c = Lt → String.compare a c = Lt.
Proof.
  induction a as [|x a IH]; intros [|y b] [|z c]; simpl; try done.
  destruct (Ascii.compare x y) eqn:Hxy; try done;
    destruct (Ascii.compare y z) eqn:Hyz; try done.
  - apply Ascii.compare_eq_iff in Hxy as ->.
    apply Ascii.compare_eq_iff in Hyz as ->.
    rewrite ascii_compare_refl. apply IH.
  - apply Ascii.compare_eq_iff in Hxy as ->. by rewrite Hyz.
  - apply Ascii.compare_eq_iff in Hyz as <-. by rewrite Hxy.
  - by rewrite (ascii_compare_lt_trans _ _ _ Hxy Hyz).
Qed.

#[global] Instance key_le_total : Total key_le.
Proof. intros x y. apply String.leb_total. Qed.

#[global] Instance key_le_antisym : AntiSymm (=) key_le.
Proof. intros x y. apply String.leb_antisym. Qed.

#[global] Instance key_le_trans : Transitive key_le.
Proof.
  intros x y z. unfold key_le, String.leb.
  destruct (String.compare x y) eqn:Hxy; try done;
    destruct (String.compare y z) eqn:Hyz; try done; intros _ _.
  - apply String.compare_eq_iff in Hxy as ->. by rewrite Hyz.
  - apply String.compare_eq_iff in Hxy as ->. by rewrite Hyz.
  - apply String.compare_eq_iff in Hyz as <-. by rewrite Hxy.
  - by rewrite (string_compare_lt_trans _ _ _ Hxy Hyz).
Qed.

Lemma key_le_ne_lt x y : key_le x y → x ≠ y → key_lt x y.
Proof.
  unfold key_le, key_lt, String.leb, String.ltb.
  destruct (String.compare x y) eqn:Hxy; try done.
  apply String.compare_eq_iff in Hxy. congruence.
Qed.

Lemma key_lt_ne x y : key_lt x y → x ≠ y.
Proof.
  unfold key_lt, String.ltb. intros H ->.
  by rewrite string_compare_refl in H.
Qed.

Lemma StronglySorted_strict (l : list string) :
  StronglySorted key_le l → NoDup l → StronglySorted key_lt l.
Proof.
  induction 1 as [|x l Hl IH Hx]; intros Hnd; constructor.
  - apply IH. by apply NoDup_cons in Hnd as [_ ?].
  - apply NoDup_cons in Hnd as [Hx' _].
    apply Forall_forall. intros y Hy.
    apply key_le_ne_lt; [by eapply Forall_forall in Hx|].
    intros ->. done.
Qed.

Lemma Cursor_perm (b : Bucket) : Cursor b ≡ₚ map_to_list b.
Proof. apply merge_sort_Permutation. Qed.

Lemma elem_of_Cursor (b : Bucket) k n : (k, n) ∈ Cursor b ↔ b !! k = Some n.
Proof. rewrite Cursor_perm. apply elem_of_map_to_list. Qed.

Lemma elem_of_Cursor_keys (b : Bucket) k : k ∈ (Cursor b).*1 ↔ is_Some (b !! k).
Proof.
  rewrite list_elem_of_fmap. split.
  - intros [[k' n] [-> Hin]]. apply elem_of_Cursor in Hin. eauto.
  - intros [n Hn]. exists (k, n). split; [done|]. by apply elem_of_Cursor.
Qed.

(** A cursor yields the keys of its bucket in strictly ascending byte
    order. *)
Lemma Cursor_keys_sorted (b : Bucket) : StronglySorted key_lt (Cursor b).*1.
Proof.
  apply StronglySorted_strict.
  - apply (StronglySorted_fmap fst entry_le key_le); [done|].
    apply StronglySorted_merge_sort.
    + intros x y z. unfold entry_le. apply key_le_trans.
    + intros x y. unfold entry_le. apply key_le_total.
  - rewrite Cursor_perm. apply NoDup_fst_map_to_list.
Qed.

End ByteOrder.

(** ** The catalogue: [downloadFromAPI] and [categoryItems] *)

Section Catalogue.

Implicit Types (tx : Tx) (catBucket : Bucket) (item : Item).

Lemma catalogue_le_refl tx : catalogue_le tx tx.
Proof. intros c b Hb. eauto. Qed.

Lemma catalogue_le_trans tx1 tx2 tx3 :
  catalogue_le tx1 tx2 → catalogue_le tx2 tx3 → catalogue_le tx1 tx3.
Proof.
  intros H12 H23 c b Hb.
  destruct (H12 c b Hb) as (b2 & Hb2 & Hi2).
  destruct (H23 c b2 Hb2) as (b3 & Hb3 & Hi3). eauto.
Qed.

Lemma readItem_name catBucket k it : readItem catBucket k = Some it → Item_Name it = k.
Proof.
  unfold readItem. destruct (GetBucket catBucket k); [|done].
  by intros [= <-].
Qed.

Lemma readItem_is_Some catBucket k : is_Some (readItem catBucket k) ↔ has_item catBucket k.
Proof.
  unfold readItem, GetBucket, has_item.
  destruct (catBucket !! k) as [[v|c]|]; split;
    try (intros [? [=]]; fail); try (intros [? ?]; done); eauto.
Qed.

Lemma omap_readItem_sorted (R : relation string) catBucket (l : list string) :
  StronglySorted R l →
  StronglySorted R (Item_Name <$> omap (readItem catBucket) l).
Proof.
  induction 1 as [|k l Hl IH Hk]; simpl; [constructor|].
  destruct (readItem catBucket k) as [it|] eqn:Hit; [|done].
  simpl. constructor; [done|].
  rewrite (readItem_name _ _ _ Hit).
  apply Forall_forall. intros n Hn.
  apply list_elem_of_fmap in Hn as (it' & -> & Hin).
  apply list_elem_of_omap in Hin as (k' & Hk' & Hr).
  rewrite (readItem_name _ _ _ Hr).
  by eapply Forall_forall in Hk.
Qed.

Lemma categoryItems_sorted category tx items :
  categoryItems category tx = Ok items →
  StronglySorted key_lt (Item_Name <$> items).
Proof.
  unfold categoryItems.
  destruct (tx !! categoriesBkt) as [cats|]; [|done].
  destruct (GetBucket cats category) as [b|]; [|done].
  intros [= <-]. apply omap_readItem_sorted, Cursor_keys_sorted.
Qed.

Lemma categoryItems_has_category tx category catBucket :
  has_category tx category catBucket →
  categoryItems category tx
  = Ok (omap (readItem catBucket) (Cursor catBucket).*1).
Proof.
  intros (cats & Hcats & Hc). unfold categoryItems, GetBucket.
  by rewrite Hcats, Hc.
Qed.

Lemma elem_of_categoryItems tx category catBucket name :
  has_category tx category catBucket →
  has_item catBucket name →
  ∃ items, categoryItems category tx = Ok items
           ∧ name ∈ Item_Name <$> items.
Proof.
  intros Hc Hi. eexists. split; [by apply categoryItems_has_category|].
  apply readItem_is_Some in Hi as Hr. destruct Hr as [it Hit].
  apply list_elem_of_fmap. exists it. split; [by rewrite (readItem_name _ _ _ Hit)|].
  apply list_elem_of_omap. exists name. split; [|done].
  apply elem_of_Cursor_keys. destruct Hi as [? ->]. eauto.
Qed.

Lemma putItem_spec catBucket item catBucket' :
  putItem catBucket item = Ok catBucket' →
  has_item catBucket' (Item_Name item)
  ∧ ∀ name, has_item catBucket name → has_item catBucket' name.
Proof.
  unfold putItem.
  destruct (CreateBucketIfNotExists catBucket (Item_Name item)) as [ib|]; [|done].
  destruct (Put ib itemTypeKey (Item_Type item)) as [ib1|]; [|done]. simpl.
  destruct (Put ib1 itemContentKey (Item_Content item)) as [ib2|]; [|done]. simpl.
  intros [= <-]. split.
  - exists ib2. apply lookup_insert_eq.
  - intros name [ib' Hn]. unfold has_item.
    destruct (decide (Item_Name item = name)) as [->|Hne].
    + rewrite lookup_insert_eq. eauto.
    + rewrite lookup_insert_ne by done. eauto.
Qed.

Lemma forEach_putItem_spec items : ∀ catBucket catBucket',
  forEach putItem items catBucket = Ok catBucket' →
  (∀ item, item ∈ items → has_item catBucket' (Item_Name item))
  ∧ ∀ name, has_item catBucket name → has_item catBucket' name.
Proof.
  induction items as [|item items IH]; intros b b'; simpl.
  - intros [= <-]. split; [|done]. intros item Hin. by apply elem_of_nil in Hin.
  - destruct (putItem b item) as [b1|] eqn:Hput; [|done]. simpl. intros Hrest.
    destruct (putItem_spec _ _ _ Hput) as [Hnew Hold].
    destruct (IH _ _ Hrest) as [Hnew' Hold']. split.
    + intros it Hin. apply elem_of_cons in Hin as [->|Hin]; auto.
    + auto.
Qed.

Lemma putCategory_spec tx category tx' :
  putCategory tx category = Ok tx' →
  (∃ catBucket, has_category tx' (Category_Name category) catBucket
     ∧ ∀ item, item ∈ Category_Items category → has_item catBucket (Item_Name item))
  ∧ catalogue_le tx tx'.
Proof.
  unfold putCategory, TxCreateBucketIfNotExists. simpl.
  set (cats := default ∅ (tx !! categoriesBkt)).
  destruct (CreateBucketIfNotExists cats (Category_Name category)) as [b|] eqn:Hb;
    [|done].
  destruct (forEach putItem (Category_Items category) b) as [b'|] eqn:Hloop;
    [|done]. simpl. intros [= <-].
  destruct (forEach_putItem_spec _ _ _ Hloop) as [Hnew Hold]. split.
  - exists b'. split; [|done]. eexists. split; [apply lookup_insert_eq|].
    apply lookup_insert_eq.
  - intros c cb (cats0 & Hcats0 & Hc).
    assert (cats = cats0) as Heq by (unfold cats; by rewrite Hcats0). subst cats0.
    destruct (decide (Category_Name category = c)) as [<-|Hne].
    + exists b'. split.
      * eexists. split; [apply lookup_insert_eq|]. apply lookup_insert_eq.
      * unfold CreateBucketIfNotExists in Hb.
        destruct (blen (Category_Name category) =? 0)%Z; [done|].
        rewrite Hc in Hb. injection Hb as <-. done.
    + exists cb. split; [|done].
      eexists. split; [apply lookup_insert_eq|]. by rewrite lookup_insert_ne.
Qed.

Lemma forEach_putCategory_spec catItems : ∀ tx tx',
  forEach putCategory catItems tx = Ok tx' →
  catalogue_le tx tx'
  ∧ ∀ category, category ∈ catItems →
      ∃ catBucket, has_category tx' (Category_Name category) catBucket
        ∧ ∀ item, item ∈ Category_Items category →
            has_item catBucket (Item_Name item).
Proof.
  induction catItems as [|c catItems IH]; intros tx tx'; simpl.
  - intros [= <-]. split; [apply catalogue_le_refl|].
    intros c Hin. by apply elem_of_nil in Hin.
  - destruct (putCategory tx c) as [tx1|] eqn:Hput; [|done]. simpl. intros Hrest.
    destruct (putCategory_spec _ _ _ Hput) as [(b & Hb & Hitems) Hle].
    destruct (IH _ _ Hrest) as [Hle' Hnew]. split.
    + by eapply catalogue_le_trans.
    + intros c' Hin. apply elem_of_cons in Hin as [->|Hin]; [|auto].
      destruct (Hle' _ _ Hb) as (b' & Hb' & Hsub). exists b'. split; [done|].
      auto.
Qed.

End Catalogue.

(** ** Order of the items of a category *)




(** ** One call of [showReminder] *)

Section ShowReminder.

Context `{Toolkit}.

Lemma showReminder_inv commit category s o :
  showReminder commit category s = o →
  o = Ret false s
  ∨ ∃ items,
      activeReminders s !! category = Some items
      ∧ (nextIndexOf s category < GoInt.len items)%Z
      ∧ match GoInt.index items (nextIndexOf s category) with
        | None => o = Panic (recorded commit category (nextIndexOf s category) s)
        | Some nextItem =>
            o = Ret (0 <? GoInt.sub (GoInt.sub (GoInt.len items) (nextIndexOf s category)) 1)%Z
                    (shown category items (nextIndexOf s category) nextItem
                       (recorded commit category (nextIndexOf s category) s))
        end.
Proof.
  unfold showReminder. fold (nextIndexOf s category).
  destruct (activeReminders s !! category) as [items|]; [|by left].
  destruct (GoInt.len items =? 0)%Z; [by left|].
  destruct (GoInt.len items <=? nextIndexOf s category)%Z eqn:Hend; [by left|].
  intros <-. right. exists items. split; [done|].
  split; [by apply Z.leb_gt|].
  unfold recorded, shown. simpl.
  destruct (saveLastRun commit category (nextIndexOf s category) (db s)) as [db' err].
  simpl. by destruct (GoInt.index items (nextIndexOf s category)).
Qed.

Lemma new_effects_app s s' es : effects s' = effects s ++ es → new_effects s s' = es.
Proof. unfold new_effects. intros ->. by rewrite drop_app_length. Qed.

Lemma new_effects_same s : new_effects s s = [].
Proof. apply new_effects_app. by rewrite app_nil_r. Qed.

Lemma effects_recorded commit category nextIndex s :
  effects (recorded commit category nextIndex s)
  = effects s ++ [SaveLastRun category nextIndex
                    (saveLastRun commit category nextIndex (db s)).2].
Proof. done. Qed.

Lemma effects_shown category items nextIndex nextItem s :
  effects (shown category items nextIndex nextItem s)
  = effects s ++ [ShowWindow (category +:+ ": " +:+ Item_Name nextItem) (itemUI nextItem);
                  SetText (labelText category
                             (GoInt.sub (GoInt.sub (GoInt.len items) nextIndex) 1))].
Proof. unfold shown. simpl. by rewrite <- app_assoc. Qed.

(** C2, amended: a call of [showReminder] that shows an item has first
    recorded the new index in memory and called [saveLastRun], and shows
    the window only afterwards; what is saved and recorded does not
    depend on how the item renders. *)
Theorem showReminder_persists_before_display commit category s o :
  showReminder commit category s = o →
  (∃ e, e ∈ new_effects s (final o) ∧ is_display e) →
  ∃ items nextItem,
    activeReminders s !! category = Some items
    ∧ GoInt.index items (nextIndexOf s category) = Some nextItem
    ∧ new_effects s (final o)
      = [SaveLastRun category (nextIndexOf s category)
           (saveLastRun commit category (nextIndexOf s category) (db s)).2;
         ShowWindow (category +:+ ": " +:+ Item_Name nextItem) (itemUI nextItem);
         SetText (labelText category
                    (GoInt.sub (GoInt.sub (GoInt.len items) (nextIndexOf s category)) 1))]
    ∧ occurs_before is_persist is_display (new_effects s (final o))
    ∧ ¬ occurs_before is_display is_persist (new_effects s (final o))
    ∧ db (final o) = (saveLastRun commit category (nextIndexOf s category) (db s)).1
    ∧ lastRunStatuses (final o)
      = <[category := nextIndexOf s category]> (lastRunStatuses s).
Proof.
  intros Hshow (e & He & t & c & ->).
  apply showReminder_inv in Hshow as [->|(items & Hitems & Hlt & Hcase)].
  { simpl in He. rewrite new_effects_same in He. by apply elem_of_nil in He. }
  destruct (GoInt.index items (nextIndexOf s category)) as [nextItem|] eqn:Hidx;
    subst o.
  2:{ simpl in He. erewrite new_effects_app in He by apply effects_recorded.
      apply list_elem_of_singleton in He. done. }
  exists items, nextItem. simpl.
  assert (new_effects s (shown category items (nextIndexOf s category) nextItem
                           (recorded commit category (nextIndexOf s category) s))
          = [SaveLastRun category (nextIndexOf s category)
               (saveLastRun commit category (nextIndexOf s category) (db s)).2;
             ShowWindow (category +:+ ": " +:+ Item_Name nextItem) (itemUI nextItem);
             SetText (labelText category
                        (GoInt.sub (GoInt.sub (GoInt.len items) (nextIndexOf s category)) 1))])
    as Hnew.
  { apply new_effects_app. rewrite effects_shown, effects_recorded.
    by rewrite <- app_assoc. }
  rewrite Hnew. split; [done|]. split; [done|]. split; [done|].
  split; [|split; [|done]].
  - exists 0, 1. do 2 eexists. split; [done|]. split; [done|].
    split; [by do 3 eexists|]. split; [by do 2 eexists|lia].
  - intros (i & j & e1 & e2 & Hi & Hj & (t1 & c1 & ->) & (c2 & i2 & err2 & ->) & Hij).
    destruct i as [|[|[|i]]]; simpl in Hi; try done.
    destruct j as [|[|[|j]]]; simpl in Hj; try done. lia.
Qed.

End ShowReminder.

(** C2, as stated, fails: on the first tick for "quotes" the index is
    saved first and the window is shown after it; no display precedes
    the save. *)
Lemma display_does_not_precede_persist :
  let s' := final (goTick 0 true true quotes_ticking) in
  new_effects quotes_ticking s'
  = [SaveLastRun "quotes" 0 None; ShowWindow "quotes: q1" (Label "a");
     SetText "quotes (2)"]
  ∧ ¬ occurs_before is_display is_persist (new_effects quotes_ticking s').
Proof.
  assert (new_effects quotes_ticking
            (final (goTick 0 true true quotes_ticking))
          = [SaveLastRun "quotes" 0 None; ShowWindow "quotes: q1" (Label "a");
             SetText "quotes (2)"]) as Hnew by (vm_compute; reflexivity).
  cbv zeta. rewrite Hnew. clear Hnew. split; [reflexivity|].
  intros (i & j & e1 & e2 & Hi & Hj & (t1 & c1 & ->) & (c2 & i2 & err2 & ->) & Hij).
  destruct i as [|[|[|i]]]; simpl in Hi; try done.
  destruct j as [|[|[|j]]]; simpl in Hj; try done. lia.
Qed.

Lemma showReminder_persists_before_display_witness :
  ∃ items nextItem,
    activeReminders quotes_ticking !! "quotes" = Some items
    ∧ GoInt.index items (nextIndexOf quotes_ticking "quotes") = Some nextItem
    ∧ new_effects quotes_ticking
        (final (showReminder true "quotes" quotes_ticking))
      = [SaveLastRun "quotes" (nextIndexOf quotes_ticking "quotes")
           (saveLastRun true "quotes" (nextIndexOf quotes_ticking "quotes")
              (db quotes_ticking)).2;
         ShowWindow ("quotes" +:+ ": " +:+ Item_Name nextItem)
           (itemUI nextItem);
         SetText (labelText "quotes"
                    (GoInt.sub (GoInt.sub (GoInt.len items)
                                  (nextIndexOf quotes_ticking "quotes")) 1))]
    ∧ occurs_before is_persist is_display
        (new_effects quotes_ticking
           (final (showReminder true "quotes" quotes_ticking)))
    ∧ ¬ occurs_before is_display is_persist
        (new_effects quotes_ticking
           (final (showReminder true "quotes" quotes_ticking)))
    ∧ db (final (showReminder true "quotes" quotes_ticking))
      = (saveLastRun true "quotes" (nextIndexOf quotes_ticking "quotes")
           (db quotes_ticking)).1
    ∧ lastRunStatuses
        (final (showReminder true "quotes" quotes_ticking))
      = <["quotes" := nextIndexOf quotes_ticking "quotes"]>
          (lastRunStatuses quotes_ticking).
Proof.
  apply (showReminder_persists_before_display
           true "quotes" quotes_ticking _ eq_refl).
  exists (ShowWindow "quotes: q1" (Label "a")). split.
  - vm_compute. apply list_elem_of_further, list_elem_of_here.
  - by do 2 eexists.
Defined.

(** ** The progress ledger *)

Section Ledger.

Implicit Types (db : Tx) (category : string).

Lemma ledger_flatb_true db : ledger_flatb db = true → ledger_flat db.
Proof.
  unfold ledger_flatb. intros Hb b k n Hdb Hk. rewrite Hdb in Hb.
  rewrite forallb_forall in Hb.
  specialize (Hb n). destruct n as [v|c]; [eauto|].
  assert (is_leaf (Sub c) = true) as Hleaf; [|done].
  apply Hb. apply list_elem_of_In, list_elem_of_fmap.
  exists (k, Sub c). split; [done|]. by apply elem_of_map_to_list.
Qed.

Lemma foldl_insert_lookup (v : option Z) (l : list string) : ∀ (m : gmap string Z) c i,
  foldl (λ (acc : gmap string Z) (k : string),
           match v with None => acc | Some index => <[k := index]> acc end) m l !! c
  = Some i →
  m !! c = Some i ∨ (c ∈ l ∧ v = Some i).
Proof.
  induction l as [|k l IH]; intros m c i; simpl; [by left|].
  intros H. apply IH in H as [H|[H ?]]; [|right; split; [by right|done]].
  destruct v as [index|]; [|by left].
  destruct (decide (k = c)) as [->|Hne].
  - rewrite lookup_insert_eq in H. right. split; [by left|done].
  - rewrite lookup_insert_ne in H by done. by left.
Qed.

(** [lastRuns] lists only categories that have a record. *)
Lemma lastRuns_lookup_record db category i :
  (lastRuns db).1 !! category = Some i → is_Some (record db category).
Proof.
  unfold lastRuns, record.
  destruct (db !! lastRunBktKey) as [b|]; simpl; [|by rewrite lookup_empty].
  intros H. apply foldl_insert_lookup in H as [H|[H _]].
  - by rewrite lookup_empty in H.
  - by apply elem_of_Cursor_keys in H.
Qed.

Lemma lastRuns_no_error db : (lastRuns db).2 = None.
Proof. unfold lastRuns. by destruct (db !! lastRunBktKey). Qed.

Lemma deleteLastRun_failed category db :
  deleteLastRun false category db = (db, Some ErrStorage).
Proof. done. Qed.

Lemma deleteLastRun_flat category db :
  ledger_flat db →
  deleteLastRun true category db
  = (<[lastRunBktKey := delete category (default ∅ (db !! lastRunBktKey))]> db, None).
Proof.
  intros Hflat. unfold deleteLastRun, Update, TxCreateBucketIfNotExists. simpl.
  unfold Delete.
  destruct (db !! lastRunBktKey) as [b|] eqn:Hb; simpl.
  - destruct (b !! category) as [[v|c]|] eqn:Hc; simpl.
    + done.
    + destruct (Hflat _ _ _ Hb Hc) as [v [=]].
    + by rewrite delete_id.
  - by rewrite lookup_empty, delete_empty.
Qed.

Lemma record_deleteLastRun category db :
  ledger_flat db → record (deleteLastRun true category db).1 category = None.
Proof.
  intros Hflat. rewrite deleteLastRun_flat by done. unfold record. simpl.
  rewrite lookup_insert_eq. simpl. apply lookup_delete_eq.
Qed.

Lemma lastRuns_deleteLastRun category db :
  ledger_flat db → (lastRuns (deleteLastRun true category db).1).1 !! category = None.
Proof.
  intros Hflat.
  destruct ((lastRuns (deleteLastRun true category db).1).1 !! category) as [i|] eqn:H;
    [|done].
  apply lastRuns_lookup_record in H as [n Hn].
  by rewrite record_deleteLastRun in Hn.
Qed.


End Ledger.

(** ** The goroutine of a category *)

Section Goroutine.

Context `{Toolkit}.

Implicit Types (s : App) (category : string) (id : nat).

Lemma showReminder_past_end commit category s items :
  activeReminders s !! category = Some items →
  (GoInt.len items ≤ nextIndexOf s category)%Z →
  showReminder commit category s = Ret false s.
Proof.
  intros Hitems Hend. unfold showReminder. rewrite Hitems.
  destruct (GoInt.len items =? 0)%Z; [done|].
  fold (nextIndexOf s category). by rewrite (proj2 (Z.leb_le _ _) Hend).
Qed.

Lemma killReminder_eq id commit category s :
  killReminder id commit category s
  = mkApp (deleteLastRun commit category (db s)).1
          (delete category (activeReminders s))
          (delete category (lastRunStatuses s))
          (categoryOptions s) (errorLabel s)
          (filter (λ r, r ≠ id) (activeRemindersBox s))
          (goroutines s)
          (effects s ++ [DeleteLastRun category (deleteLastRun commit category (db s)).2]).
Proof.
  unfold killReminder. simpl. by destruct (deleteLastRun commit category (db s)).
Qed.


Lemma goDone_cancelled id commit category imm s :
  goroutines s !! id = Some (mkGoroutine category imm Ticking true) →
  goDone id commit s = Ret () (set_phase id Returned (killReminder id commit category s)).
Proof. intros Hg. unfold goDone. by rewrite Hg. Qed.

Lemma goDone_clickX id commit category imm c s :
  goroutines s !! id = Some (mkGoroutine category imm Ticking c) →
  goDone id commit (clickX id s)
  = Ret () (set_phase id Returned (killReminder id commit category (clickX id s))).
Proof.
  intros Hg. apply (goDone_cancelled _ _ _ imm).
  simpl. by rewrite list_lookup_alter_eq, Hg.
Qed.

(** C3, amended: a tick that finds [nextIndex >= len(items)] shows
    nothing and does not call [saveLastRun]; the goroutine returns and
    its deferred cleanup removes the category from [activeReminders] and
    [lastRunStatuses] and calls [deleteLastRun], so the persisted record
    is cleared exactly as by a cancellation. *)
Theorem tick_past_end_clears_progress id category imm c commitSave commitDelete s items :
  goroutines s !! id = Some (mkGoroutine category imm Ticking c) →
  activeReminders s !! category = Some items →
  (GoInt.len items ≤ nextIndexOf s category)%Z →
  ledger_flat (db s) →
  ∃ s',
    goTick id commitSave commitDelete s = Ret () s'
    ∧ new_effects s s'
      = [DeleteLastRun category (deleteLastRun commitDelete category (db s)).2]
    ∧ goroutines s' !! id = Some (mkGoroutine category imm Returned c)
    ∧ activeReminders s' !! category = None
    ∧ lastRunStatuses s' !! category = None
    ∧ db s' = (deleteLastRun commitDelete category (db s)).1
    ∧ (commitDelete = true →
       record (db s') category = None ∧ (lastRuns (db s')).1 !! category = None)
    ∧ same_outside s' (final (goDone id commitDelete (clickX id s))).
Proof.
  intros Hg Hitems Hend Hflat. eexists. split.
  { unfold goTick. rewrite Hg.
    by rewrite (showReminder_past_end _ _ _ _ Hitems Hend). }
  rewrite (goDone_clickX _ _ _ _ _ _ Hg). simpl final.
  rewrite !killReminder_eq. split.
  { apply new_effects_app. done. }
  split. { simpl. by rewrite list_lookup_alter_eq, Hg. }
  split. { simpl. apply lookup_delete_eq. }
  split. { simpl. apply lookup_delete_eq. }
  split. { done. }
  split.
  { intros ->. simpl. split.
    - by apply record_deleteLastRun.
    - by apply lastRuns_deleteLastRun. }
  done.
Qed.

End Goroutine.

(** ** Two sessions of the program *)

(** C3, as stated, fails: in the second session the tick of "solo"
    finds [nextIndex = 2 >= len(items) = 1]; the goroutine returns and
    its cleanup calls [deleteLastRun], which removes the record "0" that
    the database held for "solo". *)
Lemma tick_past_end_deletes_record :
  goroutines second_session !! 0 = Some (mkGoroutine "solo" false Ticking false)
  ∧ GoInt.len <$> activeReminders second_session !! "solo" = Some 1%Z
  ∧ nextIndexOf second_session "solo" = 2%Z
  ∧ record (db second_session) "solo" = Some (Leaf "0")
  ∧ ∃ s', goTick 0 true true second_session = Ret () s'
          ∧ new_effects second_session s' = [DeleteLastRun "solo" None]
          ∧ record (db s') "solo" = None
          ∧ (lastRuns (db s')).1 !! "solo" = None.
Proof.
  split; [by vm_compute|]. split; [by vm_compute|].
  split; [by vm_compute|]. split; [by vm_compute|].
  eexists. split; [vm_compute; reflexivity|].
  split; [by vm_compute|]. split; by vm_compute.
Qed.

Lemma tick_past_end_clears_progress_witness :
  ∃ s',
    goTick 0 true true second_session = Ret () s'
    ∧ new_effects second_session s'
      = [DeleteLastRun "solo" (deleteLastRun true "solo" (db second_session)).2]
    ∧ goroutines s' !! 0 = Some (mkGoroutine "solo" false Returned false)
    ∧ activeReminders s' !! "solo" = None
    ∧ lastRunStatuses s' !! "solo" = None
    ∧ db s' = (deleteLastRun true "solo" (db second_session)).1
    ∧ (true = true →
       record (db s') "solo" = None ∧ (lastRuns (db s')).1 !! "solo" = None)
    ∧ same_outside s' (final (goDone 0 true (clickX 0 second_session))).
Proof.
  apply (tick_past_end_clears_progress 0 "solo" false false true true second_session
           [mkItem "only" "text" "o"]).
  - by vm_compute.
  - by vm_compute.
  - by vm_compute.
  - apply ledger_flatb_true. by vm_compute.
Defined.

(** ** Resuming after a restart *)

(** C4 at the failing input: the database holds index 0 for "alpha" and
    index 1 for "quotes" (three items each).  After the restart
    [lastRuns] gives both categories the index of the first record, 0,
    and the first tick of "quotes" shows the item at index 1 again
    instead of the item at index 2. *)
Theorem resume_repeats_item :
  record (db interrupted_session) "alpha" = Some (Leaf "0")
  ∧ record (db interrupted_session) "quotes" = Some (Leaf "1")
  ∧ lastRunStatuses resumed_session !! "quotes" = Some 0%Z
  ∧ goroutines resumed_session !! 0 = Some (mkGoroutine "quotes" false Spawned false)
  ∧ new_effects resumed_session
      (final (run [Begin 0 true; Tick 0 true true] resumed_session))
    = [SaveLastRun "quotes" 1 None;
       ShowWindow "quotes: q2" (StyledLabel "Error displaying image: q2");
       SetText "quotes (1)"].
Proof. repeat split; by vm_compute. Qed.

(** ** Reading the ledger *)

(** Every index [lastRuns] returns is the parsed value of the first
    record of the bucket, whatever category it is returned for. *)
Lemma lastRuns_first_value db category i :
  (lastRuns db).1 !! category = Some i →
  ∃ lastRunBkt key first rest,
    db !! lastRunBktKey = Some lastRunBkt
    ∧ Cursor lastRunBkt = (key, first) :: rest
    ∧ strconv.Atoi (cursor_value first) = Some i.
Proof.
  unfold lastRuns.
  destruct (db !! lastRunBktKey) as [b|]; simpl; [|by rewrite lookup_empty].
  intros H. apply foldl_insert_lookup in H as [H|[Hin Hv]].
  { by rewrite lookup_empty in H. }
  destruct (Cursor b) as [|[k n] rest] eqn:Hcur; [by apply elem_of_nil in Hin|].
  exists b, k, n, rest. split; [done|]. split; [done|]. exact Hv.
Qed.

(** C10 at the failing inputs.  With records a = "x" and b = "3" the
    well-formed entry b is not returned: every iteration parses "x".
    With records a = "3" and b = "x" the malformed entry b is returned,
    with the value of a. *)
Theorem lastRuns_parses_first_record_only :
  strconv.Atoi "x" = None
  ∧ strconv.Atoi "3" = Some 3%Z
  ∧ lastRuns {[ lastRunBktKey := {[ "a" := Leaf "x"; "b" := Leaf "3" ]} ]}
    = (∅, None)
  ∧ lastRuns {[ lastRunBktKey := {[ "a" := Leaf "3"; "b" := Leaf "x" ]} ]}
    = ({[ "a" := 3%Z; "b" := 3%Z ]}, None).
Proof. repeat split; by vm_compute. Qed.

(** ** Decimal text of an index read back *)

Section Strconv.

Lemma digits_of_uint_acc d : ∀ p,
  strconv.digits (Z.pos p) (NilEmpty.string_of_uint d)
  = Some (Z.pos (Pos.of_uint_acc d p)).
Proof.
  induction d as [|d IH|d IH|d IH|d IH|d IH|d IH|d IH|d IH|d IH|d IH]; intros p;
    [done|..];
    cbn [NilEmpty.string_of_uint strconv.digits Pos.of_uint_acc];
    (match goal with
     | |- context [strconv.digit ?c] =>
         let v := eval vm_compute in (strconv.digit c) in
         change (strconv.digit c) with v
     end); cbv iota beta;
    (match goal with
     | |- strconv.digits ?a _ = Some (Z.pos (Pos.of_uint_acc _ ?q)) =>
         replace a with (Z.pos q) by lia
     end); apply IH.
Qed.

Lemma digits_of_uint d :
  strconv.digits 0 (NilEmpty.string_of_uint d) = Some (Z.of_N (Pos.of_uint d)).
Proof.
  induction d as [|d IH|d IH|d IH|d IH|d IH|d IH|d IH|d IH|d IH|d IH];
    [done|exact IH|..];
    cbn [NilEmpty.string_of_uint strconv.digits Pos.of_uint];
    (match goal with
     | |- context [strconv.digit ?c] =>
         let v := eval vm_compute in (strconv.digit c) in
         change (strconv.digit c) with v
     end); cbv iota beta; apply digits_of_uint_acc.
Qed.

Lemma to_uint_not_Nil p : Pos.to_uint p ≠ Decimal.Nil.
Proof.
  intros Hnil. pose proof (DecimalPos.Unsigned.of_to p) as Hof.
  rewrite Hnil in Hof. discriminate.
Qed.

Lemma digits_to_uint p :
  ∃ c rest,
    NilZero.string_of_uint (Pos.to_uint p) = String c rest
    ∧ Ascii.eqb c "-" = false ∧ Ascii.eqb c "+" = false
    ∧ strconv.digits 0 (String c rest) = Some (Z.pos p).
Proof.
  pose proof (digits_of_uint (Pos.to_uint p)) as Hd.
  rewrite DecimalPos.Unsigned.of_to in Hd. simpl in Hd.
  assert (NilZero.string_of_uint (Pos.to_uint p)
          = NilEmpty.string_of_uint (Pos.to_uint p)) as ->.
  { pose proof (to_uint_not_Nil p). by destruct (Pos.to_uint p). }
  destruct (NilEmpty.string_of_uint (Pos.to_uint p)) as [|c rest]; [done|].
  exists c, rest. split; [done|].
  assert (∀ x : ascii, strconv.digit x = None → Ascii.eqb c x = false) as Hx.
  { intros x Hx. destruct (Ascii.eqb_spec c x) as [->|]; [|done].
    simpl in Hd. by rewrite Hx in Hd. }
  split; [by apply Hx|]. split; [by apply Hx|done].
Qed.

(** [Atoi] reads back what [Itoa] writes. *)
Lemma Atoi_Itoa i : GoInt.inRange i = true → strconv.Atoi (strconv.Itoa i) = Some i.
Proof.
  intros Hi. destruct i as [|p|p]; [done|..]; unfold strconv.Itoa; simpl Z.to_int;
    cbn [NilZero.string_of_int];
    destruct (digits_to_uint p) as (c & rest & -> & Hm & Hp & Hd).
  - unfold strconv.Atoi. rewrite Hm, Hp. cbn [orb]. rewrite Hd. by rewrite Hi.
  - unfold strconv.Atoi. cbn [Ascii.eqb Bool.eqb andb orb]. rewrite Hd.
    change (- Z.pos p)%Z with (Z.neg p). by rewrite Hi.
Qed.

(** A ledger with a single record is read back as it was written. *)
Lemma lastRuns_single_record db category i :
  db !! lastRunBktKey = Some {[ category := Leaf (strconv.Itoa i) ]} →
  GoInt.inRange i = true →
  lastRuns db = ({[ category := i ]}, None).
Proof.
  intros Hdb Hi. unfold lastRuns, Cursor. rewrite Hdb.
  rewrite map_to_list_singleton. cbn. rewrite (Atoi_Itoa i Hi).
  by rewrite insert_empty.
Qed.

End Strconv.

(** ** Progress over sequences of ticks *)

Section Progress.

Context `{Toolkit}.

Implicit Types (s : App) (category : string) (id : nat).

Lemma wrap_small z : (GoInt.minInt ≤ z ≤ GoInt.maxInt)%Z → GoInt.wrap z = z.
Proof.
  unfold GoInt.minInt, GoInt.maxInt, GoInt.wrap. intros Hz.
  rewrite Z.mod_small by lia. lia.
Qed.

Lemma len_nonneg {A} (l : list A) : (0 ≤ GoInt.len l)%Z.
Proof. unfold GoInt.len. lia. Qed.

Lemma index_in_range {A} (l : list A) (i : Z) :
  (0 ≤ i < GoInt.len l)%Z → is_Some (GoInt.index l i).
Proof.
  unfold GoInt.index, GoInt.len. intros Hi.
  rewrite (proj2 (Z.ltb_ge _ _)) by lia.
  apply lookup_lt_is_Some. lia.
Qed.

Lemma progress_okb_true active runs :
  progress_okb active runs = true → progress_ok active runs.
Proof.
  unfold progress_okb. intros Hb. apply andb_prop in Hb as [Hfit Hruns].
  rewrite forallb_forall in Hfit. rewrite forallb_forall in Hruns. split.
  - intros c items Hc. apply Z.leb_le.
    apply (Hfit (c, items)). by apply list_elem_of_In, elem_of_map_to_list.
  - intros c i Hc.
    specialize (Hruns (c, i)). simpl in Hruns.
    destruct (active !! c) as [items|].
    + exists items. split; [done|].
      assert ((-1 <=? i)%Z && (i <? GoInt.len items)%Z = true) as Hi
        by (by apply Hruns, list_elem_of_In, elem_of_map_to_list).
      apply andb_prop in Hi as [?%Z.leb_le ?%Z.ltb_lt]. lia.
    + assert (false = true) as Hf; [|done].
      by apply Hruns, list_elem_of_In, elem_of_map_to_list.
Qed.

Lemma progress_ok_insert active runs category items i :
  progress_ok active runs →
  active !! category = Some items → (-1 ≤ i < GoInt.len items)%Z →
  progress_ok active (<[category := i]> runs).
Proof.
  intros [Hfit Hruns] Hitems Hi. split; [done|].
  intros c j. destruct (decide (category = c)) as [<-|Hne].
  - rewrite lookup_insert_eq. intros [= <-]. eauto.
  - rewrite lookup_insert_ne by done. apply Hruns.
Qed.

Lemma progress_ok_delete active runs category :
  progress_ok active runs →
  progress_ok (delete category active) (delete category runs).
Proof.
  intros [Hfit Hruns]. split.
  - intros c items Hc. apply lookup_delete_Some in Hc as [_ Hc]. eauto.
  - intros c i Hc. apply lookup_delete_Some in Hc as [Hne Hc].
    destruct (Hruns _ _ Hc) as (items & Hitems & Hi).
    exists items. by rewrite lookup_delete_ne.
Qed.

Lemma cursor_ok_inv s category items :
  progress_inv s → activeReminders s !! category = Some items →
  cursor_ok s category items.
Proof.
  intros [Hfit Hruns] Hitems. split; [done|]. split; [by eapply Hfit|].
  unfold lastIndexOf. pose proof (len_nonneg items).
  destruct (lastRunStatuses s !! category) as [i|] eqn:Hi; simpl; [|lia].
  destruct (Hruns _ _ Hi) as (items' & Hitems' & Hb).
  rewrite Hitems in Hitems'. by injection Hitems' as <-.
Qed.

(** Within these bounds the next index is [lastIndex + 1], unwrapped, and
    so is the number of items left after it. *)
Lemma nextIndexOf_ok s category items :
  cursor_ok s category items →
  nextIndexOf s category = (lastIndexOf s category + 1)%Z.
Proof.
  intros (_ & Hlen & Hl). unfold nextIndexOf, GoInt.add.
  fold (lastIndexOf s category). apply wrap_small.
  unfold GoInt.minInt, GoInt.maxInt in *. lia.
Qed.

Lemma remaining_ok s category items :
  cursor_ok s category items →
  GoInt.sub (GoInt.sub (GoInt.len items) (lastIndexOf s category + 1)) 1
  = (remainingOf s category - 1)%Z.
Proof.
  intros (Hitems & Hlen & Hl). unfold remainingOf, GoInt.sub. rewrite Hitems.
  rewrite (wrap_small (GoInt.len items - _)%Z)
    by (unfold GoInt.minInt, GoInt.maxInt in *; lia).
  rewrite wrap_small by (unfold GoInt.minInt, GoInt.maxInt in *; lia). lia.
Qed.

Lemma nextIndexOf_inv s category items :
  progress_inv s → activeReminders s !! category = Some items →
  nextIndexOf s category = (lastIndexOf s category + 1)%Z
  ∧ (-1 ≤ lastIndexOf s category < GoInt.len items)%Z
  ∧ (GoInt.len items ≤ GoInt.maxInt)%Z.
Proof.
  intros Hinv Hitems. pose proof (cursor_ok_inv _ _ _ Hinv Hitems) as Hok.
  split; [by eapply nextIndexOf_ok|]. by destruct Hok as (_ & ? & ?).
Qed.

Lemma remaining_inv s category items :
  progress_inv s → activeReminders s !! category = Some items →
  GoInt.sub (GoInt.sub (GoInt.len items) (nextIndexOf s category)) 1
  = (remainingOf s category - 1)%Z.
Proof.
  intros Hinv Hitems. pose proof (cursor_ok_inv _ _ _ Hinv Hitems) as Hok.
  rewrite (nextIndexOf_ok _ _ _ Hok). by eapply remaining_ok.
Qed.

(** With an item left to show, [showReminder] shows it, whatever the
    storage engine and the rendering do. *)
Lemma showReminder_shows commit category s items :
  cursor_ok s category items →
  (1 ≤ remainingOf s category)%Z →
  ∃ nextItem,
    GoInt.index items (lastIndexOf s category + 1) = Some nextItem
    ∧ showReminder commit category s
      = Ret (0 <? remainingOf s category - 1)%Z
            (shown category items (lastIndexOf s category + 1) nextItem
               (recorded commit category (lastIndexOf s category + 1) s)).
Proof.
  intros Hok Hrem.
  pose proof (remaining_ok _ _ _ Hok) as Hr.
  pose proof (nextIndexOf_ok _ _ _ Hok) as Hnext.
  destruct Hok as (Hitems & Hlen & Hl).
  assert (lastIndexOf s category + 1 < GoInt.len items)%Z as Hlt
    by (unfold remainingOf in Hrem; rewrite Hitems in Hrem; lia).
  destruct (index_in_range items (lastIndexOf s category + 1)) as [nextItem Hidx];
    [lia|].
  exists nextItem. split; [done|].
  unfold showReminder. rewrite Hitems. fold (nextIndexOf s category).
  rewrite Hnext.
  assert ((GoInt.len items =? 0)%Z = false) as -> by (apply Z.eqb_neq; lia).
  assert ((GoInt.len items <=? lastIndexOf s category + 1)%Z = false) as ->
    by (apply Z.leb_gt; lia).
  unfold recorded, shown. cbn [db set_lastRunStatuses]. rewrite !Hr.
  destruct (saveLastRun commit category (lastIndexOf s category + 1) (db s)).
  by rewrite Hidx.
Qed.

(** [showReminder] under the invariant: it never panics; it either
    shows nothing and changes nothing, or it moves to [lastIndex + 1]. *)
Lemma showReminder_progress commit category s :
  progress_inv s →
  showReminder commit category s = Ret false s
  ∨ ∃ items nextItem,
      activeReminders s !! category = Some items
      ∧ (1 ≤ remainingOf s category)%Z
      ∧ GoInt.index items (lastIndexOf s category + 1) = Some nextItem
      ∧ showReminder commit category s
        = Ret (0 <? remainingOf s category - 1)%Z
              (shown category items (lastIndexOf s category + 1) nextItem
                 (recorded commit category (lastIndexOf s category + 1) s)).
Proof.
  intros Hinv.
  destruct (showReminder_inv commit category s _ eq_refl)
    as [?|(items & Hitems & Hlt & Hcase)]; [by left|].
  right. exists items.
  pose proof (remaining_inv _ _ _ Hinv Hitems) as Hrem.
  destruct (nextIndexOf_inv _ _ _ Hinv Hitems) as (Hnext & Hl & Hlen).
  rewrite Hrem, Hnext in Hcase. rewrite Hnext in Hlt.
  destruct (index_in_range items (lastIndexOf s category + 1)) as [nextItem Hidx];
    [lia|].
  rewrite Hidx in Hcase. exists nextItem. split; [done|]. split; [|done].
  unfold remainingOf. rewrite Hitems. lia.
Qed.

Lemma progress_inv_recorded commit category s items :
  progress_inv s → activeReminders s !! category = Some items →
  (1 ≤ remainingOf s category)%Z →
  progress_inv (recorded commit category (lastIndexOf s category + 1) s).
Proof.
  intros Hinv Hitems Hrem. unfold progress_inv. simpl.
  destruct (nextIndexOf_inv _ _ _ Hinv Hitems) as (_ & Hl & _).
  eapply progress_ok_insert; [done..|].
  unfold remainingOf in Hrem. rewrite Hitems in Hrem. lia.
Qed.

Lemma progress_inv_killReminder id commit category s :
  progress_inv s → progress_inv (killReminder id commit category s).
Proof.
  intros Hinv. rewrite killReminder_eq. unfold progress_inv. simpl.
  by apply progress_ok_delete.
Qed.

Lemma saved_indices_app category es1 es2 :
  saved_indices category (es1 ++ es2)
  = saved_indices category es1 ++ saved_indices category es2.
Proof. apply omap_app. Qed.

(** One tick, seen from [category]: it either records nothing for it,
    or records exactly [lastIndex + 1]; afterwards the entries of the
    category are as the tick left them, or deleted. *)
Lemma goTick_progress id commitSave commitDelete s category :
  progress_inv s →
  ∃ s1 es,
    goTick id commitSave commitDelete s = Ret () s1
    ∧ effects s1 = effects s ++ es
    ∧ progress_inv s1
    ∧ ((saved_indices category es = []
        ∧ (kept s s1 category ∨ dropped s1 category))
       ∨ (saved_indices category es = [(lastIndexOf s category + 1)%Z]
          ∧ (1 ≤ remainingOf s category)%Z
          ∧ ((lastRunStatuses s1 !! category = Some (lastIndexOf s category + 1)%Z
              ∧ activeReminders s1 !! category = activeReminders s !! category)
             ∨ dropped s1 category))).
Proof.
  intros Hinv. unfold goTick.
  assert (∃ s1 es, Ret () s = Ret () s1 ∧ effects s1 = effects s ++ es
            ∧ progress_inv s1
            ∧ ((saved_indices category es = []
                ∧ (kept s s1 category ∨ dropped s1 category))
               ∨ (saved_indices category es = [(lastIndexOf s category + 1)%Z]
                  ∧ (1 ≤ remainingOf s category)%Z
                  ∧ ((lastRunStatuses s1 !! category
                      = Some (lastIndexOf s category + 1)%Z
                      ∧ activeReminders s1 !! category = activeReminders s !! category)
                     ∨ dropped s1 category)))) as Hidle.
  { exists s, []. rewrite app_nil_r. split; [done|]. split; [done|].
    split; [done|]. left. split; [done|]. by left. }
  destruct (goroutines s !! id) as [[g imm [] c0]|] eqn:Hg; try exact Hidle.
  clear Hidle.
  destruct (showReminder_progress commitSave g s Hinv)
    as [->|(items & nextItem & Hitems & Hrem & Hidx & ->)].
  - (* nothing shown: the goroutine returns and cleans up *)
    eexists _, [DeleteLastRun g _]. split; [done|].
    split; [by rewrite killReminder_eq|].
    split; [by apply progress_inv_killReminder|].
    left. split; [done|]. rewrite killReminder_eq. unfold kept, dropped. simpl.
    destruct (decide (g = category)) as [->|Hne].
    + right. by rewrite !lookup_delete_eq.
    + left. by rewrite !lookup_delete_ne.
  - (* an item is shown *)
    pose proof (progress_inv_recorded commitSave g s items Hinv Hitems Hrem) as Hinv1.
    destruct (0 <? remainingOf s g - 1)%Z.
    + eexists _, [SaveLastRun g _ _; ShowWindow _ _; SetText _].
      split; [done|].
      split; [by rewrite effects_shown, effects_recorded, <- app_assoc|].
      split; [done|]. simpl.
      destruct (decide (g = category)) as [->|Hne].
      * right. split; [done|]. split; [done|]. left.
        by rewrite lookup_insert_eq.
      * left. split; [done|]. left. unfold kept. simpl.
        by rewrite lookup_insert_ne.
    + eexists _, [SaveLastRun g _ _; ShowWindow _ _; SetText _; DeleteLastRun g _].
      split; [done|].
      split.
      { rewrite killReminder_eq. simpl.
        by rewrite <- !app_assoc. }
      split.
      { apply (progress_inv_killReminder id commitDelete g) in Hinv1.
        rewrite killReminder_eq in *. done. }
      rewrite killReminder_eq. unfold kept, dropped. simpl.
      destruct (decide (g = category)) as [->|Hne].
      * right. split; [done|]. split; [done|]. right.
        by rewrite !lookup_delete_eq.
      * left. split; [done|]. left.
        rewrite !lookup_delete_ne by done. by rewrite lookup_insert_ne.
Qed.

Lemma remainingOf_nonneg s category : progress_inv s → (0 ≤ remainingOf s category)%Z.
Proof.
  intros Hinv. unfold remainingOf.
  destruct (activeReminders s !! category) as [items|] eqn:Hitems; [|done].
  destruct (nextIndexOf_inv _ _ _ Hinv Hitems) as (_ & Hl & _). lia.
Qed.

Lemma dropped_no_record s category :
  progress_inv s → activeReminders s !! category = None →
  lastRunStatuses s !! category = None.
Proof.
  intros [_ Hruns] Hnone.
  destruct (lastRunStatuses s !! category) as [i|] eqn:Hi; [|done].
  destruct (Hruns _ _ Hi) as (items & Hitems & _). congruence.
Qed.

Lemma ticks_progress ticks : ∀ s category,
  Forall is_tick ticks → progress_inv s →
  ∃ s' es (k : nat),
    run ticks s = Ret () s'
    ∧ effects s' = effects s ++ es
    ∧ progress_inv s'
    ∧ saved_indices category es = seqZ (lastIndexOf s category + 1) (Z.of_nat k)
    ∧ (Z.of_nat k ≤ remainingOf s category)%Z
    ∧ (lastRunStatuses s' !! category = None
       ∨ (lastIndexOf s' category = (lastIndexOf s category + Z.of_nat k)%Z
          ∧ activeReminders s' !! category = activeReminders s !! category)).
Proof.
  induction ticks as [|e ticks IH]; intros s category Hticks Hinv.
  { exists s, [], 0. rewrite app_nil_r. split; [done|]. split; [done|].
    split; [done|]. split; [done|].
    split; [by apply remainingOf_nonneg|]. right. split; [lia|done]. }
  apply Forall_cons in Hticks as [He Hticks].
  destruct e as [| | |?|id cs cd|?]; try done. simpl.
  destruct (goTick_progress id cs cd s category Hinv)
    as (s1 & es1 & -> & Hes1 & Hinv1 & Hcase).
  destruct (IH s1 category Hticks Hinv1)
    as (s' & es' & k' & -> & Hes' & Hinv' & Hsaved & Hk' & Hfinal).
  assert (effects s' = effects s ++ es1 ++ es') as Heff
    by (by rewrite Hes', Hes1, <- app_assoc).
  destruct Hcase as [[Hnone [[Hl Ha]|[Hl Ha]]]|(Hone & Hrem & [[Hl Ha]|[Hl Ha]])].
  - (* nothing recorded, entries kept *)
    assert (lastIndexOf s1 category = lastIndexOf s category) as Hidx
      by (unfold lastIndexOf; by rewrite Hl).
    assert (remainingOf s1 category = remainingOf s category) as Hr
      by (unfold remainingOf; by rewrite Ha, Hidx).
    exists s', (es1 ++ es'), k'. split; [done|]. split; [done|]. split; [done|].
    rewrite saved_indices_app, Hnone, Hsaved, Hidx. split; [done|].
    rewrite Hidx, Ha in Hfinal. split; [lia|done].
  - (* nothing recorded, entries deleted *)
    assert (remainingOf s1 category = 0%Z) as Hr by (unfold remainingOf; by rewrite Ha).
    assert (k' = 0) as -> by lia.
    exists s', (es1 ++ es'), 0. split; [done|]. split; [done|]. split; [done|].
    rewrite saved_indices_app, Hnone, Hsaved. split; [done|].
    split; [by apply remainingOf_nonneg|]. left.
    destruct Hfinal as [?|[_ Ha']]; [done|].
    apply dropped_no_record; [done|]. by rewrite Ha'.
  - (* lastIndex + 1 recorded and kept *)
    assert (lastIndexOf s1 category = (lastIndexOf s category + 1)%Z) as Hidx
      by (unfold lastIndexOf at 1; by rewrite Hl).
    assert (remainingOf s1 category = (remainingOf s category - 1)%Z) as Hr.
    { unfold remainingOf in *. rewrite Ha, Hidx.
      destruct (activeReminders s !! category); lia. }
    exists s', (es1 ++ es'), (S k'). split; [done|]. split; [done|]. split; [done|].
    rewrite saved_indices_app, Hone, Hsaved, Hidx. split.
    { rewrite (seqZ_cons _ (Z.of_nat (S k'))) by lia. simpl. do 2 f_equal; lia. }
    split; [lia|]. destruct Hfinal as [?|[Hl' Ha']]; [by left|right].
    split; [lia|]. by rewrite Ha', Ha.
  - (* lastIndex + 1 recorded, then the entries deleted *)
    assert (remainingOf s1 category = 0%Z) as Hr by (unfold remainingOf; by rewrite Ha).
    assert (k' = 0) as -> by lia.
    exists s', (es1 ++ es'), 1. split; [done|]. split; [done|]. split; [done|].
    rewrite saved_indices_app, Hone, Hsaved. split; [done|].
    split; [lia|]. left.
    destruct Hfinal as [?|[_ Ha']]; [done|].
    apply dropped_no_record; [done|]. by rewrite Ha'.
Qed.

(** Progress under the bound: from a state where every recorded index
    is below the number of items of its category, any sequence of ticks
    runs without a panic and keeps that bound; for every category the
    indices recorded along the way are [lastIndex + 1], [lastIndex + 2],
    ... without gap or repetition, one per item shown, and at the end
    the record holds the last of them or has been deleted.  The bound
    is a hypothesis: a restart on two records or more can break it. *)
Theorem lastIndex_advances_by_one ticks s category :
  Forall is_tick ticks → progress_inv s →
  ∃ s' (k : nat),
    run ticks s = Ret () s'
    ∧ progress_inv s'
    ∧ (∀ i, lastRunStatuses s' !! category = Some i →
         ∃ items, activeReminders s' !! category = Some items
                  ∧ (i < GoInt.len items)%Z)
    ∧ saved_indices category (new_effects s s')
      = seqZ (lastIndexOf s category + 1) (Z.of_nat k)
    ∧ (Z.of_nat k ≤ remainingOf s category)%Z
    ∧ (lastRunStatuses s' !! category = None
       ∨ lastIndexOf s' category = (lastIndexOf s category + Z.of_nat k)%Z).
Proof.
  intros Hticks Hinv.
  destruct (ticks_progress ticks s category Hticks Hinv)
    as (s' & es & k & Hrun & Hes & Hinv' & Hsaved & Hk & Hfinal).
  exists s', k. split; [done|]. split; [done|]. split.
  { intros i Hi. destruct Hinv' as [_ Hruns].
    destruct (Hruns _ _ Hi) as (items & Hitems & Hb). exists items.
    split; [done|lia]. }
  rewrite (new_effects_app _ _ _ Hes). split; [done|]. split; [done|].
  destruct Hfinal as [?|[? _]]; [by left|by right].
Qed.

End Progress.

Lemma lastIndex_advances_by_one_witness :
  ∃ s' (k : nat),
    run four_ticks quotes_ticking = Ret () s'
    ∧ progress_inv s'
    ∧ (∀ i, lastRunStatuses s' !! "quotes" = Some i →
         ∃ items, activeReminders s' !! "quotes" = Some items
                  ∧ (i < GoInt.len items)%Z)
    ∧ saved_indices "quotes" (new_effects quotes_ticking s')
      = seqZ (lastIndexOf quotes_ticking "quotes" + 1) (Z.of_nat k)
    ∧ (Z.of_nat k ≤ remainingOf quotes_ticking "quotes")%Z
    ∧ (lastRunStatuses s' !! "quotes" = None
       ∨ lastIndexOf s' "quotes"
         = (lastIndexOf quotes_ticking "quotes" + Z.of_nat k)%Z).
Proof.
  apply (lastIndex_advances_by_one four_ticks quotes_ticking "quotes").
  - repeat constructor.
  - apply progress_okb_true. vm_compute. reflexivity.
Defined.

(** ** The bound after a restart *)

(** C5 at the failing input.  The first session leaves the records
    quotes = "1" and solo = "0"; "solo" has one item, which was shown.
    After the restart [lastRuns] gives "solo" the index of the first
    record, 1, which is not below the number of its items:
    [startTimer] computes [remaining = -1], which is not 0, and starts a
    goroutine.  The bound [lastIndex < len(items)] fails from [main]
    until the first tick of "solo", whose [nextIndex] is 2. *)
Theorem resumed_index_not_below_items :
  record (db first_session) "quotes" = Some (Leaf "1")
  ∧ record (db first_session) "solo" = Some (Leaf "0")
  ∧ categoryItems "solo" (db first_session) = Ok [mkItem "only" "text" "o"]
  ∧ (lastRuns (db first_session)).1 !! "solo" = Some 1%Z
  ∧ let restarted := main (Err (Errorf "offline")) true (db first_session) in
      activeReminders restarted !! "solo" = Some [mkItem "only" "text" "o"]
      ∧ lastRunStatuses restarted !! "solo" = Some 1%Z
      ∧ (GoInt.len [mkItem "only" "text" "o"] ≤ lastIndexOf restarted "solo")%Z
      ∧ remainingOf restarted "solo" = (-1)%Z
      ∧ goroutines restarted !! 0 = Some (mkGoroutine "solo" false Spawned false)
      ∧ ¬ progress_inv restarted
      ∧ second_session = final (run [Begin 0 true; Begin 1 true] restarted)
      ∧ lastRunStatuses second_session !! "solo" = Some 1%Z
      ∧ ¬ progress_inv second_session.
Proof.
  split; [by vm_compute|]. split; [by vm_compute|].
  split; [by vm_compute|]. split; [by vm_compute|].
  intros restarted.
  assert (∀ s, activeReminders s !! "solo" = Some [mkItem "only" "text" "o"] →
               lastRunStatuses s !! "solo" = Some 1%Z → ¬ progress_inv s) as Hout.
  { intros s Ha Hl [_ Hruns].
    destruct (Hruns _ _ Hl) as (items & Hitems & Hb).
    rewrite Ha in Hitems. injection Hitems as <-. vm_compute in Hb.
    destruct Hb as [_ Hb]. discriminate Hb. }
  split; [by vm_compute|]. split; [by vm_compute|].
  split; [by vm_compute|]. split; [by vm_compute|].
  split; [by vm_compute|].
  split; [apply Hout; by vm_compute|].
  split; [reflexivity|].
  split; [by vm_compute|].
  apply Hout; by vm_compute.
Qed.

(** ** Cancellation and a new start *)

Section Cancel.

Context `{Toolkit}.

Implicit Types (s : App) (category : string) (id : nat) (db : Tx).

Lemma wrap_wrap_add a b : GoInt.wrap (GoInt.wrap a + b) = GoInt.wrap (a + b).
Proof.
  unfold GoInt.wrap. f_equal.
  replace (((a + 2 ^ 63) `mod` 2 ^ 64 - 2 ^ 63 + b + 2 ^ 63))%Z
    with ((a + 2 ^ 63) `mod` 2 ^ 64 + b)%Z by lia.
  rewrite Zplus_mod_idemp_l. f_equal. lia.
Qed.

(** [len(items) - lastIndex - 1] for a category without a record. *)
Lemma remaining_fresh {A} (items : list A) :
  (GoInt.len items ≤ GoInt.maxInt)%Z →
  GoInt.sub (GoInt.sub (GoInt.len items) (-1)) 1 = GoInt.len items.
Proof.
  intros Hlen. unfold GoInt.sub.
  replace (GoInt.wrap (GoInt.len items - -1) - 1)%Z
    with (GoInt.wrap (GoInt.len items - -1) + -1)%Z by lia.
  rewrite wrap_wrap_add.
  replace (GoInt.len items - -1 + -1)%Z with (GoInt.len items) by lia.
  apply wrap_small.
  pose proof (len_nonneg items). unfold GoInt.minInt, GoInt.maxInt in *. lia.
Qed.


Lemma startTimer_fresh noDelay category s items :
  activeReminders s !! category = Some items →
  lastRunStatuses s !! category = None →
  items ≠ [] → (GoInt.len items ≤ GoInt.maxInt)%Z →
  startTimer noDelay category s
  = set_activeRemindersBox (activeRemindersBox s ++ [length (goroutines s)])
      (set_goroutines (goroutines s ++ [mkGoroutine category noDelay Spawned false]) s).
Proof.
  intros Hitems Hnone Hne Hlen. unfold startTimer. rewrite Hitems, Hnone. simpl.
  rewrite remaining_fresh by done.
  assert ((GoInt.len items =? 0)%Z = false) as ->; [|done].
  apply Z.eqb_neq. unfold GoInt.len. destruct items; [done|simpl; lia].
Qed.



(** The state the Start button leaves when it starts a goroutine. *)
Lemma startButton_fresh noDelay category s items :
  activeReminders s !! category = None →
  lastRunStatuses s !! category = None →
  categoryItems category (db s) = Ok items →
  items ≠ [] → (GoInt.len items ≤ GoInt.maxInt)%Z →
  startButton (Some category) noDelay s
  = mkApp (db s) (<[category := items]> (activeReminders s)) (lastRunStatuses s)
          (categoryOptions s) None
          (activeRemindersBox s ++ [length (goroutines s)])
          (goroutines s ++ [mkGoroutine category noDelay Spawned false])
          (effects s).
Proof.
  intros Hact Hrun Hcat Hne Hlen. unfold startButton. rewrite Hact, Hcat.
  rewrite (startTimer_fresh _ _ _ items); try done.
  simpl. apply lookup_insert_eq.
Qed.


End Cancel.

(** ** Failures of the display and of the storage *)

Section Failures.

Context `{Toolkit}.

Implicit Types (s : App) (category : string) (id : nat).



End Failures.

(** ** Starts that leave no goroutine running *)

Section Start.

Context `{Toolkit}.

Implicit Types (s : App) (category : string) (id : nat) (db : Tx).

Lemma startButton_active noDelay category s items :
  activeReminders s !! category = Some items →
  startButton (Some category) noDelay s
  = set_errorLabel (Some ("Already running reminders for " +:+ category)) s.
Proof. intros Hact. unfold startButton. by rewrite Hact. Qed.

Lemma saveLastRun_record category index db :
  blen category ≠ 0%Z → (blen category ≤ MaxKeySize)%Z →
  (blen (strconv.Itoa index) ≤ MaxValueSize)%Z →
  ledger_flat db →
  (saveLastRun true category index db).2 = None
  ∧ record (saveLastRun true category index db).1 category
    = Some (Leaf (strconv.Itoa index)).
Proof.
  intros Hne Hkey Hval Hflat.
  unfold saveLastRun, Update, TxCreateBucketIfNotExists, Put. simpl.
  rewrite (proj2 (Z.eqb_neq _ _) Hne).
  rewrite (proj2 (Z.ltb_ge _ _) Hkey), (proj2 (Z.ltb_ge _ _) Hval).
  assert (∀ b : Bucket, (∀ k n, b !! k = Some n → ∃ v, n = Leaf v) →
            match b !! category with
            | Some (Sub _) => Err ErrIncompatibleValue
            | _ => Ok (<[category := Leaf (strconv.Itoa index)]> b)
            end = Ok (<[category := Leaf (strconv.Itoa index)]> b)) as Hput.
  { intros b Hb. destruct (b !! category) as [[v|c]|] eqn:Hc; try done.
    destruct (Hb _ _ Hc) as [v [=]]. }
  rewrite Hput.
  - simpl. unfold record. rewrite lookup_insert_eq. simpl.
    by rewrite lookup_insert_eq.
  - intros k n. destruct (db !! lastRunBktKey) as [b|] eqn:Hb; simpl.
    + by apply Hflat.
    + by rewrite lookup_empty.
Qed.

(** C8 at the failing input: Start on a category whose bucket holds no
    item starts no goroutine, shows nothing and writes no record, but it
    has already stored the empty slice in [activeReminders]; the entry
    stays, and every later Start of the category is refused as already
    running. *)
Theorem start_of_empty_category_registers_it noDelay category s :
  activeReminders s !! category = None →
  categoryItems category (db s) = Ok [] →
  startButton (Some category) noDelay s
  = set_errorLabel None
      (set_activeReminders (<[category := []]> (activeReminders s)) s)
  ∧ goroutines (startButton (Some category) noDelay s) = goroutines s
  ∧ effects (startButton (Some category) noDelay s) = effects s
  ∧ db (startButton (Some category) noDelay s) = db s
  ∧ lastRunStatuses (startButton (Some category) noDelay s) = lastRunStatuses s
  ∧ activeReminders (startButton (Some category) noDelay s) !! category = Some []
  ∧ ∀ noDelay',
      errorLabel (startButton (Some category) noDelay'
                    (startButton (Some category) noDelay s))
      = Some ("Already running reminders for " +:+ category).
Proof.
  intros Hact Hcat.
  assert (startButton (Some category) noDelay s
          = set_errorLabel None
              (set_activeReminders (<[category := []]> (activeReminders s)) s)) as ->.
  { unfold startButton. rewrite Hact, Hcat. unfold startTimer. simpl.
    by rewrite lookup_insert_eq. }
  split; [done|]. split; [done|]. split; [done|]. split; [done|]. split; [done|].
  split; [simpl; apply lookup_insert_eq|].
  intros noDelay'. erewrite startButton_active; [done|].
  simpl. apply lookup_insert_eq.
Qed.

Lemma startTimer_spawns noDelay category s items :
  cursor_ok s category items → (1 ≤ remainingOf s category)%Z →
  startTimer noDelay category s
  = set_activeRemindersBox (activeRemindersBox s ++ [length (goroutines s)])
      (set_goroutines (goroutines s ++ [mkGoroutine category noDelay Spawned false]) s).
Proof.
  intros (Hitems & Hlen & Hl) Hrem. unfold startTimer. rewrite Hitems.
  fold (lastIndexOf s category).
  unfold remainingOf in Hrem. rewrite Hitems in Hrem.
  assert ((GoInt.len items =? 0)%Z = false) as -> by (apply Z.eqb_neq; lia).
  assert (GoInt.sub (GoInt.sub (GoInt.len items) (lastIndexOf s category)) 1
          = (GoInt.len items - lastIndexOf s category - 1)%Z) as ->.
  { unfold GoInt.sub.
    replace (GoInt.wrap (GoInt.len items - lastIndexOf s category) - 1)%Z
      with (GoInt.wrap (GoInt.len items - lastIndexOf s category) + -1)%Z by lia.
    rewrite wrap_wrap_add.
    replace (GoInt.len items - lastIndexOf s category + -1)%Z
      with (GoInt.len items - lastIndexOf s category - 1)%Z by lia.
    apply wrap_small. unfold GoInt.minInt, GoInt.maxInt in *. lia. }
  by assert ((GoInt.len items - lastIndexOf s category - 1 =? 0)%Z = false) as ->
    by (apply Z.eqb_neq; lia).
Qed.

(** C9: Start with "No initial delay" on an inactive category of which
    exactly one item, the last, is left to show.  The goroutine shows
    it, [showReminder] returns false and the goroutine returns before
    its deferred cleanup exists: nothing is deleted, the category stays
    in [activeReminders] with its row, the index of the last item stays
    in [lastRunStatuses] and in the database, and a later Start of the
    category is refused as already running. *)
Theorem immediate_last_item_skips_cleanup category s items commit :
  activeReminders s !! category = None →
  categoryItems category (db s) = Ok items →
  (GoInt.len items ≤ GoInt.maxInt)%Z →
  (-1 ≤ lastIndexOf s category)%Z →
  GoInt.len items = (lastIndexOf s category + 2)%Z →
  ∃ last s',
    GoInt.index items (lastIndexOf s category + 1) = Some last
    ∧ run [ClickStart (Some category) true; Begin (length (goroutines s)) commit] s
      = Ret () s'
    ∧ goroutines s' !! length (goroutines s)
      = Some (mkGoroutine category true Returned false)
    ∧ new_effects s s'
      = [SaveLastRun category (lastIndexOf s category + 1)
           (saveLastRun commit category (lastIndexOf s category + 1) (db s)).2;
         ShowWindow (category +:+ ": " +:+ Item_Name last) (itemUI last);
         SetText (labelText category 0)]
    ∧ activeReminders s' !! category = Some items
    ∧ activeRemindersBox s' = activeRemindersBox s ++ [length (goroutines s)]
    ∧ lastRunStatuses s' !! category = Some (lastIndexOf s category + 1)%Z
    ∧ db s' = (saveLastRun commit category (lastIndexOf s category + 1) (db s)).1
    ∧ (commit = true → blen category ≠ 0%Z → (blen category ≤ MaxKeySize)%Z →
       (blen (strconv.Itoa (lastIndexOf s category + 1)) ≤ MaxValueSize)%Z →
       ledger_flat (db s) →
       record (db s') category
       = Some (Leaf (strconv.Itoa (lastIndexOf s category + 1))))
    ∧ ∀ noDelay,
        startButton (Some category) noDelay s'
        = set_errorLabel (Some ("Already running reminders for " +:+ category)) s'.
Proof.
  intros Hact Hcat Hlen Hl Hlast. cbn [run step].
  unfold startButton. rewrite Hact, Hcat.
  set (s0 := set_errorLabel None _).
  assert (cursor_ok s0 category items) as Hok0.
  { split; [simpl; apply lookup_insert_eq|]. split; [done|].
    change (lastIndexOf s0 category) with (lastIndexOf s category). lia. }
  assert (remainingOf s0 category = 1%Z) as Hrem0.
  { unfold remainingOf. destruct Hok0 as (-> & _).
    change (lastIndexOf s0 category) with (lastIndexOf s category). lia. }
  rewrite (startTimer_spawns true category s0 items Hok0) by lia.
  set (s1 := set_activeRemindersBox _ _).
  assert (goroutines s1 !! length (goroutines s)
          = Some (mkGoroutine category true Spawned false)) as Hg
    by (unfold s1; simpl; apply list_lookup_middle; done).
  assert (cursor_ok s1 category items) as Hok1 by exact Hok0.
  assert (remainingOf s1 category = 1%Z) as Hrem1 by exact Hrem0.
  destruct (showReminder_shows commit category s1 items Hok1)
    as (last & Hidx & Hshow); [lia|].
  pose proof (remaining_ok _ _ _ Hok1) as Hr. rewrite Hrem1 in Hr.
  change (lastIndexOf s1 category) with (lastIndexOf s category) in *.
  exists last. unfold goBegin. rewrite Hg, Hshow, Hrem1.
  change (0 <? 1 - 1)%Z with false.
  eexists. split; [done|]. split; [done|].
  split. { simpl. rewrite list_lookup_alter_eq. by rewrite list_lookup_middle. }
  split.
  { apply new_effects_app.
    change (effects (set_phase ?i ?p ?x)) with (effects x).
    rewrite effects_shown, effects_recorded, Hr. by rewrite <- !app_assoc. }
  split. { simpl. apply lookup_insert_eq. }
  split. { done. }
  split. { simpl. apply lookup_insert_eq. }
  split. { done. }
  split.
  { intros -> Hne Hkey Hval Hflat. simpl.
    by apply (saveLastRun_record category _ (db s)). }
  intros noDelay. unfold startButton. simpl. by rewrite lookup_insert_eq.
Qed.

End Start.

(** ** The hypotheses of the properties are invariants of the program *)

Section Invariants.

Context `{Toolkit}.

Implicit Types (s : App) (category : string) (id : nat) (db : Tx).

Lemma ledger_write_refl db : ledger_write db db.
Proof. by split. Qed.

Lemma ledger_write_trans db1 db2 db3 :
  ledger_write db1 db2 → ledger_write db2 db3 → ledger_write db1 db3.
Proof. intros [H1 F1] [H2 F2]. split; [by rewrite H2|auto]. Qed.

Lemma ledger_write_saveLastRun commit category index db :
  ledger_write db (saveLastRun commit category index db).1.
Proof.
  unfold saveLastRun, Update. destruct commit; [|apply ledger_write_refl].
  unfold TxCreateBucketIfNotExists, Put. simpl.
  destruct (blen category =? 0)%Z; [apply ledger_write_refl|].
  destruct (MaxKeySize <? blen category)%Z; [apply ledger_write_refl|].
  destruct (MaxValueSize <? blen (strconv.Itoa index))%Z; [apply ledger_write_refl|].
  set (b := default ∅ (db !! lastRunBktKey)).
  assert (ledger_write db (<[lastRunBktKey := <[category := Leaf (strconv.Itoa index)]> b]> db))
    as Hw.
  { split; [by rewrite lookup_insert_ne|].
    intros Hflat b' k n. rewrite lookup_insert_eq. intros [= <-] Hk.
    destruct (decide (category = k)) as [->|Hne].
    - rewrite lookup_insert_eq in Hk. injection Hk as <-. eauto.
    - rewrite lookup_insert_ne in Hk by done. unfold b in Hk.
      destruct (db !! lastRunBktKey) as [b0|] eqn:Hb; simpl in Hk.
      + by eapply Hflat.
      + by rewrite lookup_empty in Hk. }
  destruct (b !! category) as [[v|c]|]; simpl; try exact Hw.
  apply ledger_write_refl.
Qed.


Lemma categoryItems_ext category db db' :
  db' !! categoriesBkt = db !! categoriesBkt →
  categoryItems category db' = categoryItems category db.
Proof. intros Heq. unfold categoryItems. by rewrite Heq. Qed.









End Invariants.

(** ** Resuming a single record *)

Section Resume.

Context `{Toolkit}.

Implicit Types (s : App) (category : string) (db : Tx).

Lemma forEach_putCategory_ledger catItems : ∀ tx tx',
  forEach putCategory catItems tx = Ok tx' →
  tx' !! lastRunBktKey = tx !! lastRunBktKey.
Proof.
  induction catItems as [|c catItems IH]; intros tx tx'; simpl.
  - by intros [= <-].
  - destruct (putCategory tx c) as [tx1|] eqn:Hput; [|done]. simpl.
    intros Hrest. rewrite (IH _ _ Hrest).
    unfold putCategory in Hput. simpl in Hput.
    destruct (CreateBucketIfNotExists _ _); [|done].
    destruct (forEach putItem _ _); [|done]. simpl in Hput.
    injection Hput as <-. by rewrite lookup_insert_ne.
Qed.

(** The refresh at the start of [main] leaves the ledger and the empty
    maps as they are. *)
Lemma refreshCategories_at_start fetched commit s :
  activeReminders s = ∅ →
  activeReminders (refreshCategories fetched commit s) = ∅
  ∧ lastRunStatuses (refreshCategories fetched commit s) = lastRunStatuses s
  ∧ goroutines (refreshCategories fetched commit s) = goroutines s
  ∧ activeRemindersBox (refreshCategories fetched commit s) = activeRemindersBox s
  ∧ effects (refreshCategories fetched commit s) = effects s
  ∧ db (refreshCategories fetched commit s) !! lastRunBktKey
    = db s !! lastRunBktKey.
Proof.
  intros Ha. unfold refreshCategories, downloadFromAPI. simpl.
  destruct fetched as [catItems|e]; [|done].
  unfold Update. destruct commit; [|done].
  destruct (forEach putCategory catItems (db s)) as [tx|e] eqn:Hloop; [|done].
  simpl. rewrite Ha, map_to_list_empty. simpl.
  by rewrite (forEach_putCategory_ledger _ _ _ Hloop).
Qed.

Lemma lastRuns_ext db db' :
  db' !! lastRunBktKey = db !! lastRunBktKey → lastRuns db' = lastRuns db.
Proof. intros Heq. unfold lastRuns. by rewrite Heq. Qed.

Lemma main_single_record fetched commit db0 category i :
  db0 !! lastRunBktKey = Some {[ category := Leaf (strconv.Itoa i) ]} →
  GoInt.inRange i = true →
  main fetched commit db0
  = resume (set_lastRunStatuses {[ category := i ]}
              (refreshCategories fetched commit
                 (mkApp db0 ∅ ∅ (categoriesFromDB db0) None [] [] []))) category.
Proof.
  intros Hdb Hrange. unfold main.
  set (s0 := mkApp db0 ∅ ∅ (categoriesFromDB db0) None [] [] []).
  destruct (refreshCategories_at_start fetched commit s0 eq_refl)
    as (_ & _ & _ & _ & _ & Hledger).
  rewrite (lastRuns_ext db0 _ Hledger).
  rewrite (lastRuns_single_record db0 category i Hdb Hrange).
  cbn [lastRunStatuses set_lastRunStatuses].
  by rewrite map_to_list_singleton.
Qed.

(** With a single record in the ledger the program resumes where it
    stopped: [main] starts one goroutine for the category, without
    immediate display, and its first tick records and shows the item
    after the recorded one. *)
Lemma main_resumes_single_record
    fetched commit db0 category i items commitSave commitDelete :
  db0 !! lastRunBktKey = Some {[ category := Leaf (strconv.Itoa i) ]} →
  categoryItems category (db (main fetched commit db0)) = Ok items →
  (GoInt.len items ≤ GoInt.maxInt)%Z → (0 ≤ i)%Z → (i + 1 < GoInt.len items)%Z →
  ∃ nextItem s' later,
    goroutines (main fetched commit db0) = [mkGoroutine category false Spawned false]
    ∧ GoInt.index items (i + 1) = Some nextItem
    ∧ run [Begin 0 true; Tick 0 commitSave commitDelete] (main fetched commit db0)
      = Ret () s'
    ∧ new_effects (main fetched commit db0) s'
      = SaveLastRun category (i + 1)
          (saveLastRun commitSave category (i + 1) (db (main fetched commit db0))).2
        :: ShowWindow (category +:+ ": " +:+ Item_Name nextItem) (itemUI nextItem)
        :: later.
Proof.
  intros Hdb Hcat Hlen Hi0 Hi1.
  assert (GoInt.inRange i = true) as Hrange.
  { unfold GoInt.inRange, GoInt.minInt, GoInt.maxInt in *.
    apply andb_true_intro. split; apply Z.leb_le; lia. }
  rewrite (main_single_record fetched commit db0 category i Hdb Hrange) in *.
  set (s0 := mkApp db0 ∅ ∅ (categoriesFromDB db0) None [] [] []) in *.
  destruct (refreshCategories_at_start fetched commit s0 eq_refl)
    as (Ha & _ & Hg & _ & _ & _).
  set (s1 := refreshCategories fetched commit s0) in *.
  unfold resume in *. cbn [db set_lastRunStatuses] in *.
  destruct (categoryItems category (db s1)) as [items'|e] eqn:Hcat1;
    [|simpl in Hcat; congruence].
  set (s2 := set_activeReminders _ _) in *.
  assert (db (startTimer false category s2) = db s1) as Hdbeq.
  { unfold startTimer. destruct (activeReminders s2 !! category); [|done].
    destruct (_ =? 0)%Z; [done|]. by destruct (_ =? 0)%Z. }
  rewrite Hdbeq, Hcat1 in Hcat. injection Hcat as ->.
  assert (lastIndexOf s2 category = i) as Hidx
    by (unfold lastIndexOf, s2; simpl; by rewrite lookup_singleton_eq).
  assert (cursor_ok s2 category items) as Hok.
  { split; [unfold s2; simpl; apply lookup_insert_eq|]. rewrite Hidx. lia. }
  assert (remainingOf s2 category = (GoInt.len items - i - 1)%Z) as Hrem
    by (unfold remainingOf; destruct Hok as (-> & _); by rewrite Hidx).
  rewrite (startTimer_spawns false category s2 items Hok) by lia.
  set (s3 := set_activeRemindersBox _ _).
  assert (goroutines s3 = [mkGoroutine category false Spawned false]) as Hg3
    by (unfold s3, s2; simpl; by rewrite Hg).
  set (s4 := set_phase 0 Ticking s3).
  assert (cursor_ok s4 category items) as Hok4 by exact Hok.
  destruct (showReminder_shows commitSave category s4 items Hok4)
    as (nextItem & Hnext & Hshow);
    [change (remainingOf s4 category) with (remainingOf s2 category); lia|].
  change (lastIndexOf s4 category) with (lastIndexOf s2 category) in *.
  rewrite Hidx in *.
  exists nextItem.
  assert (run [Begin 0 true; Tick 0 commitSave commitDelete] s3
          = match showReminder commitSave category s4 with
            | Ret true s' => Ret () s'
            | Ret false s' =>
                Ret () (set_phase 0 Returned (killReminder 0 commitDelete category s'))
            | Panic s' => Panic (killReminder 0 commitDelete category s')
            end) as ->.
  { cbn [run step]. unfold goBegin. rewrite Hg3. cbn [lookup list_lookup].
    fold s4. unfold goTick.
    assert (goroutines s4 !! 0 = Some (mkGoroutine category false Ticking false)) as ->
      by (unfold s4; cbn [goroutines set_phase set_goroutines]; by rewrite Hg3).
    by destruct (showReminder commitSave category s4) as [[] ?|?]. }
  rewrite Hshow.
  destruct (0 <? _)%Z.
  - eexists _, _. split; [done|]. split; [done|]. split; [done|].
    apply new_effects_app. rewrite effects_shown, effects_recorded.
    by rewrite <- !app_assoc.
  - eexists _, _. split; [done|]. split; [done|]. split; [done|].
    apply new_effects_app. rewrite killReminder_eq.
    cbn [effects set_phase set_goroutines].
    rewrite effects_shown, effects_recorded. by rewrite <- !app_assoc.
Qed.

End Resume.

(** ** The properties on the examples *)



Lemma start_of_empty_category_registers_it_witness :
  let s := main (Ok [empty_category]) true ∅ in
  goroutines (startButton (Some "empty") true s) = goroutines s
  ∧ effects (startButton (Some "empty") true s) = effects s
  ∧ lastRunStatuses (startButton (Some "empty") true s) = lastRunStatuses s
  ∧ activeReminders (startButton (Some "empty") true s) !! "empty" = Some []
  ∧ errorLabel (startButton (Some "empty") true (startButton (Some "empty") true s))
    = Some "Already running reminders for empty".
Proof.
  intros s.
  destruct (start_of_empty_category_registers_it true "empty" s)
    as (_ & Hg & He & _ & Hl & Ha & Hagain).
  - by vm_compute.
  - by vm_compute.
  - split; [done|]. split; [done|]. split; [done|]. split; [done|].
    apply (Hagain true).
Defined.

Lemma immediate_last_item_skips_cleanup_witness :
  let s := main (Ok [solo]) true ∅ in
  ∃ s',
    run [ClickStart (Some "solo") true; Begin 0 true] s = Ret () s'
    ∧ goroutines s' !! 0 = Some (mkGoroutine "solo" true Returned false)
    ∧ activeReminders s' !! "solo" = Some [mkItem "only" "text" "o"]
    ∧ lastRunStatuses s' !! "solo" = Some 0%Z
    ∧ record (db s') "solo" = Some (Leaf "0")
    ∧ startButton (Some "solo") false s'
      = set_errorLabel (Some "Already running reminders for solo") s'.
Proof.
  intros s.
  destruct (immediate_last_item_skips_cleanup "solo" s [mkItem "only" "text" "o"] true)
    as (last & s' & _ & Hrun & Hg & _ & Ha & _ & Hl & _ & Hrec & Hagain).
  - by vm_compute.
  - by vm_compute.
  - by vm_compute.
  - by vm_compute.
  - by vm_compute.
  - exists s'. split; [exact Hrun|]. split; [exact Hg|]. split; [exact Ha|].
    split; [exact Hl|]. split; [|exact (Hagain false)].
    apply Hrec.
    + done.
    + by vm_compute.
    + by vm_compute.
    + by vm_compute.
    + apply ledger_flatb_true. by vm_compute.
Defined.

(** * Further properties *)

(** ** The server on small inputs *)

Example storeItem_examples :
  (apiServer.storeItem true store_request ∅).2
  = mkResponse 200 (JSON [mkCategory "quotes" [mkItem "q9" "text" "hello"]])
  ∧ (apiServer.storeItem true
       (mkRequest "quotes" "pic" "image" "" (File "Image/PNG" (Ok "bytes")))
       server_after_store).2
    = mkResponse 200 (JSON [mkCategory "quotes" [mkItem "pic" "image" "bytes";
                                                 mkItem "q9" "text" "hello"]])
  ∧ (apiServer.storeItem true
       (mkRequest "quotes" "pic" "image" "" MissingFile) server_after_store).2
    = mkResponse 400 (Text "video or image requires attachment")
  ∧ (apiServer.storeItem true
       (mkRequest "quotes" "pic" "image" "" (File "text/plain" (Ok "bytes")))
       server_after_store).2
    = mkResponse 400 (Text "invalid attachment for image")
  ∧ (apiServer.storeItem false store_request ∅).2
    = mkResponse 500 (Text "error saving item").
Proof. repeat split; vm_compute; reflexivity. Qed.

Example Store_Get_examples :
  apiServer.Get "app" "k" (apiServer.Store true "app" "k" "v" ∅).1 = Ok (Some "v")
  ∧ apiServer.Get "app" "k" (apiServer.Store true "app" "k" "" ∅).1 = Ok None
  ∧ apiServer.Get "app" "k" ∅ = Err (Errorf "app bucket not found")
  ∧ apiServer.Get "app" "j" (apiServer.Store true "app" "k" "v" ∅).1
    = Err (Errorf "no value found for j")
  ∧ apiServer.Get "app" "" ∅ = Err (Errorf "cannot get with empty bucket or key")
  ∧ apiServer.Store true "" "k" "v" ∅
    = (∅, Some (Errorf "cannot store with empty bucket or key")).
Proof. repeat split; vm_compute; reflexivity. Qed.

(** ** The catalogue: what a download stores *)

Section Download.

Implicit Types (tx db : Tx) (catBucket : Bucket) (item : Item) (category : Category).

Lemma forEach_fails {A S} (body : S → A → result error S) (l : list A) (x : A) :
  x ∈ l → (∀ s, ∃ e, body s x = Err e) → ∀ s, ∃ e, forEach body l s = Err e.
Proof.
  induction l as [|y l IH]; intros Hin Hbad s; [by apply elem_of_nil in Hin|].
  simpl. destruct (body s y) as [s'|e] eqn:Hy; [|by eexists].
  simpl. apply elem_of_cons in Hin as [->|Hin].
  - destruct (Hbad s) as [e He]. congruence.
  - by apply IH.
Qed.

Lemma putItem_unnamed catBucket item :
  Item_Name item = EmptyString → ∃ e, putItem catBucket item = Err e.
Proof. intros Hn. unfold putItem, CreateBucketIfNotExists. rewrite Hn. simpl. by eexists. Qed.

Lemma putCategory_unnamed tx category :
  unnamed category → ∃ e, putCategory tx category = Err e.
Proof.
  intros Hbad. unfold putCategory.
  destruct (TxCreateBucketIfNotExists tx categoriesBkt) as [catsBucket|e]; [|by eexists].
  destruct (CreateBucketIfNotExists catsBucket (Category_Name category))
    as [catBucket|e] eqn:Hc; [|by eexists].
  destruct Hbad as [Hn|(item & Hin & Hn)].
  - unfold CreateBucketIfNotExists in Hc. by rewrite Hn in Hc.
  - destruct (forEach_fails putItem _ item Hin
                (λ b, putItem_unnamed b item Hn) catBucket) as [e ->].
    by eexists.
Qed.

Lemma has_category_entry tx c catBucket :
  has_category tx c catBucket ↔ catalogue_entry tx c = Some (Sub catBucket).
Proof.
  unfold has_category, catalogue_entry. split.
  - intros (cats & -> & Hc). simpl. exact Hc.
  - destruct (tx !! categoriesBkt) as [cats|]; [|done]. simpl. eauto.
Qed.

Lemma Put_Ok (b : Bucket) k v b' : Put b k v = Ok b' → b' = <[k := Leaf v]> b.
Proof.
  unfold Put.
  destruct (blen k =? 0)%Z; [done|].
  destruct (MaxKeySize <? blen k)%Z; [done|].
  destruct (MaxValueSize <? blen v)%Z; [done|].
  destruct (b !! k) as [[?|?]|]; congruence.
Qed.

(** One item written: it is read back as it was given, and no other
    key of the bucket changes. *)
Lemma putItem_lookup catBucket item catBucket' :
  putItem catBucket item = Ok catBucket' →
  readItem catBucket' (Item_Name item) = Some item
  ∧ ∀ k, k ≠ Item_Name item → catBucket' !! k = catBucket !! k.
Proof.
  unfold putItem.
  destruct (CreateBucketIfNotExists catBucket (Item_Name item)) as [ib|]; [|done].
  destruct (Put ib itemTypeKey (Item_Type item)) as [ib1|] eqn:H1; [|done]. simpl.
  destruct (Put ib1 itemContentKey (Item_Content item)) as [ib2|] eqn:H2; [|done].
  simpl. intros [= <-].
  apply Put_Ok in H1 as ->. apply Put_Ok in H2 as ->. split.
  - unfold readItem, GetBucket, Get. rewrite lookup_insert_eq.
    rewrite lookup_insert_ne by done. rewrite !lookup_insert_eq. simpl.
    by destruct item.
  - intros k Hk. by rewrite lookup_insert_ne.
Qed.

Lemma forEach_putItem_lookup items : ∀ catBucket catBucket',
  forEach putItem items catBucket = Ok catBucket' →
  NoDup (Item_Name <$> items) →
  (∀ item, item ∈ items → readItem catBucket' (Item_Name item) = Some item)
  ∧ ∀ k, k ∉ Item_Name <$> items → catBucket' !! k = catBucket !! k.
Proof.
  induction items as [|item items IH]; intros b b'; simpl.
  - intros [= <-] _. split; [|done]. intros item Hin. by apply elem_of_nil in Hin.
  - destruct (putItem b item) as [b1|] eqn:Hput; [|done]. simpl.
    intros Hrest Hnd. apply NoDup_cons in Hnd as [Hnotin Hnd].
    destruct (putItem_lookup _ _ _ Hput) as [Hnew Hold].
    destruct (IH _ _ Hrest Hnd) as [Hnew' Hold']. split.
    + intros it Hin. apply elem_of_cons in Hin as [->|Hin]; [|auto].
      unfold readItem, GetBucket in *. by rewrite (Hold' _ Hnotin).
    + intros k Hk. apply not_elem_of_cons in Hk as [Hk1 Hk2].
      rewrite (Hold' _ Hk2). by apply Hold.
Qed.

(** One category written: its bucket is the one it had, with the items
    of the payload put into it; no other category changes. *)
Lemma putCategory_entry tx category tx' :
  putCategory tx category = Ok tx' →
  ∃ catBucket',
    catalogue_entry tx' (Category_Name category) = Some (Sub catBucket')
    ∧ forEach putItem (Category_Items category)
        (bucket_before tx (Category_Name category)) = Ok catBucket'
    ∧ (∀ c, c ≠ Category_Name category →
         catalogue_entry tx' c = catalogue_entry tx c)
    ∧ (∀ k, k ≠ categoriesBkt → tx' !! k = tx !! k).
Proof.
  unfold putCategory, TxCreateBucketIfNotExists. simpl.
  destruct (CreateBucketIfNotExists (default ∅ (tx !! categoriesBkt))
              (Category_Name category)) as [b|] eqn:Hb; [|done].
  destruct (forEach putItem (Category_Items category) b) as [b'|] eqn:Hloop;
    [|done]. simpl. intros [= <-]. exists b'.
  assert (b = bucket_before tx (Category_Name category)) as <-.
  { unfold CreateBucketIfNotExists in Hb. unfold bucket_before, catalogue_entry.
    destruct (blen (Category_Name category) =? 0)%Z; [done|].
    destruct (tx !! categoriesBkt) as [cats|]; simpl in *.
    - destruct (cats !! Category_Name category) as [[?|?]|]; congruence.
    - rewrite lookup_empty in Hb. congruence. }
  split; [|split; [done|split]].
  - unfold catalogue_entry. rewrite lookup_insert_eq. simpl. apply lookup_insert_eq.
  - intros c Hc. unfold catalogue_entry. rewrite lookup_insert_eq. simpl.
    rewrite lookup_insert_ne by done.
    destruct (tx !! categoriesBkt); simpl; [done|apply lookup_empty].
  - intros k Hk. by rewrite lookup_insert_ne.
Qed.

Lemma forEach_putCategory_entry catItems : ∀ tx tx',
  forEach putCategory catItems tx = Ok tx' →
  (∀ c, is_Some (catalogue_entry tx' c)
        ↔ is_Some (catalogue_entry tx c) ∨ c ∈ Category_Name <$> catItems)
  ∧ (∀ c, c ∉ Category_Name <$> catItems →
       catalogue_entry tx' c = catalogue_entry tx c)
  ∧ (NoDup (Category_Name <$> catItems) →
     ∀ category, category ∈ catItems →
       ∃ catBucket',
         catalogue_entry tx' (Category_Name category) = Some (Sub catBucket')
         ∧ forEach putItem (Category_Items category)
             (bucket_before tx (Category_Name category)) = Ok catBucket').
Proof.
  induction catItems as [|c0 catItems IH]; intros tx tx'; simpl.
  - intros [= <-]. split; [|split; [done|]].
    + intros c. split; [by left|]. intros [?|Hin]; [done|].
      by apply elem_of_nil in Hin.
    + intros _ c Hin. by apply elem_of_nil in Hin.
  - destruct (putCategory tx c0) as [tx1|] eqn:Hput; [|done]. simpl. intros Hrest.
    destruct (putCategory_entry _ _ _ Hput) as (b0 & Hb0 & Hloop0 & Hother & _).
    destruct (IH _ _ Hrest) as (Hkeys & Hframe & Hnew).
    split; [|split].
    + intros c. rewrite Hkeys, elem_of_cons.
      destruct (decide (c = Category_Name c0)) as [->|Hne].
      * rewrite Hb0. split; [intros _; right; by left|intros _; left; eauto].
      * rewrite (Hother _ Hne). split.
        -- intros [?|?]; [by left|by right; right].
        -- intros [?|[?|?]]; [by left|done|by right].
    + intros c Hc. apply not_elem_of_cons in Hc as [Hc1 Hc2].
      rewrite (Hframe _ Hc2). by apply Hother.
    + intros Hnd category Hin. apply NoDup_cons in Hnd as [Hnotin Hnd].
      apply elem_of_cons in Hin as [->|Hin].
      * exists b0. split; [|done]. by rewrite (Hframe _ Hnotin).
      * destruct (Hnew Hnd _ Hin) as (b' & Hb' & Hloop). exists b'.
        split; [done|].
        assert (Category_Name category ≠ Category_Name c0) as Hne.
        { intros Heq. apply Hnotin. rewrite <- Heq.
          apply list_elem_of_fmap. eauto. }
        unfold bucket_before in *. by rewrite <- (Hother _ Hne).
Qed.

Lemma key_lt_asym x y : key_lt x y → key_lt y x → False.
Proof.
  unfold key_lt, String.ltb. intros Hxy Hyx.
  destruct (String.compare x y) eqn:H1; try done.
  destruct (String.compare y x) eqn:H2; try done.
  pose proof (string_compare_lt_trans _ _ _ H1 H2) as H3.
  by rewrite string_compare_refl in H3.
Qed.

Lemma StronglySorted_key_lt_NoDup (l : list string) :
  StronglySorted key_lt l → NoDup l.
Proof.
  induction 1 as [|x l Hl IH Hx]; constructor; [|done].
  intros Hin. eapply Forall_forall in Hx; [|done]. by apply key_lt_ne in Hx.
Qed.

Lemma categoriesFromDB_elem db c :
  c ∈ categoriesFromDB db ↔ is_Some (catalogue_entry db c).
Proof.
  unfold categoriesFromDB, catalogue_entry.
  destruct (db !! categoriesBkt) as [cats|]; simpl.
  - apply elem_of_Cursor_keys.
  - split; [intros Hin; by apply elem_of_nil in Hin|intros [? ?]; done].
Qed.

Lemma categoriesFromDB_sorted db : StronglySorted key_lt (categoriesFromDB db).
Proof.
  unfold categoriesFromDB. destruct (db !! categoriesBkt); [|constructor].
  apply Cursor_keys_sorted.
Qed.

(** The items put into a bucket are read back from it; when the bucket
    held nothing under other names, they are all that is read back. *)
Lemma forEach_putItem_read_back items catBucket catBucket' :
  forEach putItem items catBucket = Ok catBucket' →
  NoDup (Item_Name <$> items) →
  (∀ item, item ∈ items → item ∈ omap (readItem catBucket') (Cursor catBucket').*1)
  ∧ ((∀ k, k ∉ Item_Name <$> items → catBucket !! k = None) →
     omap (readItem catBucket') (Cursor catBucket').*1 ≡ₚ items).
Proof.
  intros Hitems Hndi.
  destruct (forEach_putItem_lookup _ _ _ Hitems Hndi) as [Hread Hframe].
  assert (∀ item, item ∈ items →
            item ∈ omap (readItem catBucket') (Cursor catBucket').*1) as Hsub.
  { intros item Hitem. apply list_elem_of_omap. exists (Item_Name item).
    split; [|by apply Hread].
    apply elem_of_Cursor_keys.
    assert (has_item catBucket' (Item_Name item)) as [ib Hib].
    { apply readItem_is_Some. rewrite (Hread _ Hitem). eauto. }
    eauto. }
  split; [done|]. intros Hfresh.
  apply NoDup_Permutation.
  - eapply NoDup_fmap_1. apply StronglySorted_key_lt_NoDup.
    apply omap_readItem_sorted, Cursor_keys_sorted.
  - by eapply NoDup_fmap_1.
  - intros item. split; [|apply Hsub].
    intros Hitem. apply list_elem_of_omap in Hitem as (k & Hk & Hr).
    destruct (decide (k ∈ Item_Name <$> items)) as [Hk'|Hk'].
    + apply list_elem_of_fmap in Hk' as (it & -> & Hit).
      rewrite (Hread _ Hit) in Hr. by injection Hr as <-.
    + exfalso. apply elem_of_Cursor_keys in Hk as [n Hn].
      rewrite (Hframe _ Hk'), (Hfresh _ Hk') in Hn. done.
Qed.

Lemma downloadFromAPI_Ok catItems commit db db' names :
  downloadFromAPI (Ok catItems) commit db = (db', Ok names) →
  forEach putCategory catItems db = Ok db' ∧ names = Category_Name <$> catItems.
Proof.
  unfold downloadFromAPI, Update. destruct commit; [|done].
  destruct (forEach putCategory catItems db); [|done]. by intros [= <- <-].
Qed.

Lemma downloadFromAPI_Err fetched commit db db' e :
  downloadFromAPI fetched commit db = (db', Err e) → db' = db.
Proof.
  unfold downloadFromAPI, Update. destruct fetched as [catItems|e']; [|congruence].
  destruct commit; [|congruence].
  destruct (forEach putCategory catItems db); congruence.
Qed.

(** X1: a payload that holds a category with an empty name, or an item
    with an empty name, is refused as a whole: [downloadFromAPI] returns
    an error and the database is as it was, also for the categories that
    come before the bad one; a refresh shows the error and changes
    nothing else. *)
Theorem download_with_empty_name_stores_nothing
    (commit : bool) (s : App) (catItems : list Category) (category : Category) :
  category ∈ catItems → unnamed category →
  ∃ e, downloadFromAPI (Ok catItems) commit (db s) = (db s, Err e)
       ∧ refreshCategories (Ok catItems) commit s
         = set_errorLabel (Some (Error e)) s.
Proof.
  intros Hin Hbad.
  destruct (forEach_fails putCategory catItems category Hin
              (λ tx, putCategory_unnamed tx category Hbad) (db s)) as [e He].
  assert (∃ e', downloadFromAPI (Ok catItems) commit (db s) = (db s, Err e'))
    as [e' He'].
  { unfold downloadFromAPI, Update. destruct commit; [|by eexists].
    rewrite He. by eexists. }
  exists e'. split; [done|].
  unfold refreshCategories. cbn [db set_errorLabel]. by rewrite He'.
Qed.

Lemma download_catalogue_le fetched commit db :
  catalogue_le db (downloadFromAPI fetched commit db).1
  ∧ (downloadFromAPI fetched commit db).1 !! lastRunBktKey = db !! lastRunBktKey.
Proof.
  unfold downloadFromAPI, Update.
  destruct fetched as [catItems|e]; [|by split; [apply catalogue_le_refl|]].
  destruct commit; [|by split; [apply catalogue_le_refl|]].
  destruct (forEach putCategory catItems db) as [db'|e] eqn:Hloop;
    [|by split; [apply catalogue_le_refl|]].
  simpl. split.
  - by apply (forEach_putCategory_spec catItems).
  - by apply (forEach_putCategory_ledger catItems).
Qed.

Lemma elem_of_categoryItems_names tx c catBucket name :
  has_category tx c catBucket →
  name ∈ Item_Name <$> omap (readItem catBucket) (Cursor catBucket).*1
  ↔ has_item catBucket name.
Proof.
  intros Hb. split.
  - intros Hin. apply list_elem_of_fmap in Hin as (it & -> & Hin).
    apply list_elem_of_omap in Hin as (k & Hk & Hr).
    rewrite (readItem_name _ _ _ Hr). apply readItem_is_Some. eauto.
  - intros Hitem. destruct (elem_of_categoryItems _ _ _ _ Hb Hitem) as (items & Hci & Hin).
    rewrite (categoryItems_has_category _ _ _ Hb) in Hci. by injection Hci as <-.
Qed.

(** A catalogue that lost nothing gives every category at least the
    items it gave before. *)
Lemma categoryItems_le tx tx' c items :
  catalogue_le tx tx' → categoryItems c tx = Ok items →
  ∃ items', categoryItems c tx' = Ok items'
            ∧ (∀ name, name ∈ Item_Name <$> items → name ∈ Item_Name <$> items')
            ∧ length items ≤ length items'.
Proof.
  intros Hle Hci.
  assert (∃ b, has_category tx c b) as [b Hb].
  { unfold categoryItems, has_category in *.
    destruct (tx !! categoriesBkt) as [cats|]; [|done].
    unfold GetBucket in Hci.
    destruct (cats !! c) as [[v|b]|] eqn:Hc; try done. eauto. }
  destruct (Hle _ _ Hb) as (b' & Hb' & Hsub).
  rewrite (categoryItems_has_category _ _ _ Hb) in Hci. injection Hci as <-.
  eexists. split; [by apply categoryItems_has_category|].
  assert (∀ name, name ∈ Item_Name <$> omap (readItem b) (Cursor b).*1 →
            name ∈ Item_Name <$> omap (readItem b') (Cursor b').*1) as Hnames.
  { intros name Hin. apply (elem_of_categoryItems_names _ _ _ _ Hb'), Hsub.
    by apply (elem_of_categoryItems_names _ _ _ _ Hb). }
  split; [done|].
  rewrite <- (length_fmap Item_Name (omap (readItem b) _)).
  rewrite <- (length_fmap Item_Name (omap (readItem b') _)).
  apply submseteq_length, NoDup_submseteq; [|done].
  apply StronglySorted_key_lt_NoDup, omap_readItem_sorted, Cursor_keys_sorted.
Qed.

(** X2: whatever is fetched and whether the transaction commits,
    [downloadFromAPI] removes nothing from the catalogue: a category
    that [categoryItems] could read is still read, with every item name
    it had and at least as many items; a stored category that the
    payload does not name is kept exactly as it was; the progress
    records are not touched. *)
Theorem downloadFromAPI_never_removes
    (fetched : result error (list Category)) (commit : bool) (db : Tx) :
  (∀ (name : string) items,
     categoryItems name db = Ok items →
     ∃ items',
       categoryItems name (downloadFromAPI fetched commit db).1 = Ok items'
       ∧ (∀ k, k ∈ Item_Name <$> items → k ∈ Item_Name <$> items')
       ∧ length items ≤ length items')
  ∧ (∀ c, c ∉ payload_names fetched →
       catalogue_entry (downloadFromAPI fetched commit db).1 c = catalogue_entry db c)
  ∧ (downloadFromAPI fetched commit db).1 !! lastRunBktKey = db !! lastRunBktKey.
Proof.
  destruct (download_catalogue_le fetched commit db) as [Hle Hledger].
  split; [|split; [|done]].
  - intros name items. by apply categoryItems_le.
  - unfold downloadFromAPI, Update.
    destruct fetched as [catItems|e]; [|done].
    destruct commit; [|done].
    destruct (forEach putCategory catItems db) as [db'|e] eqn:Hloop; [|done].
    simpl. by apply (forEach_putCategory_entry catItems).
Qed.

(** X3: a stored payload is read back.  When the names of the
    categories of the payload differ from each other and so do the names
    of the items of a category, [categoryItems] returns every item of
    that category with the type and the content of the payload; when the
    category was not stored before, it returns exactly the items of the
    payload, sorted by name. *)
Theorem categoryItems_reads_back_download
    (commit : bool) (db db' : Tx) (catItems : list Category)
    (names : list string) (category : Category) :
  downloadFromAPI (Ok catItems) commit db = (db', Ok names) →
  NoDup (Category_Name <$> catItems) →
  category ∈ catItems →
  NoDup (Item_Name <$> Category_Items category) →
  ∃ items,
    categoryItems (Category_Name category) db' = Ok items
    ∧ (∀ item, item ∈ Category_Items category → item ∈ items)
    ∧ (catalogue_entry db (Category_Name category) = None →
       items ≡ₚ Category_Items category
       ∧ StronglySorted key_lt (Item_Name <$> items)).
Proof.
  intros Hdl Hnd Hin Hndi.
  apply downloadFromAPI_Ok in Hdl as [Hloop _].
  destruct (forEach_putCategory_entry _ _ _ Hloop) as (_ & _ & Hnew).
  destruct (Hnew Hnd _ Hin) as (b' & Hb' & Hitems).
  destruct (forEach_putItem_read_back _ _ _ Hitems Hndi) as [Hsub Hperm].
  apply has_category_entry in Hb'.
  pose proof (categoryItems_has_category _ _ _ Hb') as Hci.
  eexists. split; [exact Hci|]. split; [done|]. intros Hfresh.
  split; [|by apply (categoryItems_sorted _ _ _ Hci)].
  apply Hperm. intros k _. unfold bucket_before. rewrite Hfresh.
  apply lookup_empty.
Qed.

(** X4: after a download that succeeds, the names it returns are those
    of the payload in the order of the payload, repetitions included,
    while [categoriesFromDB] lists the stored categories in strictly
    ascending byte order: every name of the payload and every category
    stored before, each once. *)
Theorem categoriesFromDB_after_download
    (commit : bool) (db db' : Tx) (catItems : list Category) (names : list string) :
  downloadFromAPI (Ok catItems) commit db = (db', Ok names) →
  names = Category_Name <$> catItems
  ∧ StronglySorted key_lt (categoriesFromDB db')
  ∧ NoDup (categoriesFromDB db')
  ∧ ∀ c, c ∈ categoriesFromDB db' ↔ c ∈ categoriesFromDB db ∨ c ∈ names.
Proof.
  intros Hdl. apply downloadFromAPI_Ok in Hdl as [Hloop ->].
  split; [done|]. split; [apply categoriesFromDB_sorted|].
  split; [apply StronglySorted_key_lt_NoDup, categoriesFromDB_sorted|].
  intros c. rewrite !categoriesFromDB_elem.
  by apply (forEach_putCategory_entry catItems).
Qed.

End Download.

(** ** The ledger: what is written is what is read *)

Section LedgerWrites.

Implicit Types (db : Tx) (category : string).

Lemma nb_digits_double d :
  Decimal.nb_digits (Decimal.Little.double d) ≤ S (Decimal.nb_digits d)
  ∧ Decimal.nb_digits (Decimal.Little.succ_double d) ≤ S (Decimal.nb_digits d).
Proof. induction d; simpl; lia. Qed.

Lemma nb_digits_to_little_uint p :
  Decimal.nb_digits (Pos.to_little_uint p) ≤ Pos.size_nat p.
Proof.
  induction p as [p IH|p IH|]; simpl; [| |lia].
  - pose proof (proj2 (nb_digits_double (Pos.to_little_uint p))). lia.
  - pose proof (proj1 (nb_digits_double (Pos.to_little_uint p))). lia.
Qed.

Lemma size_nat_bound p : ∀ n : nat, (Z.pos p < 2 ^ Z.of_nat n)%Z → Pos.size_nat p ≤ n.
Proof.
  induction p as [p IH|p IH|]; intros [|n] Hp; cbn [Pos.size_nat];
    try (change (2 ^ Z.of_nat 0)%Z with 1%Z in Hp; lia).
  - rewrite Nat2Z.inj_succ, Z.pow_succ_r in Hp by lia.
    specialize (IH n). lia.
  - rewrite Nat2Z.inj_succ, Z.pow_succ_r in Hp by lia.
    specialize (IH n). lia.
Qed.

Lemma length_string_of_uint d :
  String.length (NilEmpty.string_of_uint d) = Decimal.nb_digits d.
Proof. induction d; simpl; congruence. Qed.

Lemma length_NilZero_string_of_uint d :
  String.length (NilZero.string_of_uint d) ≤ S (Decimal.nb_digits d).
Proof.
  destruct d; simpl; rewrite ?length_string_of_uint; lia.
Qed.

(** The decimal text of an [int] has at most 65 bytes. *)
Lemma blen_Itoa i : GoInt.inRange i = true → (blen (strconv.Itoa i) ≤ 66)%Z.
Proof.
  unfold GoInt.inRange, GoInt.minInt, GoInt.maxInt. intros Hi.
  apply andb_true_iff in Hi as [Hlo Hhi].
  apply Z.leb_le in Hlo, Hhi.
  assert (∀ p, (Z.pos p < 2 ^ Z.of_nat 64)%Z →
            String.length (NilZero.string_of_uint (Pos.to_uint p)) ≤ 65) as Hp.
  { intros p Hlt.
    pose proof (length_NilZero_string_of_uint (Pos.to_uint p)) as H1.
    unfold Pos.to_uint in *. rewrite DecimalFacts.nb_digits_rev in H1.
    pose proof (nb_digits_to_little_uint p).
    pose proof (size_nat_bound p 64 Hlt). lia. }
  unfold blen, strconv.Itoa.
  destruct i as [|p|p]; simpl.
  - lia.
  - specialize (Hp p). change (2 ^ Z.of_nat 64)%Z with (2 ^ 64)%Z in Hp. lia.
  - specialize (Hp p). change (2 ^ Z.of_nat 64)%Z with (2 ^ 64)%Z in Hp. lia.
Qed.

Lemma foldl_insert_const (i : Z) (l : list string) : ∀ (m : gmap string Z) c,
  foldl (λ (acc : gmap string Z) (k : string), <[k := i]> acc) m l !! c
  = if decide (c ∈ l) then Some i else m !! c.
Proof.
  induction l as [|k l IH]; intros m c; simpl.
  - destruct (decide (c ∈ [])) as [Hin|]; [by apply elem_of_nil in Hin|done].
  - rewrite IH. destruct (decide (c ∈ l)) as [Hin|Hout].
    + rewrite decide_True; [done|by right].
    + destruct (decide (c = k)) as [->|Hne].
      * rewrite lookup_insert_eq. rewrite decide_True; [done|by left].
      * rewrite lookup_insert_ne by done.
        rewrite decide_False; [done|]. intros Hin.
        apply elem_of_cons in Hin as [?|?]; done.
Qed.

End LedgerWrites.

(** X5: [lastRuns] is all or nothing.  When the value of the first
    record of the bucket, in byte order of the keys, is the decimal text
    of an [int], every category with a record is returned, each with
    that one index; otherwise no category is returned.  The values of
    the other records are never read. *)
Theorem lastRuns_all_or_nothing
    (db : Tx) (lastRunBkt : Bucket) (key : string) (first : node)
    (rest : list (string * node)) :
  db !! lastRunBktKey = Some lastRunBkt →
  Cursor lastRunBkt = (key, first) :: rest →
  lastRuns db
  = (match strconv.Atoi (cursor_value first) with
     | Some index => (λ _, index) <$> lastRunBkt
     | None => ∅
     end, None).
Proof.
  intros Hdb Hcur. unfold lastRuns. rewrite Hdb. cbv zeta.
  pose proof (elem_of_Cursor_keys lastRunBkt) as Hkeys.
  rewrite Hcur in *. f_equal.
  destruct (strconv.Atoi (cursor_value first)) as [index|].
  - apply map_eq. intros c. rewrite foldl_insert_const, lookup_fmap.
    rewrite lookup_empty.
    destruct (decide (c ∈ ((key, first) :: rest).*1)) as [Hin|Hout].
    + apply Hkeys in Hin as [n ->]. done.
    + destruct (lastRunBkt !! c) as [n|] eqn:Hc; [|done].
      exfalso. apply Hout, Hkeys. eauto.
  - generalize (((key, first) :: rest).*1). intros l.
    induction l as [|k l IH]; [done|]. simpl. exact IH.
Qed.

Lemma lastRuns_all_or_nothing_witness :
  lastRuns {[ lastRunBktKey := {[ "a" := Leaf "3"; "b" := Leaf "x" ]} ]}
  = (match strconv.Atoi (cursor_value (Leaf "3")) with
     | Some index => (λ _, index) <$> ({[ "a" := Leaf "3"; "b" := Leaf "x" ]} : Bucket)
     | None => ∅
     end, None).
Proof.
  apply (lastRuns_all_or_nothing _ _ "a" (Leaf "3") [("b", Leaf "x")]).
  - by vm_compute.
  - by vm_compute.
Defined.

(** X6: what [saveLastRun] writes is read back.  For a category with a
    name of a legal key size and an index in the range of [int], on a
    ledger that holds values only, [saveLastRun] succeeds when the
    engine commits; the record of the category then holds a text that
    [strconv.Atoi] reads back as the same index. *)
Theorem saveLastRun_round_trip (category : string) (index : Z) (db : Tx) :
  category ≠ EmptyString → (blen category ≤ MaxKeySize)%Z →
  GoInt.inRange index = true → ledger_flat db →
  ∃ db' v,
    saveLastRun true category index db = (db', None)
    ∧ record db' category = Some (Leaf v)
    ∧ strconv.Atoi v = Some index
    ∧ ledger_flat db'.
Proof.
  intros Hne Hkey Hi Hflat.
  assert (blen category ≠ 0%Z) as Hlen.
  { unfold blen. destruct category; [done|]. simpl. lia. }
  assert (blen (strconv.Itoa index) ≤ MaxValueSize)%Z as Hval.
  { pose proof (blen_Itoa index Hi). unfold MaxValueSize. lia. }
  destruct (saveLastRun_record category index db Hlen Hkey Hval Hflat) as [Herr Hrec].
  exists (saveLastRun true category index db).1, (strconv.Itoa index).
  split; [|split; [done|split; [by apply Atoi_Itoa|]]].
  - rewrite <- Herr. by destruct (saveLastRun true category index db).
  - by apply ledger_write_saveLastRun.
Qed.

Lemma saveLastRun_round_trip_witness :
  ∃ db' v,
    saveLastRun true "quotes" 41 ∅ = (db', None)
    ∧ record db' "quotes" = Some (Leaf v)
    ∧ strconv.Atoi v = Some 41%Z
    ∧ ledger_flat db'.
Proof.
  apply (saveLastRun_round_trip "quotes" 41 ∅).
  - done.
  - by vm_compute.
  - by vm_compute.
  - apply ledger_flatb_true. by vm_compute.
Defined.

(** A write to the ledger for one category, whether it succeeds or not,
    changes neither the record of any other category nor anything
    outside the "last_run" bucket. *)
Lemma ledger_writes_frame (commit : bool) (category : string) (index : Z) (db : Tx) :
  (∀ c, c ≠ category →
     record (saveLastRun commit category index db).1 c = record db c
     ∧ record (deleteLastRun commit category db).1 c = record db c)
  ∧ (∀ k, k ≠ lastRunBktKey →
       (saveLastRun commit category index db).1 !! k = db !! k
       ∧ (deleteLastRun commit category db).1 !! k = db !! k).
Proof.
  assert (∀ b : Bucket, record (<[lastRunBktKey := b]> db) = λ c, b !! c) as Hrec.
  { intros b. unfold record. by rewrite lookup_insert_eq. }
  assert (∀ c, record db c = default ∅ (db !! lastRunBktKey) !! c) as Hdef.
  { intros c. unfold record. destruct (db !! lastRunBktKey); simpl; [done|].
    by rewrite lookup_empty. }
  unfold saveLastRun, deleteLastRun, Update, TxCreateBucketIfNotExists.
  destruct commit; [|done]. simpl.
  set (b := default ∅ (db !! lastRunBktKey)) in *.
  split.
  - intros c Hc. split.
    + destruct (Put b category (strconv.Itoa index)) as [b'|] eqn:Hput; simpl;
        [|done].
      apply Put_Ok in Hput as ->. rewrite Hrec, Hdef.
      by rewrite lookup_insert_ne.
    + unfold Delete. destruct (b !! category) as [[v|?]|] eqn:Hb; simpl;
        rewrite ?Hrec, ?Hdef; try done.
      by rewrite lookup_delete_ne.
  - intros k Hk. split.
    + destruct (Put b category (strconv.Itoa index)) as [b'|]; simpl; [|done].
      by rewrite lookup_insert_ne.
    + destruct (Delete b category) as [b'|]; simpl; [|done].
      by rewrite lookup_insert_ne.
Qed.

(** X7: later writes absorb earlier saves.  On a ledger that holds
    values only, deleting the record of a category after a save for it
    leaves the database exactly as deleting it at once does, and a save
    of an index in the range of [int] after another save leaves what the
    later save alone leaves, whether or not the earlier save was
    committed. *)
Theorem ledger_write_absorbs_save
    (commit : bool) (category : string) (index later : Z) (db : Tx) :
  ledger_flat db → GoInt.inRange later = true →
  deleteLastRun true category (saveLastRun commit category index db).1
  = deleteLastRun true category db
  ∧ saveLastRun true category later (saveLastRun commit category index db).1
    = saveLastRun true category later db.
Proof.
  intros Hflat Hlater.
  assert (ledger_flat (saveLastRun commit category index db).1) as Hflat'
    by by apply ledger_write_saveLastRun.
  assert ((MaxValueSize <? blen (strconv.Itoa later))%Z = false) as Hval.
  { apply Z.ltb_ge. pose proof (blen_Itoa later Hlater). unfold MaxValueSize. lia. }
  assert (∀ n, default ∅ (db !! lastRunBktKey) !! category = Some n →
            ∃ v, n = Leaf v) as Hleaf.
  { intros n Hn. destruct (db !! lastRunBktKey) as [b|] eqn:Hb; simpl in Hn.
    - by eapply Hflat.
    - by rewrite lookup_empty in Hn. }
  split.
  - rewrite !deleteLastRun_flat by done. f_equal.
    unfold saveLastRun, Update, TxCreateBucketIfNotExists.
    destruct commit; [|done]. simpl.
    destruct (Put (default ∅ (db !! lastRunBktKey)) category (strconv.Itoa index))
      as [b'|] eqn:Hput; simpl; [|done].
    apply Put_Ok in Hput as ->. rewrite lookup_insert_eq. simpl.
    by rewrite delete_insert_eq, insert_insert_eq.
  - clear Hflat'.
    unfold saveLastRun, Update, TxCreateBucketIfNotExists, Put.
    destruct commit; [|done]. simpl.
    destruct (blen category =? 0)%Z; simpl; [done|].
    destruct (MaxKeySize <? blen category)%Z; simpl; [done|].
    rewrite Hval.
    destruct (MaxValueSize <? blen (strconv.Itoa index))%Z; simpl; [done|].
    destruct (default ∅ (db !! lastRunBktKey) !! category) as [[v|c]|] eqn:Hc; simpl.
    + rewrite lookup_insert_eq. simpl. rewrite lookup_insert_eq. simpl.
      by rewrite !insert_insert_eq.
    + destruct (Hleaf _ eq_refl) as [v [=]].
    + rewrite lookup_insert_eq. simpl. rewrite lookup_insert_eq. simpl.
      by rewrite !insert_insert_eq.
Qed.

Lemma ledger_write_absorbs_save_witness :
  deleteLastRun true "quotes" (saveLastRun true "quotes" 1 (db quotes_at_0)).1
  = deleteLastRun true "quotes" (db quotes_at_0)
  ∧ saveLastRun true "quotes" 2 (saveLastRun true "quotes" 1 (db quotes_at_0)).1
    = saveLastRun true "quotes" 2 (db quotes_at_0).
Proof.
  apply (ledger_write_absorbs_save true "quotes" 1 2 (db quotes_at_0)).
  - apply ledger_flatb_true. by vm_compute.
  - by vm_compute.
Defined.

(** ** Timers: one per category *)

Section Timers.

Context `{Toolkit}.

Implicit Types (s : App) (category : string) (id : nat).

Lemma timers_ok_weaken s s' :
  (∀ j g', goroutines s' !! j = Some g' →
     ∃ g, goroutines s !! j = Some g ∧ g_category g = g_category g'
          ∧ (live g' → live g)) →
  (∀ j g', goroutines s' !! j = Some g' → live g' →
     is_Some (activeReminders s !! g_category g') →
     is_Some (activeReminders s' !! g_category g')) →
  timers_ok s → timers_ok s'.
Proof.
  intros Hg Ha [H1 H2]. split.
  - intros i j gi gj Hi Hj Hli Hlj Hc.
    destruct (Hg _ _ Hi) as (gi0 & Hi0 & Hci & Hlive_i).
    destruct (Hg _ _ Hj) as (gj0 & Hj0 & Hcj & Hlive_j).
    apply (H1 i j gi0 gj0); auto. congruence.
  - intros i g Hi Hl.
    destruct (Hg _ _ Hi) as (g0 & Hi0 & Hc & Hlive).
    apply (Ha _ _ Hi Hl). rewrite <- Hc. eapply H2; eauto.
Qed.

Lemma timers_ok_same s s' :
  goroutines s' = goroutines s → activeReminders s' = activeReminders s →
  timers_ok s → timers_ok s'.
Proof.
  intros Hg Ha. apply timers_ok_weaken.
  - intros j g'. rewrite Hg. eauto.
  - intros j g' _ _. by rewrite Ha.
Qed.

Lemma showReminder_frame commit category s :
  goroutines (final (showReminder commit category s)) = goroutines s
  ∧ activeReminders (final (showReminder commit category s)) = activeReminders s.
Proof.
  destruct (showReminder_inv commit category s _ eq_refl)
    as [->|(items & _ & _ & Hm)]; [done|].
  destruct (GoInt.index items (nextIndexOf s category)); by rewrite Hm.
Qed.

Lemma lookup_set_phase id p s j g' :
  goroutines (set_phase id p s) !! j = Some g' →
  ∃ g, goroutines s !! j = Some g ∧ g_category g = g_category g'
       ∧ g_immediateDisplay g = g_immediateDisplay g'
       ∧ g_cancelled g = g_cancelled g'
       ∧ (if decide (j = id) then g_phase g' = p else g_phase g' = g_phase g).
Proof.
  cbn [goroutines set_phase set_goroutines].
  destruct (decide (j = id)) as [->|Hne].
  - rewrite list_lookup_alter_eq.
    destruct (goroutines s !! id) as [g|]; [|done]. simpl. intros [= <-].
    exists g. done.
  - rewrite list_lookup_alter_ne by done. intros Hg. exists g'. done.
Qed.

Lemma lookup_clickX id s j g' :
  goroutines (clickX id s) !! j = Some g' →
  ∃ g, goroutines s !! j = Some g ∧ g_category g = g_category g'
       ∧ g_phase g = g_phase g'.
Proof.
  unfold clickX. cbn [goroutines set_goroutines].
  destruct (decide (j = id)) as [->|Hne].
  - rewrite list_lookup_alter_eq.
    destruct (goroutines s !! id) as [g|]; [|done]. simpl. intros [= <-].
    exists g. done.
  - rewrite list_lookup_alter_ne by done. intros Hg. exists g'. done.
Qed.

(** A goroutine that is live moves to another phase. *)
Lemma timers_ok_set_phase id p s g :
  goroutines s !! id = Some g → live g →
  timers_ok s → timers_ok (set_phase id p s).
Proof.
  intros Hid Hlive. apply timers_ok_weaken; [|done].
  intros j g' Hj. apply lookup_set_phase in Hj as (g0 & Hj & Hc & _ & _ & Hp).
  exists g0. split; [done|]. split; [done|].
  destruct (decide (j = id)) as [->|_].
  - intros _. congruence.
  - unfold live. by rewrite Hp.
Qed.

(** A live goroutine returns after its cleanup ran. *)
Lemma timers_ok_return id commit category imm ph c s :
  goroutines s !! id = Some (mkGoroutine category imm ph c) →
  ph ≠ Returned →
  timers_ok s → timers_ok (set_phase id Returned (killReminder id commit category s)).
Proof.
  intros Hid Hph Hok.
  pose proof Hok as [Hone _]. revert Hok. apply timers_ok_weaken.
  - intros j g' Hj. apply lookup_set_phase in Hj as (g0 & Hj & Hc & _ & _ & Hp).
    rewrite killReminder_eq in Hj. cbn [goroutines] in Hj.
    exists g0. split; [done|]. split; [done|].
    destruct (decide (j = id)) as [->|_].
    + unfold live. by rewrite Hp.
    + unfold live. by rewrite Hp.
  - intros j g' Hj Hl Ha.
    apply lookup_set_phase in Hj as (g0 & Hj & Hc & _ & _ & Hp).
    rewrite killReminder_eq in Hj. cbn [goroutines] in Hj.
    destruct (decide (j = id)) as [->|Hne]; [unfold live in Hl; by rewrite Hp in Hl|].
    cbn [activeReminders set_phase set_goroutines]. rewrite killReminder_eq.
    cbn [activeReminders].
    rewrite lookup_delete_ne; [done|].
    intros Heq. apply Hne.
    apply (Hone j id g0 (mkGoroutine category imm ph c)); auto.
    + unfold live in *. by rewrite <- Hp.
    + simpl. congruence.
Qed.

(** [startTimer] for a registered category without a live goroutine. *)
Lemma timers_ok_startTimer imm category s :
  is_Some (activeReminders s !! category) →
  (∀ j g, goroutines s !! j = Some g → live g → g_category g ≠ category) →
  timers_ok s → timers_ok (startTimer imm category s).
Proof.
  intros Hact Hfree [H1 H2]. unfold startTimer.
  destruct (activeReminders s !! category) as [items|] eqn:Hitems; [|done].
  destruct (GoInt.len items =? 0)%Z; [done|].
  destruct (_ =? 0)%Z; [done|].
  assert (∀ j g, (goroutines s ++ [mkGoroutine category imm Spawned false]) !! j = Some g →
            goroutines s !! j = Some g
            ∨ (j = length (goroutines s) ∧ g = mkGoroutine category imm Spawned false))
    as Hcases.
  { intros j g Hj. apply lookup_app_Some in Hj as [Hj|[Hlen Hj]]; [by left|].
    right. apply list_lookup_singleton_Some in Hj as [Hj <-]. split; [lia|done]. }
  split.
  - intros i j gi gj. cbn [goroutines set_activeRemindersBox set_goroutines].
    intros Hi Hj Hli Hlj Hc.
    apply Hcases in Hi as [Hi|[-> ->]]; apply Hcases in Hj as [Hj|[-> ->]].
    + by apply (H1 i j gi gj).
    + exfalso. by apply (Hfree _ _ Hi Hli).
    + exfalso. by apply (Hfree _ _ Hj Hlj).
    + done.
  - intros i g. cbn [goroutines activeReminders set_activeRemindersBox set_goroutines].
    intros Hi Hl. apply Hcases in Hi as [Hi|[-> ->]].
    + by eapply H2.
    + simpl. rewrite Hitems. eauto.
Qed.

Lemma startTimer_frame imm category s :
  activeReminders (startTimer imm category s) = activeReminders s
  ∧ lastRunStatuses (startTimer imm category s) = lastRunStatuses s
  ∧ db (startTimer imm category s) = db s
  ∧ categoryOptions (startTimer imm category s) = categoryOptions s
  ∧ effects (startTimer imm category s) = effects s.
Proof.
  unfold startTimer. destruct (activeReminders s !! category); [|done].
  destruct (_ =? 0)%Z; [done|]. by destruct (_ =? 0)%Z.
Qed.

Lemma startTimer_goroutines imm category s j g :
  goroutines (startTimer imm category s) !! j = Some g →
  goroutines s !! j = Some g ∨ g_category g = category.
Proof.
  unfold startTimer. destruct (activeReminders s !! category); [|by left].
  destruct (_ =? 0)%Z; [by left|]. destruct (_ =? 0)%Z; [by left|].
  cbn [goroutines set_activeRemindersBox set_goroutines]. intros Hj.
  apply lookup_app_Some in Hj as [Hj|[_ Hj]]; [by left|].
  right. by apply list_lookup_singleton_Some in Hj as [_ <-].
Qed.

Lemma timers_ok_startButton selected noDelay s :
  timers_ok s → timers_ok (startButton selected noDelay s).
Proof.
  intros Hok. unfold startButton.
  destruct selected as [c|]; [|by apply (timers_ok_same s)].
  destruct (activeReminders s !! c) as [items|] eqn:Hact;
    [by apply (timers_ok_same s)|].
  destruct (categoryItems c (db s)) as [items|e]; [|by apply (timers_ok_same s)].
  apply timers_ok_startTimer.
  - cbn [activeReminders set_errorLabel set_activeReminders].
    rewrite lookup_insert_eq. eauto.
  - cbn [goroutines set_errorLabel set_activeReminders].
    intros j g Hj Hl Hc. destruct Hok as [_ Hreg].
    destruct (Hreg _ _ Hj Hl) as [x Hx]. rewrite Hc in Hx. congruence.
  - revert Hok. apply timers_ok_weaken; [eauto|].
    intros j g _ _ [x Hx]. cbn [activeReminders set_errorLabel set_activeReminders].
    destruct (decide (c = g_category g)) as [->|Hne].
    + rewrite lookup_insert_eq. eauto.
    + rewrite lookup_insert_ne by done. eauto.
Qed.

Lemma reloadItems_frame l : ∀ s,
  goroutines (reloadItems l s) = goroutines s
  ∧ lastRunStatuses (reloadItems l s) = lastRunStatuses s
  ∧ db (reloadItems l s) = db s
  ∧ categoryOptions (reloadItems l s) = categoryOptions s
  ∧ effects (reloadItems l s) = effects s
  ∧ activeRemindersBox (reloadItems l s) = activeRemindersBox s
  ∧ ∀ c, is_Some (activeReminders s !! c) →
         is_Some (activeReminders (reloadItems l s) !! c).
Proof.
  induction l as [|c l IH]; intros s; simpl; [done|].
  destruct (categoryItems c (db s)) as [items|e]; [|done].
  destruct (IH (set_activeReminders (<[c := items]> (activeReminders s)) s))
    as (Hg & Hl & Hd & Ho & He & Hb & Ha).
  repeat (split; [done|]). intros c' Hc'. apply Ha.
  cbn [activeReminders set_activeReminders].
  destruct (decide (c = c')) as [->|Hne].
  - rewrite lookup_insert_eq. eauto.
  - by rewrite lookup_insert_ne.
Qed.

Lemma refreshCategories_frame fetched commit s :
  goroutines (refreshCategories fetched commit s) = goroutines s
  ∧ lastRunStatuses (refreshCategories fetched commit s) = lastRunStatuses s
  ∧ effects (refreshCategories fetched commit s) = effects s
  ∧ activeRemindersBox (refreshCategories fetched commit s) = activeRemindersBox s
  ∧ ∀ c, is_Some (activeReminders s !! c) →
         is_Some (activeReminders (refreshCategories fetched commit s) !! c).
Proof.
  unfold refreshCategories.
  destruct (downloadFromAPI fetched commit _) as [db' [names|e]]; [|done].
  match goal with
  | |- context [reloadItems ?l ?s0] =>
      destruct (reloadItems_frame l s0) as (Hg & Hl & _ & _ & He & Hb & Ha)
  end.
  rewrite Hg, Hl, He, Hb. repeat (split; [done|]). intros c Hc. by apply Ha.
Qed.

Lemma timers_ok_step e s s' :
  timers_ok s → step e s = Ret () s' → timers_ok s'.
Proof.
  intros Hok. destruct e as [selected noDelay|fetched commit|id|id commit
                             |id commitSave commitDelete|id commit]; simpl.
  - intros [= <-]. by apply timers_ok_startButton.
  - intros [= <-]. revert Hok.
    destruct (refreshCategories_frame fetched commit s) as (Hg & _ & _ & _ & Ha).
    apply timers_ok_weaken.
    + intros j g'. rewrite Hg. eauto.
    + intros j g' _ _. apply Ha.
  - intros [= <-]. revert Hok. apply timers_ok_weaken.
    + intros j g' Hj. apply lookup_clickX in Hj as (g & Hj & Hc & Hp).
      exists g. split; [done|]. split; [done|]. unfold live. by rewrite Hp.
    + done.
  - unfold goBegin.
    destruct (goroutines s !! id) as [[c imm [] canc]|] eqn:Hid;
      try (intros [= <-]; exact Hok).
    assert (live (mkGoroutine c imm Spawned canc)) as Hlive by done.
    destruct imm.
    + destruct (showReminder_frame commit c s) as [Hg Ha].
      destruct (showReminder commit c s) as [[] s1|s1]; simpl in Hg, Ha;
        [| |done]; intros [= <-];
        (eapply timers_ok_set_phase; [by rewrite Hg| done |]);
        by apply (timers_ok_same s).
    + intros [= <-]. by eapply timers_ok_set_phase.
  - unfold goTick.
    destruct (goroutines s !! id) as [[c imm [] canc]|] eqn:Hid;
      try (intros [= <-]; exact Hok).
    destruct (showReminder_frame commitSave c s) as [Hg Ha].
    destruct (showReminder commitSave c s) as [[] s1|s1]; simpl in Hg, Ha;
      [| |done]; intros [= <-].
    + by apply (timers_ok_same s).
    + eapply (timers_ok_return id commitDelete c imm Ticking canc);
        [by rewrite Hg|done|]. by apply (timers_ok_same s).
  - unfold goDone.
    destruct (goroutines s !! id) as [[c imm [] []]|] eqn:Hid;
      try (intros [= <-]; exact Hok).
    intros [= <-]. by eapply (timers_ok_return id commit c imm Ticking true).
Qed.

Lemma timers_ok_run es : ∀ s s',
  timers_ok s → run es s = Ret () s' → timers_ok s'.
Proof.
  induction es as [|e es IH]; intros s s' Hok; simpl.
  - by intros [= <-].
  - destruct (step e s) as [[] s1|s1] eqn:Hstep; [|done].
    intros Hrun. eapply IH; [|done]. by eapply timers_ok_step.
Qed.

Lemma timers_ok_resume l : ∀ s,
  NoDup l → timers_ok s →
  (∀ j g, goroutines s !! j = Some g → g_category g ∉ l) →
  timers_ok (foldl resume s l).
Proof.
  induction l as [|c l IH]; intros s Hnd Hok Hfree; simpl; [done|].
  apply NoDup_cons in Hnd as [Hc Hnd].
  assert (∀ j g, goroutines s !! j = Some g → g_category g ≠ c) as Hfree_c.
  { intros j g Hj Heq. apply (Hfree _ _ Hj). rewrite Heq. by left. }
  apply IH; [done| |].
  - unfold resume. destruct (categoryItems c (db s)) as [items|e].
    + apply timers_ok_startTimer.
      * cbn [activeReminders set_activeReminders]. rewrite lookup_insert_eq. eauto.
      * intros j g Hj _. by eapply Hfree_c.
      * revert Hok. apply timers_ok_weaken; [eauto|].
        intros j g _ _ [x Hx]. cbn [activeReminders set_activeReminders].
        destruct (decide (c = g_category g)) as [->|Hne].
        -- rewrite lookup_insert_eq. eauto.
        -- rewrite lookup_insert_ne by done. eauto.
    + by apply (timers_ok_same s).
  - intros j g Hj Hin. unfold resume in Hj.
    destruct (categoryItems c (db s)) as [items|e].
    + apply startTimer_goroutines in Hj as [Hj|Hj].
      * apply (Hfree _ _ Hj). by right.
      * congruence.
    + apply (Hfree _ _ Hj). by right.
Qed.

Lemma timers_ok_main fetched commit db0 : timers_ok (main fetched commit db0).
Proof.
  unfold main.
  set (s0 := mkApp db0 ∅ ∅ (categoriesFromDB db0) None [] [] []).
  destruct (refreshCategories_at_start fetched commit s0 eq_refl)
    as (_ & _ & Hg & _ & _ & _).
  set (s1 := refreshCategories fetched commit s0) in *.
  assert (∀ runs, goroutines (set_lastRunStatuses runs s1) = []) as Hnone
    by (intros runs; exact Hg).
  destruct (lastRuns (db s1)) as [runs [e|]].
  - apply timers_ok_resume; [apply NoDup_fst_map_to_list| |].
    + split; intros i; intros; rewrite Hnone in *; by rewrite lookup_nil in *.
    + intros j g. rewrite Hnone. by rewrite lookup_nil.
  - apply timers_ok_resume; [apply NoDup_fst_map_to_list| |].
    + split; intros i; intros; rewrite Hnone in *; by rewrite lookup_nil in *.
    + intros j g. rewrite Hnone. by rewrite lookup_nil.
Qed.

(** X8: no category ever has two timers.  In every state the program
    reaches from its start, whatever was stored, fetched, clicked or
    ticked, two goroutines of [startTimer] that have not returned belong
    to different categories, and the category of each of them is in
    [activeReminders], so that Start refuses it as already running. *)
Theorem one_timer_per_category
    (fetched : result error (list Category)) (commit : bool) (db0 : Tx)
    (es : list Event) (s : App) :
  run es (main fetched commit db0) = Ret () s →
  one_timer s
  ∧ timers_registered s
  ∧ ∀ id g noDelay,
      goroutines s !! id = Some g → g_phase g ≠ Returned →
      startButton (Some (g_category g)) noDelay s
      = set_errorLabel
          (Some ("Already running reminders for " +:+ g_category g)) s.
Proof.
  intros Hrun.
  destruct (timers_ok_run es _ _ (timers_ok_main fetched commit db0) Hrun)
    as [Hone Hreg].
  split; [done|]. split; [done|].
  intros id g noDelay Hid Hlive.
  destruct (Hreg _ _ Hid Hlive) as [items Hitems].
  unfold startButton. by rewrite Hitems.
Qed.

End Timers.

Lemma one_timer_per_category_witness :
  one_timer first_session
  ∧ timers_registered first_session
  ∧ ∀ id g noDelay,
      goroutines first_session !! id = Some g → g_phase g ≠ Returned →
      startButton (Some (g_category g)) noDelay first_session
      = set_errorLabel
          (Some ("Already running reminders for " +:+ g_category g)) first_session.
Proof.
  apply (one_timer_per_category (Ok [quotes; solo]) true ∅
           [ClickStart (Some "quotes") true; Begin 0 true; Tick 0 true true;
            ClickStart (Some "solo") true; Begin 1 true]).
  by vm_compute.
Defined.

(** ** What is offered can be started *)

Section Readable.

Context `{Toolkit}.

Implicit Types (s : App) (category : string) (id : nat) (db : Tx).

Lemma categoryItems_Ok_iff category db :
  (∃ items, categoryItems category db = Ok items)
  ↔ ∃ catBucket, has_category db category catBucket.
Proof.
  split.
  - intros [items Hitems]. unfold categoryItems, has_category in *.
    destruct (db !! categoriesBkt) as [cats|]; [|done].
    unfold GetBucket in Hitems.
    destruct (cats !! category) as [[v|b]|] eqn:Hc; try done. eauto.
  - intros [b Hb]. rewrite (categoryItems_has_category _ _ _ Hb). eauto.
Qed.

Lemma deleteLastRun_catalogue commit category db :
  (deleteLastRun commit category db).1 !! categoriesBkt = db !! categoriesBkt.
Proof.
  unfold deleteLastRun, Update, TxCreateBucketIfNotExists.
  destruct commit; [|done]. simpl.
  destruct (Delete _ category); simpl; [|done]. by rewrite lookup_insert_ne.
Qed.

Lemma saveLastRun_catalogue commit category index db :
  (saveLastRun commit category index db).1 !! categoriesBkt = db !! categoriesBkt.
Proof. apply ledger_write_saveLastRun. Qed.

Lemma readable_ext s s' :
  db s' !! categoriesBkt = db s !! categoriesBkt →
  categoryOptions s' = categoryOptions s →
  (∀ c, is_Some (activeReminders s' !! c) → is_Some (activeReminders s !! c)) →
  readable s → readable s'.
Proof.
  intros Hdb Ho Ha [H1 H2]. split.
  - intros c. rewrite Ho, (categoryItems_ext c _ _ Hdb). apply H1.
  - intros c Hc. rewrite (categoryItems_ext c _ _ Hdb). by apply H2, Ha.
Qed.

Lemma showReminder_db commit category s :
  db (final (showReminder commit category s)) !! categoriesBkt = db s !! categoriesBkt
  ∧ categoryOptions (final (showReminder commit category s)) = categoryOptions s.
Proof.
  destruct (showReminder_inv commit category s _ eq_refl)
    as [->|(items & _ & _ & Hm)]; [done|].
  destruct (GoInt.index items (nextIndexOf s category)); rewrite Hm;
    (split; [apply saveLastRun_catalogue|done]).
Qed.

Lemma readable_showReminder commit category s :
  readable s → readable (final (showReminder commit category s)).
Proof.
  destruct (showReminder_db commit category s) as [Hdb Ho].
  destruct (showReminder_frame commit category s) as [_ Ha].
  apply readable_ext; [done|done|]. intros c. by rewrite Ha.
Qed.

Lemma readable_killReminder id commit category s :
  readable s → readable (killReminder id commit category s).
Proof.
  rewrite killReminder_eq. apply readable_ext.
  - apply deleteLastRun_catalogue.
  - done.
  - intros c. cbn [activeReminders].
    destruct (decide (category = c)) as [->|Hne].
    + rewrite lookup_delete_eq. by intros [? ?].
    + by rewrite lookup_delete_ne.
Qed.

Lemma readable_insert category items s :
  categoryItems category (db s) = Ok items →
  readable s →
  readable (set_activeReminders (<[category := items]> (activeReminders s)) s).
Proof.
  intros Hitems [H1 H2]. split; [exact H1|].
  intros c. cbn [activeReminders db set_activeReminders].
  destruct (decide (category = c)) as [->|Hne].
  - eauto.
  - rewrite lookup_insert_ne by done. apply H2.
Qed.

Lemma readable_startTimer imm category s :
  readable s → readable (startTimer imm category s).
Proof.
  destruct (startTimer_frame imm category s) as (Ha & _ & Hdb & Ho & _).
  apply readable_ext; [by rewrite Hdb|done|]. intros c. by rewrite Ha.
Qed.

Lemma readable_startButton selected noDelay s :
  readable s → readable (startButton selected noDelay s).
Proof.
  intros Hok. unfold startButton.
  destruct selected as [c|]; [|by apply (readable_ext s)].
  destruct (activeReminders s !! c) as [items|] eqn:Hact;
    [by apply (readable_ext s)|].
  destruct (categoryItems c (db s)) as [items|e] eqn:Hitems;
    [|by apply (readable_ext s)].
  apply readable_startTimer.
  apply (readable_ext (set_activeReminders (<[c := items]> (activeReminders s)) s));
    [done|done|done|].
  by apply readable_insert.
Qed.

Lemma readable_reloadItems l : ∀ s, readable s → readable (reloadItems l s).
Proof.
  induction l as [|c l IH]; intros s Hok; simpl.
  - by apply (readable_ext s).
  - destruct (categoryItems c (db s)) as [items|e] eqn:Hitems.
    + apply IH. by apply readable_insert.
    + by apply (readable_ext s).
Qed.

Lemma readable_refreshCategories fetched commit s :
  readable s → readable (refreshCategories fetched commit s).
Proof.
  intros [H1 H2]. unfold refreshCategories.
  destruct (downloadFromAPI fetched commit _) as [db' [names|e]] eqn:Hdl;
    [|by split].
  apply readable_reloadItems.
  cbn [db set_errorLabel] in Hdl.
  destruct fetched as [catItems|e]; [|done].
  apply downloadFromAPI_Ok in Hdl as [Hloop ->].
  destruct (forEach_putCategory_spec _ _ _ Hloop) as [Hle Hnew].
  split.
  - intros c. cbn [categoryOptions db set_categoryOptions set_db set_errorLabel].
    intros Hc. apply list_elem_of_fmap in Hc as (cat & -> & Hcat).
    apply categoryItems_Ok_iff. destruct (Hnew _ Hcat) as (b & Hb & _). eauto.
  - intros c. cbn [activeReminders db set_categoryOptions set_db set_errorLabel].
    intros Hc. apply categoryItems_Ok_iff.
    destruct (proj1 (categoryItems_Ok_iff c (db s)) (H2 _ Hc)) as [b Hb].
    destruct (Hle _ _ Hb) as (b' & Hb' & _). eauto.
Qed.

Lemma readable_step e s s' :
  readable s → step e s = Ret () s' → readable s'.
Proof.
  intros Hok. destruct e as [selected noDelay|fetched commit|id|id commit
                             |id commitSave commitDelete|id commit]; simpl.
  - intros [= <-]. by apply readable_startButton.
  - intros [= <-]. by apply readable_refreshCategories.
  - intros [= <-]. by apply (readable_ext s).
  - unfold goBegin.
    destruct (goroutines s !! id) as [[c imm [] canc]|] eqn:Hid;
      try (intros [= <-]; exact Hok).
    destruct imm.
    + pose proof (readable_showReminder commit c s Hok) as Hok'.
      destruct (showReminder commit c s) as [[] s1|s1]; simpl in Hok';
        [| |done]; intros [= <-]; by apply (readable_ext s1).
    + intros [= <-]. by apply (readable_ext s).
  - unfold goTick.
    destruct (goroutines s !! id) as [[c imm [] canc]|] eqn:Hid;
      try (intros [= <-]; exact Hok).
    pose proof (readable_showReminder commitSave c s Hok) as Hok'.
    destruct (showReminder commitSave c s) as [[] s1|s1]; simpl in Hok';
      [| |done]; intros [= <-]; [done|].
    apply (readable_ext (killReminder id commitDelete c s1)); [done|done|done|].
    by apply readable_killReminder.
  - unfold goDone.
    destruct (goroutines s !! id) as [[c imm [] []]|] eqn:Hid;
      try (intros [= <-]; exact Hok).
    intros [= <-].
    apply (readable_ext (killReminder id commit c s)); [done|done|done|].
    by apply readable_killReminder.
Qed.

Lemma readable_run es : ∀ s s',
  readable s → run es s = Ret () s' → readable s'.
Proof.
  induction es as [|e es IH]; intros s s' Hok; simpl.
  - by intros [= <-].
  - destruct (step e s) as [[] s1|s1] eqn:Hstep; [|done].
    intros Hrun. eapply IH; [|done]. by eapply readable_step.
Qed.

Lemma readable_resume l : ∀ s, readable s → readable (foldl resume s l).
Proof.
  induction l as [|c l IH]; intros s Hok; simpl; [done|].
  apply IH. unfold resume.
  destruct (categoryItems c (db s)) as [items|e] eqn:Hitems.
  - apply readable_startTimer. by apply readable_insert.
  - by apply (readable_ext s).
Qed.

Lemma catalogue_wfb_true db : catalogue_wfb db = true → catalogue_wf db.
Proof.
  unfold catalogue_wfb. intros Hb cats c n Hdb Hc. rewrite Hdb in Hb.
  rewrite forallb_forall in Hb.
  specialize (Hb n). destruct n as [v|b]; [|eauto].
  assert (negb (is_leaf (Leaf v)) = true) as Hleaf; [|done].
  apply Hb. apply list_elem_of_In, list_elem_of_fmap.
  exists (c, Leaf v). split; [done|]. by apply elem_of_map_to_list.
Qed.

Lemma readable_main fetched commit db0 :
  catalogue_wf db0 → readable (main fetched commit db0).
Proof.
  intros Hwf. unfold main.
  set (s0 := mkApp db0 ∅ ∅ (categoriesFromDB db0) None [] [] []).
  assert (readable s0) as Hok0.
  { split.
    - intros c Hc. apply categoriesFromDB_elem in Hc as [n Hn].
      apply categoryItems_Ok_iff. unfold catalogue_entry in Hn. simpl in *.
      destruct (db0 !! categoriesBkt) as [cats|] eqn:Hcats; [|done].
      simpl in Hn. destruct (Hwf _ _ _ Hcats Hn) as [b ->].
      exists b, cats. done.
    - intros c. simpl. rewrite lookup_empty. by intros [? ?]. }
  pose proof (readable_refreshCategories fetched commit s0 Hok0) as Hok1.
  set (s1 := refreshCategories fetched commit s0) in *.
  destruct (lastRuns (db s1)) as [runs [e|]];
    apply readable_resume; by apply (readable_ext s1).
Qed.

(** X9: what the program offers, it can start.  From a database whose
    "categories" bucket holds buckets only, in every state the program
    reaches, [categoryItems] succeeds for every category the select
    offers and for every active category, so that Start on an offered
    category is either refused as already running or goes through: it
    never ends in an error of the storage. *)
Theorem offered_categories_are_readable
    (fetched : result error (list Category)) (commit : bool) (db0 : Tx)
    (es : list Event) (s : App) :
  catalogue_wf db0 →
  run es (main fetched commit db0) = Ret () s →
  options_readable s
  ∧ active_readable s
  ∧ ∀ category noDelay,
      category ∈ categoryOptions s →
      errorLabel (startButton (Some category) noDelay s) = None
      ∨ errorLabel (startButton (Some category) noDelay s)
        = Some ("Already running reminders for " +:+ category).
Proof.
  intros Hwf Hrun.
  destruct (readable_run es _ _ (readable_main fetched commit db0 Hwf) Hrun)
    as [Hopt Hact].
  split; [done|]. split; [done|].
  intros c noDelay Hc. unfold startButton.
  destruct (activeReminders s !! c); [by right|].
  destruct (Hopt _ Hc) as [items ->]. left.
  unfold startTimer. cbn [activeReminders set_errorLabel set_activeReminders].
  rewrite lookup_insert_eq.
  destruct (_ =? 0)%Z; [done|]. by destruct (_ =? 0)%Z.
Qed.

End Readable.

Lemma offered_categories_are_readable_witness :
  options_readable second_session
  ∧ active_readable second_session
  ∧ ∀ category noDelay,
      category ∈ categoryOptions second_session →
      errorLabel (startButton (Some category) noDelay second_session) = None
      ∨ errorLabel (startButton (Some category) noDelay second_session)
        = Some ("Already running reminders for " +:+ category).
Proof.
  apply (offered_categories_are_readable (Err (Errorf "offline")) true
           (db first_session) [Begin 0 true; Begin 1 true]).
  - apply catalogue_wfb_true. by vm_compute.
  - by vm_compute.
Defined.

(** ** Refreshing while categories are active *)

Section Refresh.

Implicit Types (s : App) (category : string) (db : Tx).

Lemma reloadItems_ok l : ∀ s,
  (∀ c, c ∈ l → ∃ items, categoryItems c (db s) = Ok items) →
  ∃ m,
    reloadItems l s = set_errorLabel None (set_activeReminders m s)
    ∧ ∀ c, m !! c = if decide (c ∈ l)
                    then match categoryItems c (db s) with
                         | Ok items => Some items
                         | Err _ => None
                         end
                    else activeReminders s !! c.
Proof.
  induction l as [|c l IH]; intros s Hl; simpl.
  - exists (activeReminders s). split; [done|]. intros c.
    destruct (decide (c ∈ [])) as [Hin|]; [by apply elem_of_nil in Hin|done].
  - destruct (Hl c) as [items Hitems]; [by left|]. rewrite Hitems.
    destruct (IH (set_activeReminders (<[c := items]> (activeReminders s)) s))
      as (m & Hm & Hlook).
    { intros c' Hc'. apply Hl. by right. }
    exists m. split; [by rewrite Hm|].
    intros c'. rewrite Hlook. cbn [db activeReminders set_activeReminders].
    destruct (decide (c' ∈ l)) as [Hin|Hout].
    + rewrite decide_True; [done|by right].
    + destruct (decide (c' = c)) as [->|Hne].
      * rewrite decide_True by by left. by rewrite lookup_insert_eq, Hitems.
      * rewrite lookup_insert_ne by done.
        rewrite decide_False; [done|].
        intros Hin. apply elem_of_cons in Hin as [?|?]; done.
Qed.

Lemma reloadItems_reloaded order s :
  (∀ c, c ∈ order ↔ is_Some (activeReminders s !! c)) →
  active_readable s →
  reloadItems order s
  = set_errorLabel None (set_activeReminders (reloaded (db s) (activeReminders s)) s).
Proof.
  intros Horder Hread.
  destruct (reloadItems_ok order s) as (m & -> & Hlook).
  { intros c Hc. apply Hread. by apply Horder. }
  f_equal. f_equal. apply map_eq. intros c. rewrite Hlook.
  unfold reloaded. rewrite map_lookup_imap.
  destruct (decide (c ∈ order)) as [Hin|Hout].
  - apply Horder in Hin as [items ->]. done.
  - destruct (activeReminders s !! c) as [items|] eqn:Hc; [|done].
    exfalso. apply Hout, Horder. eauto.
Qed.

Lemma active_readable_download fetched commit s db' names :
  downloadFromAPI fetched commit (db s) = (db', Ok names) →
  active_readable s →
  active_readable
    (set_categoryOptions names (set_db db' (set_errorLabel (Some "Refreshing...") s))).
Proof.
  intros Hdl Hread c Hc. apply categoryItems_Ok_iff.
  destruct (proj1 (categoryItems_Ok_iff c (db s)) (Hread _ Hc)) as [b Hb].
  pose proof (proj1 (download_catalogue_le fetched commit (db s))) as Hle.
  rewrite Hdl in Hle. destruct (Hle _ _ Hb) as (b' & Hb' & _). eauto.
Qed.

(** The state a refresh that succeeds leaves. *)
Lemma refreshCategories_Ok fetched commit s db' names :
  downloadFromAPI fetched commit (db s) = (db', Ok names) →
  active_readable s →
  refreshCategories fetched commit s
  = mkApp db' (reloaded db' (activeReminders s)) (lastRunStatuses s) names None
          (activeRemindersBox s) (goroutines s) (effects s).
Proof.
  intros Hdl Hread.
  pose proof (active_readable_download fetched commit s db' names Hdl Hread) as Hread1.
  unfold refreshCategories. cbn [db set_errorLabel]. rewrite Hdl.
  rewrite reloadItems_reloaded; [done| |done].
  intros c. cbn [activeReminders set_categoryOptions set_db set_errorLabel].
  rewrite list_elem_of_fmap. split.
  - intros [[c' items] [-> Hin]]. apply elem_of_map_to_list in Hin. eauto.
  - intros [items Hc]. exists (c, items). split; [done|].
    by apply elem_of_map_to_list.
Qed.

Lemma reloaded_lookup db' (active : gmap string (list Item)) c items :
  is_Some (active !! c) → categoryItems c db' = Ok items →
  reloaded db' active !! c = Some items.
Proof.
  intros [old Hc] Hitems. unfold reloaded.
  rewrite map_lookup_imap, Hc. simpl. by rewrite Hitems.
Qed.

(** X10: a refresh that succeeds while categories are active.  The
    select offers the names of the payload, the label is hidden, and
    every active category gets the items the database now holds for it,
    whatever order the loop over [activeReminders] visits the categories
    in; the recorded indices, the goroutines and the rows are left as
    they are. *)
Theorem refresh_reloads_active_items
    (fetched : result error (list Category)) (commit : bool) (s : App)
    (db' : Tx) (names : list string) :
  downloadFromAPI fetched commit (db s) = (db', Ok names) →
  active_readable s →
  refreshCategories fetched commit s
  = mkApp db' (reloaded db' (activeReminders s)) (lastRunStatuses s) names None
          (activeRemindersBox s) (goroutines s) (effects s)
  ∧ (∀ order, (∀ c, c ∈ order ↔ is_Some (activeReminders s !! c)) →
       reloadItems order
         (set_categoryOptions names
            (set_db db' (set_errorLabel (Some "Refreshing...") s)))
       = refreshCategories fetched commit s)
  ∧ (∀ c, is_Some (activeReminders s !! c) →
       ∃ items, categoryItems c db' = Ok items
                ∧ reloaded db' (activeReminders s) !! c = Some items)
  ∧ (∀ c, activeReminders s !! c = None →
       reloaded db' (activeReminders s) !! c = None).
Proof.
  intros Hdl Hread.
  pose proof (active_readable_download fetched commit s db' names Hdl Hread) as Hread1.
  pose proof (refreshCategories_Ok fetched commit s db' names Hdl Hread) as Heq.
  split; [done|]. split; [|split].
  - intros order Ho. rewrite Heq.
    by rewrite (reloadItems_reloaded order
                  (set_categoryOptions names
                     (set_db db' (set_errorLabel (Some "Refreshing...") s)))
                  Ho Hread1).
  - intros c Hc. destruct (Hread1 c Hc) as [items Hitems].
    change (categoryItems c db' = Ok items) in Hitems. exists items.
    split; [done|]. by apply reloaded_lookup.
  - intros c Hc. unfold reloaded. by rewrite map_lookup_imap, Hc.
Qed.

End Refresh.

(** ** Starts, restarts and cancellations *)

Section Launch.

Context `{Toolkit}.

Implicit Types (s : App) (category : string) (id : nat) (db : Tx).

(** X11: a record that holds the last index of its category blocks the
    category.  When the ledger holds that single record at the start,
    [main] stores the items in [activeReminders] and the index in
    [lastRunStatuses], and [startTimer] returns without a goroutine:
    nothing is shown, the record stays in the database, and Start on the
    category is refused as already running. *)
Theorem finished_record_blocks_category
    (fetched : result error (list Category)) (commit : bool) (db0 : Tx)
    (category : string) (i : Z) (items : list Item) :
  db0 !! lastRunBktKey = Some {[ category := Leaf (strconv.Itoa i) ]} →
  categoryItems category (db (main fetched commit db0)) = Ok items →
  (GoInt.len items ≤ GoInt.maxInt)%Z →
  GoInt.len items = (i + 1)%Z →
  goroutines (main fetched commit db0) = []
  ∧ effects (main fetched commit db0) = []
  ∧ activeReminders (main fetched commit db0) !! category = Some items
  ∧ lastRunStatuses (main fetched commit db0) !! category = Some i
  ∧ record (db (main fetched commit db0)) category = Some (Leaf (strconv.Itoa i))
  ∧ ∀ noDelay,
      startButton (Some category) noDelay (main fetched commit db0)
      = set_errorLabel (Some ("Already running reminders for " +:+ category))
          (main fetched commit db0).
Proof.
  intros Hdb Hcat Hmax Hlen.
  assert (GoInt.inRange i = true) as Hrange.
  { pose proof (len_nonneg items).
    unfold GoInt.inRange, GoInt.minInt, GoInt.maxInt in *.
    apply andb_true_intro. split; apply Z.leb_le; lia. }
  rewrite (main_single_record fetched commit db0 category i Hdb Hrange) in *.
  set (s0 := mkApp db0 ∅ ∅ (categoriesFromDB db0) None [] [] []) in *.
  destruct (refreshCategories_at_start fetched commit s0 eq_refl)
    as (Ha & _ & Hg & _ & He & Hledger).
  set (s1 := refreshCategories fetched commit s0) in *.
  unfold resume in *. cbn [db set_lastRunStatuses] in *.
  destruct (categoryItems category (db s1)) as [items'|e] eqn:Hcat1;
    [|simpl in Hcat; congruence].
  set (s2 := set_activeReminders _ _) in *.
  destruct (startTimer_frame false category s2) as (_ & _ & Hdbeq & _).
  rewrite Hdbeq in Hcat. change (db s2) with (db s1) in Hcat.
  rewrite Hcat1 in Hcat. injection Hcat as ->.
  assert (startTimer false category s2 = s2) as ->.
  { unfold startTimer.
    assert (activeReminders s2 !! category = Some items) as ->
      by (unfold s2; simpl; apply lookup_insert_eq).
    destruct (GoInt.len items =? 0)%Z; [done|].
    assert (lastRunStatuses s2 !! category = Some i) as ->
      by (unfold s2; simpl; apply lookup_singleton_eq).
    simpl. rewrite Hlen. unfold GoInt.sub.
    replace (i + 1 - i)%Z with 1%Z by lia.
    rewrite (wrap_small 1) by (unfold GoInt.minInt, GoInt.maxInt; lia).
    by rewrite (wrap_small (1 - 1)) by (unfold GoInt.minInt, GoInt.maxInt; lia). }
  assert (activeReminders s2 !! category = Some items) as Hact
    by (unfold s2; simpl; apply lookup_insert_eq).
  split; [exact Hg|]. split; [exact He|]. split; [exact Hact|].
  split; [unfold s2; simpl; apply lookup_singleton_eq|]. split.
  - unfold record. change (db s2) with (db s1). rewrite Hledger. simpl.
    rewrite Hdb. simpl. apply lookup_singleton_eq.
  - intros noDelay. by apply (startButton_active noDelay category s2 items).
Qed.

(** X12: [showReminder] panics exactly when the category is active with
    at least one item and the index to move to is negative, that is when
    the recorded index is below -1 (or [lastIndex + 1] wraps around);
    the panic comes after the negative index was recorded in memory and
    given to [saveLastRun]. *)
Theorem showReminder_panics_only_below_zero
    (commit : bool) (category : string) (s s' : App) :
  showReminder commit category s = Panic s'
  ↔ (∃ items, activeReminders s !! category = Some items ∧ items ≠ []
              ∧ (nextIndexOf s category < 0)%Z)
    ∧ s' = recorded commit category (nextIndexOf s category) s.
Proof.
  unfold showReminder, nextIndexOf, recorded.
  destruct (activeReminders s !! category) as [items|] eqn:Hact.
  2: { split; [done|]. by intros [(items & [=] & _) _]. }
  assert ((GoInt.len items =? 0)%Z = true ↔ items = []) as Hnil.
  { rewrite Z.eqb_eq. unfold GoInt.len. destruct items; simpl; split; try done; lia. }
  destruct (GoInt.len items =? 0)%Z eqn:Hlen0.
  { split; [done|]. intros [(items' & [= <-] & Hne & _) _].
    exfalso. by apply Hne, Hnil. }
  set (nextIndex := GoInt.add (default (-1)%Z (lastRunStatuses s !! category)) 1).
  destruct (GoInt.len items <=? nextIndex)%Z eqn:Hend.
  { split; [done|]. intros [(items' & [= <-] & _ & Hneg) _].
    exfalso. apply Z.leb_le in Hend. pose proof (len_nonneg items). lia. }
  apply Z.leb_gt in Hend.
  cbn [db set_lastRunStatuses].
  destruct (saveLastRun commit category nextIndex (db s)) as [db1 err] eqn:Hsave.
  simpl. unfold GoInt.index.
  destruct (nextIndex <? 0)%Z eqn:Hneg.
  - apply Z.ltb_lt in Hneg. split.
    + intros [= <-]. split; [|done]. exists items. split; [done|]. split; [|done].
      intros Hitems. apply Hnil in Hitems. congruence.
    + by intros [_ ->].
  - apply Z.ltb_ge in Hneg.
    destruct (lookup_lt_is_Some_2 items (Z.to_nat nextIndex)) as [item ->].
    { unfold GoInt.len in Hend. lia. }
    split; [done|]. intros [(items' & _ & _ & Hlt) _]. exfalso. lia.
Qed.

(** X13: a start without progress to resume.  When [lastRuns] returns
    no category (no record, or a first record that is not a number),
    [main] starts no goroutine and shows no window; the database is what
    the download left, the select offers the names of the payload, or
    the stored categories in byte order when the download failed, in
    which case the label shows the error. *)
Theorem main_without_records
    (fetched : result error (list Category)) (commit : bool) (db0 : Tx) :
  (lastRuns db0).1 = ∅ →
  main fetched commit db0
  = mkApp (downloadFromAPI fetched commit db0).1 ∅ ∅
          (match (downloadFromAPI fetched commit db0).2 with
           | Ok names => names
           | Err _ => categoriesFromDB db0
           end)
          (match (downloadFromAPI fetched commit db0).2 with
           | Ok _ => None
           | Err e => Some (Error e)
           end) [] [] [].
Proof.
  intros Hnone. unfold main.
  set (s0 := mkApp db0 ∅ ∅ (categoriesFromDB db0) None [] [] []).
  destruct (refreshCategories_at_start fetched commit s0 eq_refl)
    as (_ & _ & _ & _ & _ & Hledger).
  rewrite (lastRuns_ext _ _ Hledger). change (db s0) with db0.
  pose proof (lastRuns_no_error db0) as Herr.
  destruct (lastRuns db0) as [runs err]. simpl in Hnone, Herr. subst runs err.
  cbn [lastRunStatuses set_lastRunStatuses]. rewrite map_to_list_empty. simpl.
  unfold refreshCategories. cbn [db set_errorLabel]. change (db s0) with db0.
  destruct (downloadFromAPI fetched commit db0) as [db' [names|e]] eqn:Hdl; simpl.
  - by rewrite map_to_list_empty.
  - by apply downloadFromAPI_Err in Hdl as ->.
Qed.

(** X14: a category cancelled before it showed anything.  Start with
    "No initial delay" unchecked on an inactive category with items,
    so that the first item waits for the first tick, then the X
    button of its row before the first tick: no window is shown and no
    index is saved; the goroutine returns through its cleanup, which
    calls [deleteLastRun] although nothing was recorded, and the two
    maps are as before the Start.  The click may come before or after
    the goroutine reaches its loop. *)
Theorem cancel_before_first_tick
    (category : string) (s : App) (items : list Item) (commit commit' : bool) :
  activeReminders s !! category = None →
  lastRunStatuses s !! category = None →
  categoryItems category (db s) = Ok items →
  items ≠ [] → (GoInt.len items ≤ GoInt.maxInt)%Z →
  ∃ s',
    run [ClickStart (Some category) false; Begin (length (goroutines s)) commit';
         ClickX (length (goroutines s)); CtxDone (length (goroutines s)) commit] s
    = Ret () s'
    ∧ run [ClickStart (Some category) false; ClickX (length (goroutines s));
           Begin (length (goroutines s)) commit';
           CtxDone (length (goroutines s)) commit] s
      = Ret () s'
    ∧ new_effects s s' = [DeleteLastRun category (deleteLastRun commit category (db s)).2]
    ∧ activeReminders s' = activeReminders s
    ∧ lastRunStatuses s' = lastRunStatuses s
    ∧ db s' = (deleteLastRun commit category (db s)).1
    ∧ goroutines s' = goroutines s ++ [mkGoroutine category false Returned true].
Proof.
  intros Hact Hrun Hitems Hne Hlen.
  set (id := length (goroutines s)).
  pose proof (startButton_fresh false category s items Hact Hrun Hitems Hne Hlen)
    as Hstart.
  set (s1 := startButton (Some category) false s) in *.
  assert (goroutines s1 = goroutines s ++ [mkGoroutine category false Spawned false])
    as Hg1 by by rewrite Hstart.
  assert (∀ g, (goroutines s ++ [g]) !! id = Some g) as Hlast.
  { intros g. unfold id. rewrite lookup_app_r by lia.
    by rewrite Nat.sub_diag. }
  assert (∀ f g, alter f id (goroutines s ++ [g]) = goroutines s ++ [f g]) as Halter.
  { intros f g. unfold id.
    rewrite alter_app_r_alt by lia. by rewrite Nat.sub_diag. }
  set (s' := set_phase id Returned
               (killReminder id commit category
                  (clickX id (set_phase id Ticking s1)))).
  exists s'.
  assert (set_phase id Ticking (clickX id s1) = clickX id (set_phase id Ticking s1))
    as Hcomm.
  { unfold set_phase, clickX. cbn [goroutines set_goroutines db activeReminders
      lastRunStatuses categoryOptions errorLabel activeRemindersBox effects].
    rewrite Hg1, !Halter. done. }
  assert (goBegin id commit' s1 = Ret () (set_phase id Ticking s1)) as Hbegin1.
  { unfold goBegin. by rewrite Hg1, Hlast. }
  assert (goBegin id commit' (clickX id s1) = Ret () (set_phase id Ticking (clickX id s1)))
    as Hbegin2.
  { unfold goBegin, clickX at 1. cbn [goroutines set_goroutines].
    by rewrite Hg1, Halter, Hlast. }
  assert (goDone id commit (clickX id (set_phase id Ticking s1)) = Ret () s') as Hdone.
  { unfold goDone, clickX at 1. cbn [goroutines set_phase set_goroutines].
    by rewrite Hg1, !Halter, Hlast. }
  assert (run [ClickStart (Some category) false; Begin id commit'; ClickX id;
               CtxDone id commit] s = Ret () s') as Hrun1.
  { cbn [run step]. fold s1. rewrite Hbegin1. cbn [run step]. by rewrite Hdone. }
  assert (run [ClickStart (Some category) false; ClickX id; Begin id commit';
               CtxDone id commit] s = Ret () s') as Hrun2.
  { cbn [run step]. fold s1. rewrite Hbegin2, Hcomm. cbn [run step].
    by rewrite Hdone. }
  split; [exact Hrun1|]. split; [exact Hrun2|].
  unfold s'. rewrite killReminder_eq.
  cbn [effects activeReminders lastRunStatuses db goroutines set_phase
       set_goroutines clickX].
  rewrite Hstart. cbn [effects activeReminders lastRunStatuses db goroutines].
  split; [apply new_effects_app; done|].
  split; [by apply delete_insert_id|].
  split; [by apply delete_id|]. split; [done|].
  by rewrite !Halter.
Qed.

End Launch.

(** ** The server *)

Section Server.

Context `{Toolkit}.

Implicit Types (db tx : Tx) (r : Request).

Lemma TxCursor_perm tx : TxCursor tx ≡ₚ map_to_list tx.
Proof. apply merge_sort_Permutation. Qed.

Lemma elem_of_TxCursor tx k (b : Bucket) : (k, b) ∈ TxCursor tx ↔ tx !! k = Some b.
Proof. rewrite TxCursor_perm. apply elem_of_map_to_list. Qed.

Lemma elem_of_TxCursor_keys tx k : k ∈ (TxCursor tx).*1 ↔ is_Some (tx !! k).
Proof.
  rewrite list_elem_of_fmap. split.
  - intros [[k' n] [-> Hin]]. apply elem_of_TxCursor in Hin. eauto.
  - intros [n Hn]. exists (k, n). split; [done|]. by apply elem_of_TxCursor.
Qed.

Lemma TxCursor_keys_sorted tx : StronglySorted key_lt (TxCursor tx).*1.
Proof.
  apply StronglySorted_strict.
  - apply (StronglySorted_fmap fst bucket_le key_le); [done|].
    apply StronglySorted_merge_sort.
    + intros x y z. unfold bucket_le. apply key_le_trans.
    + intros x y. unfold bucket_le. apply key_le_total.
  - rewrite TxCursor_perm. apply NoDup_fst_map_to_list.
Qed.

Lemma categoriesWithItems_names db :
  Category_Name <$> apiServer.categoriesWithItems db = (TxCursor db).*1.
Proof.
  unfold apiServer.categoriesWithItems. rewrite <- list_fmap_compose.
  by apply list_fmap_ext.
Qed.

Lemma elem_of_categoriesWithItems db category :
  category ∈ apiServer.categoriesWithItems db
  ↔ ∃ catBucket, db !! Category_Name category = Some catBucket
                 ∧ Category_Items category
                   = omap (readItem catBucket) (Cursor catBucket).*1.
Proof.
  unfold apiServer.categoriesWithItems. rewrite list_elem_of_fmap. split.
  - intros [[k b] [-> Hin]]. apply elem_of_TxCursor in Hin. simpl. eauto.
  - intros (b & Hb & Hitems). exists (Category_Name category, b).
    split; [|by apply elem_of_TxCursor].
    unfold apiServer.readCategory. simpl. rewrite <- Hitems. by destruct category.
Qed.

(** X15: [allItems] answers 200 with every bucket of the root as a
    category, in strictly ascending byte order of the names, and with
    every nested bucket of a category as an item, in strictly ascending
    byte order of the names, with the type and the content stored in
    it. *)
Theorem allItems_lists_in_byte_order (db : Tx) :
  apiServer.allItems db = mkResponse 200 (JSON (apiServer.categoriesWithItems db))
  ∧ StronglySorted key_lt (Category_Name <$> apiServer.categoriesWithItems db)
  ∧ (∀ name, name ∈ Category_Name <$> apiServer.categoriesWithItems db
             ↔ is_Some (db !! name))
  ∧ ∀ category, category ∈ apiServer.categoriesWithItems db →
      StronglySorted key_lt (Item_Name <$> Category_Items category)
      ∧ ∃ catBucket,
          db !! Category_Name category = Some catBucket
          ∧ ∀ item, item ∈ Category_Items category
                    ↔ readItem catBucket (Item_Name item) = Some item.
Proof.
  split; [done|]. rewrite categoriesWithItems_names.
  split; [apply TxCursor_keys_sorted|]. split; [apply elem_of_TxCursor_keys|].
  intros category Hin.
  apply elem_of_categoriesWithItems in Hin as (b & Hb & ->). split.
  - apply omap_readItem_sorted, Cursor_keys_sorted.
  - exists b. split; [done|]. intros item. rewrite list_elem_of_omap. split.
    + intros (k & Hk & Hr). by rewrite (readItem_name _ _ _ Hr).
    + intros Hr. exists (Item_Name item). split; [|done].
      apply elem_of_Cursor_keys.
      assert (has_item b (Item_Name item)) as [ib Hib].
      { apply readItem_is_Some. rewrite Hr. eauto. }
      eauto.
Qed.

Lemma storeItemTx_putItem category itemName itemType content tx tx' :
  apiServer.storeItemTx category itemName itemType content tx = Ok tx' →
  ∃ catBucket',
    putItem (default ∅ (tx !! category)) (mkItem itemName itemType content)
    = Ok catBucket'
    ∧ tx' = <[category := catBucket']> tx.
Proof.
  unfold apiServer.storeItemTx, putItem, TxCreateBucketIfNotExists. simpl.
  destruct (blen category =? 0)%Z; [done|].
  destruct (CreateBucketIfNotExists (default ∅ (tx !! category)) itemName)
    as [ib|]; [|done].
  destruct (Put ib itemTypeKey itemType) as [ib1|]; [|done]. simpl.
  destruct (Put ib1 itemContentKey content) as [ib2|]; [|done]. simpl.
  intros [= <-]. eauto.
Qed.

Lemma saveItem_cases commit category itemName itemType content db :
  apiServer.saveItem commit category itemName itemType content db
  = (db, mkResponse 500 (Text "error saving item"))
  ∨ ∃ db', commit = true
           ∧ apiServer.storeItemTx category itemName itemType content db = Ok db'
           ∧ apiServer.saveItem commit category itemName itemType content db
             = (db', apiServer.allItems db').
Proof.
  unfold apiServer.saveItem, Update. destruct commit; [|by left].
  destruct (apiServer.storeItemTx category itemName itemType content db) as [db'|e];
    [|by left].
  right. eauto.
Qed.

Lemma storeItem_200 commit r db :
  resp_code (apiServer.storeItem commit r db).2 = 200%Z →
  apiServer.storeItemTx (form_category r) (form_item_name r)
    (ToLower (form_item_type r)) (request_content r) db
  = Ok (apiServer.storeItem commit r db).1
  ∧ (apiServer.storeItem commit r db).2
    = apiServer.allItems (apiServer.storeItem commit r db).1.
Proof.
  unfold apiServer.storeItem, request_content.
  destruct (form_attachment r) as [| |contentType [content|err]]; simpl; [| done | | done].
  - destruct (String.eqb (ToLower (form_item_type r)) "video"); simpl; [done|].
    destruct (String.eqb (ToLower (form_item_type r)) "image"); simpl; [done|].
    destruct (saveItem_cases commit (form_category r) (form_item_name r)
                (ToLower (form_item_type r)) (form_item_content r) db)
      as [->|(db' & -> & Htx & ->)]; simpl; done.
  - destruct (String.prefix (ToLower (form_item_type r)) (ToLower contentType));
      simpl; [|done].
    destruct (saveItem_cases commit (form_category r) (form_item_name r)
                (ToLower (form_item_type r)) content db)
      as [->|(db' & -> & Htx & ->)]; simpl; done.
Qed.

Lemma storeItem_not_200 commit r db :
  resp_code (apiServer.storeItem commit r db).2 ≠ 200%Z →
  (apiServer.storeItem commit r db).1 = db.
Proof.
  unfold apiServer.storeItem.
  destruct (form_attachment r) as [| |contentType [content|err]]; simpl; [| done | | done].
  - destruct (String.eqb (ToLower (form_item_type r)) "video"); simpl; [done|].
    destruct (String.eqb (ToLower (form_item_type r)) "image"); simpl; [done|].
    destruct (saveItem_cases commit (form_category r) (form_item_name r)
                (ToLower (form_item_type r)) (form_item_content r) db)
      as [->|(db' & -> & Htx & ->)]; simpl; done.
  - destruct (String.prefix (ToLower (form_item_type r)) (ToLower contentType));
      simpl; [|done].
    destruct (saveItem_cases commit (form_category r) (form_item_name r)
                (ToLower (form_item_type r)) content db)
      as [->|(db' & -> & Htx & ->)]; simpl; done.
Qed.

(** X16: [storeItem] writes only when it answers 200.  Its answer is
    200, 400 or 500; with 400 or 500 the database is as it was; with 200
    the transaction was committed, the body is the list [allItems]
    computes from the new database, an item without attachment is
    neither a video nor an image, and the lower-cased content type of an
    attachment starts with the lower-cased item type. *)
Theorem storeItem_writes_only_on_200 (commit : bool) (r : Request) (db : Tx) :
  (resp_code (apiServer.storeItem commit r db).2 = 200%Z
   ∨ resp_code (apiServer.storeItem commit r db).2 = 400%Z
   ∨ resp_code (apiServer.storeItem commit r db).2 = 500%Z)
  ∧ (resp_code (apiServer.storeItem commit r db).2 ≠ 200%Z →
     (apiServer.storeItem commit r db).1 = db)
  ∧ (resp_code (apiServer.storeItem commit r db).2 = 200%Z →
     commit = true
     ∧ apiServer.storeItemTx (form_category r) (form_item_name r)
         (ToLower (form_item_type r)) (request_content r) db
       = Ok (apiServer.storeItem commit r db).1
     ∧ (apiServer.storeItem commit r db).2
       = apiServer.allItems (apiServer.storeItem commit r db).1
     ∧ match form_attachment r with
       | MissingFile =>
           ToLower (form_item_type r) ≠ "video"
           ∧ ToLower (form_item_type r) ≠ "image"
       | File contentType _ =>
           String.prefix (ToLower (form_item_type r)) (ToLower contentType) = true
       | FileError => False
       end).
Proof.
  unfold apiServer.storeItem, request_content.
  destruct (form_attachment r) as [| |contentType [content|err]]; simpl.
  - destruct (String.eqb (ToLower (form_item_type r)) "video") eqn:Hv; simpl.
    { split; [by right; left|]. by split. }
    destruct (String.eqb (ToLower (form_item_type r)) "image") eqn:Hi; simpl.
    { split; [by right; left|]. by split. }
    apply String.eqb_neq in Hv, Hi.
    destruct (saveItem_cases commit (form_category r) (form_item_name r)
                (ToLower (form_item_type r)) (form_item_content r) db)
      as [->|(db' & -> & Htx & ->)]; simpl.
    + split; [by right; right|]. by split.
    + split; [by left|]. by split.
  - split; [by right; right|]. by split.
  - destruct (String.prefix (ToLower (form_item_type r)) (ToLower contentType))
      eqn:Hp; simpl.
    2: { split; [by right; left|]. by split. }
    destruct (saveItem_cases commit (form_category r) (form_item_name r)
                (ToLower (form_item_type r)) content db)
      as [->|(db' & -> & Htx & ->)]; simpl.
    + split; [by right; right|]. by split.
    + split; [by left|]. by split.
  - split; [by right; right|]. by split.
Qed.

(** X17: an item stored through the API is listed.  When [storeItem]
    answers 200, the list it returns holds the category of the request,
    and that category holds the item of the request with its lower-cased
    type and its content; every other category and every other item of
    the category is stored as before. *)
Theorem storeItem_then_listed
    (commit : bool) (r : Request) (db db' : Tx) (body : Body) :
  apiServer.storeItem commit r db = (db', mkResponse 200 body) →
  ∃ category catBucket',
    body = JSON (apiServer.categoriesWithItems db')
    ∧ category ∈ apiServer.categoriesWithItems db'
    ∧ Category_Name category = form_category r
    ∧ mkItem (form_item_name r) (ToLower (form_item_type r)) (request_content r)
      ∈ Category_Items category
    ∧ db' !! form_category r = Some catBucket'
    ∧ (∀ k, k ≠ form_item_name r →
         catBucket' !! k = default ∅ (db !! form_category r) !! k)
    ∧ (∀ c, c ≠ form_category r → db' !! c = db !! c).
Proof.
  intros Hstore.
  destruct (storeItem_200 commit r db) as [Htx Hresp];
    [by rewrite Hstore|].
  rewrite Hstore in Htx, Hresp. simpl in Htx, Hresp.
  apply storeItemTx_putItem in Htx as (b' & Hput & ->).
  destruct (putItem_lookup _ _ _ Hput) as [Hread Hframe]. simpl in Hread, Hframe.
  exists (apiServer.readCategory (form_category r, b')), b'.
  split; [by injection Hresp|].
  split.
  { apply list_elem_of_fmap. eexists. split; [done|].
    apply elem_of_TxCursor, lookup_insert_eq. }
  split; [done|]. split.
  { simpl. apply list_elem_of_omap. exists (form_item_name r). split; [|done].
    apply elem_of_Cursor_keys.
    assert (has_item b' (form_item_name r)) as [ib Hib].
    { apply readItem_is_Some. rewrite Hread. eauto. }
    eauto. }
  split; [apply lookup_insert_eq|]. split; [done|].
  intros c Hc. by rewrite lookup_insert_ne.
Qed.

(** X18: the server stores no category and no item under an empty
    name: such a request is never answered 200 and leaves the database
    as it was. *)
Theorem storeItem_rejects_empty_names (commit : bool) (r : Request) (db : Tx) :
  form_category r = EmptyString ∨ form_item_name r = EmptyString →
  resp_code (apiServer.storeItem commit r db).2 ≠ 200%Z
  ∧ (apiServer.storeItem commit r db).1 = db.
Proof.
  intros Hempty.
  assert (resp_code (apiServer.storeItem commit r db).2 ≠ 200%Z) as Hcode.
  { intros Hcode.
    destruct (storeItem_200 commit r db Hcode) as [Htx _].
    revert Htx. generalize (apiServer.storeItem commit r db).1. intros db'.
    unfold apiServer.storeItemTx, TxCreateBucketIfNotExists, CreateBucketIfNotExists.
    destruct Hempty as [->| ->]; [done|].
    by destruct (blen (form_category r) =? 0)%Z. }
  split; [done|]. by apply storeItem_not_200.
Qed.

End Server.

(** ** The client's catalogue against the server's *)

Section Mirror.

Implicit Types (db sdb cdb : Tx).

Lemma StronglySorted_by_name (l : list Item) :
  StronglySorted key_lt (Item_Name <$> l) →
  StronglySorted (λ a b, key_lt (Item_Name a) (Item_Name b)) l.
Proof.
  induction l as [|a l IH]; [constructor|].
  rewrite fmap_cons. intros Hs. apply StronglySorted_inv in Hs as [Hl Ha].
  constructor; [by apply IH|]. by apply (proj1 (Forall_fmap _ _ _)) in Ha.
Qed.

Lemma sorted_by_name_unique (l1 l2 : list Item) :
  StronglySorted key_lt (Item_Name <$> l1) →
  StronglySorted key_lt (Item_Name <$> l2) →
  l1 ≡ₚ l2 → l1 = l2.
Proof.
  intros H1 H2.
  apply (StronglySorted_unique_strong (λ a b, key_lt (Item_Name a) (Item_Name b)));
    [|by apply StronglySorted_by_name..].
  intros a b _ _ Hab Hba. exfalso. by eapply key_lt_asym.
Qed.

Lemma sorted_keys_unique (l1 l2 : list string) :
  StronglySorted key_lt l1 → StronglySorted key_lt l2 →
  (∀ k, k ∈ l1 ↔ k ∈ l2) → l1 = l2.
Proof.
  intros H1 H2 Hiff. apply (StronglySorted_unique_strong key_lt); [|done..|].
  - intros a b _ _ Hab Hba. exfalso. by eapply key_lt_asym.
  - apply NoDup_Permutation; [by apply StronglySorted_key_lt_NoDup..|done].
Qed.

(** X19: the client stores what the server lists.  When the payload of
    a download is the list [allItems] computes from the database of the
    server and the transaction commits, [categoryItems] returns, for
    every category of the server, every item the server lists for it; a
    category the client did not have is read back with exactly the
    items of the server in the order of the server, and a client without
    catalogue then offers exactly the categories of the server. *)
Theorem client_mirrors_server
    (sdb : Tx) (commit : bool) (cdb cdb' : Tx) (names : list string) :
  downloadFromAPI (Ok (apiServer.categoriesWithItems sdb)) commit cdb
  = (cdb', Ok names) →
  (∀ category, category ∈ apiServer.categoriesWithItems sdb →
     ∃ items,
       categoryItems (Category_Name category) cdb' = Ok items
       ∧ (∀ item, item ∈ Category_Items category → item ∈ items)
       ∧ (catalogue_entry cdb (Category_Name category) = None →
          items = Category_Items category))
  ∧ (cdb !! categoriesBkt = None →
     categoriesFromDB cdb' = names
     ∧ names = Category_Name <$> apiServer.categoriesWithItems sdb).
Proof.
  intros Hdl. apply downloadFromAPI_Ok in Hdl as [Hloop ->].
  destruct (forEach_putCategory_entry _ _ _ Hloop) as (Hkeys & _ & Hnew).
  assert (StronglySorted key_lt (Category_Name <$> apiServer.categoriesWithItems sdb))
    as Hsorted.
  { rewrite categoriesWithItems_names. apply TxCursor_keys_sorted. }
  split.
  - intros category Hin.
    destruct (Hnew (StronglySorted_key_lt_NoDup _ Hsorted) _ Hin)
      as (b' & Hb' & Hitems).
    assert (StronglySorted key_lt (Item_Name <$> Category_Items category)) as Hsi.
    { apply elem_of_categoriesWithItems in Hin as (b & _ & ->).
      apply omap_readItem_sorted, Cursor_keys_sorted. }
    destruct (forEach_putItem_read_back _ _ _ Hitems
                (StronglySorted_key_lt_NoDup _ Hsi)) as [Hsub Hperm].
    apply has_category_entry in Hb'.
    pose proof (categoryItems_has_category _ _ _ Hb') as Hci.
    eexists. split; [exact Hci|]. split; [done|]. intros Hfresh.
    apply sorted_by_name_unique; [by apply (categoryItems_sorted _ _ _ Hci)|done|].
    apply Hperm. intros k _. unfold bucket_before. rewrite Hfresh.
    apply lookup_empty.
  - intros Hnone. split; [|done].
    apply sorted_keys_unique; [apply categoriesFromDB_sorted|done|].
    intros c. rewrite categoriesFromDB_elem, Hkeys.
    unfold catalogue_entry. rewrite Hnone. simpl. split; [|by right].
    by intros [[? ?]|?].
Qed.

(** X20: what [Store] writes, [Get] reads.  After a [Store] that
    returns no error, [Get] of the same bucket and key returns the
    value, as the nil slice when the value is empty; [Get] of another
    key of the bucket returns a value exactly when it did before, and
    the same value; [Get] in another bucket returns what it returned
    before.  A [Store] that returns an error leaves the database as it
    was. *)
Theorem Store_Get_round_trip (commit : bool) (b k v : string) (db : Tx) :
  ((apiServer.Store commit b k v db).2 = None →
   apiServer.Get b k (apiServer.Store commit b k v db).1
   = Ok (if decide (v = EmptyString) then None else Some v)
   ∧ (∀ k' v', k' ≠ k →
        apiServer.Get b k' (apiServer.Store commit b k v db).1 = Ok v'
        ↔ apiServer.Get b k' db = Ok v')
   ∧ (∀ b' k', b' ≠ b →
        apiServer.Get b' k' (apiServer.Store commit b k v db).1
        = apiServer.Get b' k' db))
  ∧ ((apiServer.Store commit b k v db).2 ≠ None →
     (apiServer.Store commit b k v db).1 = db).
Proof.
  unfold apiServer.Store.
  destruct ((blen k =? 0)%Z || (blen b =? 0)%Z) eqn:Hempty; [by split|].
  unfold Update. destruct commit; [|by split].
  unfold TxCreateBucketIfNotExists.
  apply orb_false_iff in Hempty as [Hk Hb]. rewrite Hb.
  destruct (Put (default ∅ (db !! b)) k v) as [bucket|e] eqn:Hput; simpl;
    [|by split].
  apply Put_Ok in Hput as ->. split; [|done]. intros _. split; [|split].
  - unfold apiServer.Get. rewrite Hk, Hb. simpl. rewrite lookup_insert_eq.
    unfold Get. rewrite lookup_insert_eq.
    destruct v as [|c v]; [done|].
    rewrite decide_False by done. unfold blen. simpl.
    destruct (0 <? Z.pos (Pos.of_succ_nat (String.length v)))%Z eqn:Hlt; [done|].
    apply Z.ltb_ge in Hlt. lia.
  - intros k' v' Hk'. unfold apiServer.Get.
    destruct ((blen k' =? 0)%Z || (blen b =? 0)%Z); [done|].
    rewrite lookup_insert_eq. unfold Get. rewrite lookup_insert_ne by done.
    destruct (db !! b) as [bucket|] eqn:Hdb; simpl; [done|].
    by rewrite lookup_empty.
  - intros b' k' Hb'. unfold apiServer.Get.
    by rewrite lookup_insert_ne.
Qed.

End Mirror.

(** ** Categories do not interfere *)

Section Independence.

Context `{Toolkit}.

Implicit Types (s : App) (category other : string) (id : nat).

Lemma saved_indices_other category other index err :
  other ≠ category → saved_indices other [SaveLastRun category index err] = [].
Proof.
  intros Hne. unfold saved_indices. simpl.
  destruct (decide (category = other)); [congruence|done].
Qed.

Lemma showReminder_other commit category other s :
  other ≠ category →
  lastRunStatuses (final (showReminder commit category s)) !! other
  = lastRunStatuses s !! other
  ∧ activeReminders (final (showReminder commit category s)) !! other
    = activeReminders s !! other
  ∧ record (db (final (showReminder commit category s))) other = record (db s) other
  ∧ ∃ es, effects (final (showReminder commit category s)) = effects s ++ es
          ∧ saved_indices other es = [].
Proof.
  intros Hne.
  destruct (showReminder_inv commit category s _ eq_refl)
    as [->|(items & _ & _ & Hm)].
  { repeat (split; [done|]). exists []. by rewrite app_nil_r. }
  destruct (ledger_writes_frame commit category (nextIndexOf s category) (db s))
    as [Hrec _].
  destruct (Hrec _ Hne) as [Hsave _].
  destruct (GoInt.index items (nextIndexOf s category)) as [nextItem|]; rewrite Hm.
  - cbn [final]. rewrite effects_shown, effects_recorded.
    split; [by apply lookup_insert_ne|]. split; [done|]. split; [exact Hsave|].
    eexists. rewrite <- app_assoc. split; [done|].
    rewrite saved_indices_app. by rewrite saved_indices_other.
  - cbn [final]. rewrite effects_recorded.
    split; [by apply lookup_insert_ne|]. split; [done|]. split; [exact Hsave|].
    eexists. split; [done|]. by apply saved_indices_other.
Qed.

Lemma killReminder_other id commit category other s :
  other ≠ category →
  lastRunStatuses (killReminder id commit category s) !! other
  = lastRunStatuses s !! other
  ∧ activeReminders (killReminder id commit category s) !! other
    = activeReminders s !! other
  ∧ record (db (killReminder id commit category s)) other = record (db s) other
  ∧ ∃ es, effects (killReminder id commit category s) = effects s ++ es
          ∧ saved_indices other es = [].
Proof.
  intros Hne. rewrite killReminder_eq. cbn [lastRunStatuses activeReminders db effects].
  destruct (ledger_writes_frame commit category 0 (db s)) as [Hrec _].
  destruct (Hrec _ Hne) as [_ Hdel].
  split; [by apply lookup_delete_ne|]. split; [by apply lookup_delete_ne|].
  split; [exact Hdel|]. eexists. split; [done|]. done.
Qed.

(** X21: the goroutine of one category leaves the others alone.  A step
    of a goroutine (its start, a tick, its cancellation, the click on its
    X button), whether it ends normally or in a panic and whatever the
    engine does, changes neither the index, nor the items, nor the
    persisted record of any other category, and saves no index for it. *)
Theorem goroutine_touches_one_category
    (e : Event) (id : nat) (g : Goroutine) (s : App) (other : string) :
  goroutine_of e = Some id →
  goroutines s !! id = Some g →
  other ≠ g_category g →
  lastRunStatuses (final (step e s)) !! other = lastRunStatuses s !! other
  ∧ activeReminders (final (step e s)) !! other = activeReminders s !! other
  ∧ record (db (final (step e s))) other = record (db s) other
  ∧ ∃ es, effects (final (step e s)) = effects s ++ es
          ∧ saved_indices other es = [].
Proof.
  intros He Hid Hne.
  assert (lastRunStatuses s !! other = lastRunStatuses s !! other
          ∧ activeReminders s !! other = activeReminders s !! other
          ∧ record (db s) other = record (db s) other
          ∧ ∃ es, effects s = effects s ++ es ∧ saved_indices other es = [])
    as Hsame.
  { repeat (split; [done|]). exists []. by rewrite app_nil_r. }
  destruct g as [category imm ph canc]. simpl in Hne.
  destruct e as [selected noDelay|fetched commit|id'|id' commit
                |id' commitSave commitDelete|id' commit];
    simpl in He; try discriminate; injection He as ->; simpl.
  - exact Hsame.
  - unfold goBegin. rewrite Hid. destruct ph; try exact Hsame.
    destruct imm; [|exact Hsame].
    pose proof (showReminder_other commit category other s Hne) as Hshow.
    by destruct (showReminder commit category s) as [[] s1|s1].
  - unfold goTick. rewrite Hid. destruct ph; try exact Hsame.
    destruct (showReminder_other commitSave category other s Hne)
      as (H1 & H2 & H3 & es1 & H4 & H5).
    destruct (showReminder commitSave category s) as [[] s1|s1]; cbn [final] in *.
    + repeat (split; [done|]). eauto.
    + destruct (killReminder_other id commitDelete category other s1 Hne)
        as (K1 & K2 & K3 & es2 & K4 & K5).
      cbn [lastRunStatuses activeReminders db effects set_phase set_goroutines].
      rewrite K1, K2, K3, K4, H1, H2, H3, H4.
      repeat (split; [done|]). exists (es1 ++ es2).
      rewrite app_assoc. split; [done|].
      by rewrite saved_indices_app, H5, K5.
    + destruct (killReminder_other id commitDelete category other s1 Hne)
        as (K1 & K2 & K3 & es2 & K4 & K5).
      rewrite K1, K2, K3, K4, H1, H2, H3, H4.
      repeat (split; [done|]). exists (es1 ++ es2).
      rewrite app_assoc. split; [done|].
      by rewrite saved_indices_app, H5, K5.
  - unfold goDone. rewrite Hid. destruct ph; try exact Hsame.
    destruct canc; [|exact Hsame]. cbn [final].
    destruct (killReminder_other id commit category other s Hne)
      as (K1 & K2 & K3 & es2 & K4 & K5).
    cbn [lastRunStatuses activeReminders db effects set_phase set_goroutines].
    rewrite K1, K2, K3, K4. repeat (split; [done|]). eauto.
Qed.


End Independence.

(** ** A category played to its end *)

Section Playback.

Context `{Toolkit}.

Implicit Types (s : App) (category : string) (id : nat).

Lemma windows_app es1 es2 : windows (es1 ++ es2) = windows es1 ++ windows es2.
Proof. apply omap_app. Qed.

(** What one call of [showReminder] that shows an item adds and
    leaves. *)
Lemma shown_recorded_facts commit category items (j : nat) nextItem s :
  let s1 := shown category items (Z.of_nat j) nextItem
              (recorded commit category (Z.of_nat j) s) in
  ∃ es, effects s1 = effects s ++ es
        ∧ windows es = [window_of category nextItem]
        ∧ saved_indices category es = [Z.of_nat j]
        ∧ activeReminders s1 = activeReminders s
        ∧ lastRunStatuses s1 = <[category := Z.of_nat j]> (lastRunStatuses s)
        ∧ goroutines s1 = goroutines s
        ∧ (ledger_flat (db s) → ledger_flat (db s1)).
Proof.
  intros s1. eexists. split.
  { unfold s1. rewrite effects_shown, effects_recorded, <- app_assoc. done. }
  split; [done|]. split.
  { unfold saved_indices. simpl. by rewrite decide_True. }
  split; [done|]. split; [done|]. split; [done|].
  apply ledger_write_saveLastRun.
Qed.

Lemma play_rest id category imm canc commitSave commitDelete items (m : nat) :
  ∀ s (j : nat),
    cursor_ok s category items →
    lastIndexOf s category = (Z.of_nat j - 1)%Z →
    length items = j + S m →
    goroutines s !! id = Some (mkGoroutine category imm Ticking canc) →
    ∃ s' es,
      run (replicate (S m) (Tick id commitSave commitDelete)) s = Ret () s'
      ∧ effects s' = effects s ++ es
      ∧ windows es = window_of category <$> drop j items
      ∧ saved_indices category es = seqZ (Z.of_nat j) (Z.of_nat (S m))
      ∧ activeReminders s' !! category = None
      ∧ lastRunStatuses s' !! category = None
      ∧ goroutines s' !! id = Some (mkGoroutine category imm Returned canc)
      ∧ (ledger_flat (db s) → commitDelete = true → record (db s') category = None).
Proof.
  induction m as [|m IH]; intros s j Hok Hidx Hlen Hg.
  - destruct (showReminder_shows commitSave category s items Hok)
      as (nextItem & Hnext & Hshow).
    { unfold remainingOf. destruct Hok as (-> & _). unfold GoInt.len. lia. }
    assert (remainingOf s category = 1%Z) as Hrem.
    { unfold remainingOf. destruct Hok as (-> & _). unfold GoInt.len. lia. }
    rewrite Hrem, Hidx in Hshow. rewrite Hidx in Hnext.
    replace (Z.of_nat j - 1 + 1)%Z with (Z.of_nat j) in * by lia.
    destruct (shown_recorded_facts commitSave category items j nextItem s)
      as (es1 & He1 & Hw1 & Hs1 & Ha1 & Hl1 & Hg1 & Hf1).
    set (s1 := shown category items (Z.of_nat j) nextItem
                 (recorded commitSave category (Z.of_nat j) s)) in *.
    assert (items !! j = Some nextItem) as Hj.
    { unfold GoInt.index in Hnext.
      destruct (Z.of_nat j <? 0)%Z; [done|]. by rewrite Nat2Z.id in Hnext. }
    exists (set_phase id Returned (killReminder id commitDelete category s1)).
    eexists. split.
    { cbn [replicate run step]. unfold goTick. rewrite Hg, Hshow. done. }
    rewrite killReminder_eq.
    cbn [effects activeReminders lastRunStatuses goroutines db set_phase set_goroutines].
    split; [by rewrite He1, <- app_assoc|]. split.
    { rewrite windows_app, Hw1. simpl. rewrite (drop_S _ _ _ Hj).
      rewrite drop_ge by lia. done. }
    split.
    { rewrite saved_indices_app, Hs1. by rewrite (seqZ_cons (Z.of_nat j)) by lia. }
    split; [apply lookup_delete_eq|]. split; [apply lookup_delete_eq|]. split.
    { rewrite list_lookup_alter_eq, Hg1, Hg. done. }
    intros Hflat ->. by apply record_deleteLastRun, Hf1.
  - destruct (showReminder_shows commitSave category s items Hok)
      as (nextItem & Hnext & Hshow).
    { unfold remainingOf. destruct Hok as (-> & _). unfold GoInt.len. lia. }
    assert (remainingOf s category = Z.of_nat (S (S m))) as Hrem.
    { unfold remainingOf. destruct Hok as (-> & _). unfold GoInt.len. lia. }
    rewrite Hrem, Hidx in Hshow. rewrite Hidx in Hnext.
    replace (Z.of_nat j - 1 + 1)%Z with (Z.of_nat j) in * by lia.
    assert ((0 <? Z.of_nat (S (S m)) - 1)%Z = true) as Hmore
      by (apply Z.ltb_lt; lia).
    rewrite Hmore in Hshow.
    destruct (shown_recorded_facts commitSave category items j nextItem s)
      as (es1 & He1 & Hw1 & Hs1 & Ha1 & Hl1 & Hg1 & Hf1).
    set (s1 := shown category items (Z.of_nat j) nextItem
                 (recorded commitSave category (Z.of_nat j) s)) in *.
    assert (items !! j = Some nextItem) as Hj.
    { unfold GoInt.index in Hnext.
      destruct (Z.of_nat j <? 0)%Z; [done|]. by rewrite Nat2Z.id in Hnext. }
    destruct (IH s1 (S j)) as (s' & es2 & Hrun & He2 & Hw2 & Hs2 & Ha2 & Hl2 & Hg2 & Hf2).
    { destruct Hok as (Hitems & Hmax & Hb). split; [by rewrite Ha1|].
      split; [done|]. unfold lastIndexOf. rewrite Hl1, lookup_insert_eq. simpl.
      unfold GoInt.len. lia. }
    { unfold lastIndexOf. rewrite Hl1, lookup_insert_eq. simpl. lia. }
    { lia. }
    { by rewrite Hg1. }
    exists s', (es1 ++ es2). split.
    { rewrite replicate_S. cbn [run step]. unfold goTick at 1.
      rewrite Hg, Hshow. exact Hrun. }
    split; [by rewrite He2, He1, <- app_assoc|]. split.
    { rewrite windows_app, Hw1, Hw2. by rewrite (drop_S _ _ _ Hj). }
    split.
    { rewrite saved_indices_app, Hs1, Hs2.
      rewrite (seqZ_cons (Z.of_nat j)) by lia. simpl. f_equal. f_equal; lia. }
    split; [done|]. split; [done|]. split; [done|].
    intros Hflat Hcd. apply Hf2; [by apply Hf1|done].
Qed.

(** X23: a started category is played to its end.  Start with "No
    initial delay" unchecked, so that the first item waits for the
    first tick, on an inactive category with n items and no record,
    then n ticks: the n items are shown in byte order of their names,
    one window each and none twice; the indices 0, 1, ..., n-1 are
    saved one after the other; with the last item the goroutine returns
    and its cleanup leaves the category inactive, without index and,
    when the engine commits, without record. *)
Theorem started_category_plays_every_item_once
    (category : string) (s : App) (items : list Item)
    (commit commitSave commitDelete : bool) :
  activeReminders s !! category = None →
  lastRunStatuses s !! category = None →
  categoryItems category (db s) = Ok items →
  items ≠ [] → (GoInt.len items ≤ GoInt.maxInt)%Z →
  ∃ s',
    run (ClickStart (Some category) false
         :: Begin (length (goroutines s)) commit
         :: replicate (length items)
              (Tick (length (goroutines s)) commitSave commitDelete)) s
    = Ret () s'
    ∧ windows (new_effects s s') = window_of category <$> items
    ∧ StronglySorted key_lt (Item_Name <$> items)
    ∧ saved_indices category (new_effects s s') = seqZ 0 (GoInt.len items)
    ∧ activeReminders s' !! category = None
    ∧ lastRunStatuses s' !! category = None
    ∧ goroutines s' !! length (goroutines s)
      = Some (mkGoroutine category false Returned false)
    ∧ (ledger_flat (db s) → commitDelete = true → record (db s') category = None).
Proof.
  intros Hact Hrun Hitems Hne Hlen.
  set (id := length (goroutines s)).
  pose proof (startButton_fresh false category s items Hact Hrun Hitems Hne Hlen)
    as Hstart.
  set (s1 := startButton (Some category) false s) in *.
  assert (goroutines s1 !! id = Some (mkGoroutine category false Spawned false))
    as Hg1.
  { rewrite Hstart. cbn [goroutines]. unfold id. rewrite lookup_app_r by lia.
    by rewrite Nat.sub_diag. }
  set (s2 := set_phase id Ticking s1).
  assert (goBegin id commit s1 = Ret () s2) as Hbegin
    by (unfold goBegin; by rewrite Hg1).
  destruct items as [|first rest]; [done|].
  destruct (play_rest id category false false commitSave commitDelete
              (first :: rest) (length rest) s2 0)
    as (s' & es & Hplay & He & Hw & Hs & Ha & Hl & Hg & Hf).
  { unfold s2. split; [|split; [done|]].
    - cbn [activeReminders set_phase set_goroutines]. rewrite Hstart.
      cbn [activeReminders]. apply lookup_insert_eq.
    - unfold lastIndexOf. cbn [lastRunStatuses set_phase set_goroutines].
      rewrite Hstart. cbn [lastRunStatuses]. rewrite Hrun. simpl.
      unfold GoInt.len. simpl. lia. }
  { unfold lastIndexOf, s2. cbn [lastRunStatuses set_phase set_goroutines].
    rewrite Hstart. cbn [lastRunStatuses]. by rewrite Hrun. }
  { done. }
  { unfold s2. cbn [goroutines set_phase set_goroutines].
    rewrite list_lookup_alter_eq, Hg1. done. }
  exists s'. split.
  { cbn [run step]. fold s1. rewrite Hbegin. exact Hplay. }
  assert (effects s2 = effects s) as He2
    by (unfold s2; cbn [effects set_phase set_goroutines]; by rewrite Hstart).
  assert (db s2 = db s) as Hdb2
    by (unfold s2; cbn [db set_phase set_goroutines]; by rewrite Hstart).
  rewrite He2 in He. rewrite (new_effects_app _ _ _ He).
  split; [exact Hw|]. split; [by apply (categoryItems_sorted _ _ _ Hitems)|].
  split.
  { by rewrite Hs. }
  split; [done|]. split; [done|]. split; [done|].
  rewrite <- Hdb2. exact Hf.
Qed.

End Playback.

Lemma started_category_plays_every_item_once_witness :
  ∃ s',
    run [ClickStart (Some "quotes") false; Begin 0 true;
         Tick 0 true true; Tick 0 true true; Tick 0 true true]
        (main (Ok [quotes]) true ∅) = Ret () s'
    ∧ windows (new_effects (main (Ok [quotes]) true ∅) s')
      = window_of "quotes" <$> Category_Items quotes
    ∧ saved_indices "quotes" (new_effects (main (Ok [quotes]) true ∅) s')
      = [0; 1; 2]%Z
    ∧ record (db s') "quotes" = None.
Proof.
  destruct (started_category_plays_every_item_once "quotes"
              (main (Ok [quotes]) true ∅) (Category_Items quotes) true true true)
    as (s' & Hrun & Hw & _ & Hs & _ & _ & _ & Hr).
  - vm_compute; reflexivity.
  - vm_compute; reflexivity.
  - vm_compute; reflexivity.
  - done.
  - by vm_compute.
  - exists s'. split; [exact Hrun|]. split; [exact Hw|]. split; [exact Hs|].
    apply Hr; [|done]. apply ledger_flatb_true. vm_compute; reflexivity.
Defined.

(** ** Playback after a restart and after a refresh *)

Section Continue.

Context `{Toolkit}.

Implicit Types (s : App) (category : string) (id : nat) (db : Tx).

(** X24: with a single record, a restart plays the rest.  When the
    ledger holds one record, with index i, and the category has items
    after position i, [main] starts one goroutine for it, and the ticks
    of that goroutine show the items at the positions i+1, i+2, ... to
    the last, one window each, saving each index; with the last item the
    goroutine returns and the category is inactive, without index and,
    when the engine commits, without record. *)
Theorem resumed_category_plays_the_rest
    (fetched : result error (list Category)) (commit commit' : bool) (db0 : Tx)
    (category : string) (i : nat) (items : list Item)
    (commitSave commitDelete : bool) :
  db0 !! lastRunBktKey = Some {[ category := Leaf (strconv.Itoa (Z.of_nat i)) ]} →
  categoryItems category (db (main fetched commit db0)) = Ok items →
  (GoInt.len items ≤ GoInt.maxInt)%Z →
  S i < length items →
  ∃ s',
    goroutines (main fetched commit db0) = [mkGoroutine category false Spawned false]
    ∧ run (Begin 0 commit'
           :: replicate (length items - S i) (Tick 0 commitSave commitDelete))
          (main fetched commit db0)
      = Ret () s'
    ∧ windows (new_effects (main fetched commit db0) s')
      = window_of category <$> drop (S i) items
    ∧ saved_indices category (new_effects (main fetched commit db0) s')
      = seqZ (Z.of_nat (S i)) (Z.of_nat (length items - S i))
    ∧ activeReminders s' !! category = None
    ∧ lastRunStatuses s' !! category = None
    ∧ goroutines s' !! 0 = Some (mkGoroutine category false Returned false)
    ∧ (commitDelete = true → record (db s') category = None).
Proof.
  intros Hdb Hcat Hlen Hi.
  assert (GoInt.inRange (Z.of_nat i) = true) as Hrange.
  { unfold GoInt.len, GoInt.inRange, GoInt.minInt, GoInt.maxInt in *.
    apply andb_true_intro. split; apply Z.leb_le; lia. }
  rewrite (main_single_record fetched commit db0 category _ Hdb Hrange) in *.
  set (s0 := mkApp db0 ∅ ∅ (categoriesFromDB db0) None [] [] []) in *.
  destruct (refreshCategories_at_start fetched commit s0 eq_refl)
    as (Ha & _ & Hg & _ & He & Hledger).
  set (s1 := refreshCategories fetched commit s0) in *.
  unfold resume in *. cbn [db set_lastRunStatuses] in *.
  destruct (categoryItems category (db s1)) as [items'|e] eqn:Hcat1;
    [|simpl in Hcat; congruence].
  set (s2 := set_activeReminders _ _) in *.
  destruct (startTimer_frame false category s2) as (_ & _ & Hdbeq & _).
  rewrite Hdbeq in Hcat. change (db s2) with (db s1) in Hcat.
  rewrite Hcat1 in Hcat. injection Hcat as ->.
  assert (lastIndexOf s2 category = Z.of_nat i) as Hidx
    by (unfold lastIndexOf, s2; simpl; by rewrite lookup_singleton_eq).
  assert (cursor_ok s2 category items) as Hok.
  { split; [unfold s2; simpl; apply lookup_insert_eq|]. rewrite Hidx.
    unfold GoInt.len in *. lia. }
  assert (remainingOf s2 category = (GoInt.len items - Z.of_nat i - 1)%Z) as Hrem
    by (unfold remainingOf; destruct Hok as (-> & _); by rewrite Hidx).
  rewrite (startTimer_spawns false category s2 items Hok)
    by (rewrite Hrem; unfold GoInt.len; lia).
  set (s3 := set_activeRemindersBox _ _).
  assert (goroutines s3 = [mkGoroutine category false Spawned false]) as Hg3
    by (unfold s3, s2; simpl; by rewrite Hg).
  set (s4 := set_phase 0 Ticking s3).
  assert (goBegin 0 commit' s3 = Ret () s4) as Hbegin
    by (unfold goBegin; by rewrite Hg3).
  destruct (play_rest 0 category false false commitSave commitDelete items
              (length items - S i - 1) s4 (S i))
    as (s' & es & Hplay & Hes & Hw & Hs & Ha' & Hl' & Hg' & Hf).
  { exact Hok. }
  { change (lastIndexOf s4 category) with (lastIndexOf s2 category). lia. }
  { lia. }
  { unfold s4. cbn [goroutines set_phase set_goroutines]. by rewrite Hg3. }
  replace (S (length items - S i - 1)) with (length items - S i) in * by lia.
  exists s'. split; [done|]. split.
  { cbn [run step]. rewrite Hbegin. exact Hplay. }
  assert (effects s4 = effects s3) as He4 by done.
  rewrite He4 in Hes. rewrite (new_effects_app _ _ _ Hes).
  split; [exact Hw|]. split; [exact Hs|]. split; [done|]. split; [done|].
  split; [done|].
  intros Hcd. apply Hf; [|done].
  change (db s4) with (db s1). intros b k n Hb Hk.
  rewrite Hledger in Hb. change (db s0) with db0 in Hb. rewrite Hdb in Hb.
  injection Hb as <-. apply lookup_singleton_Some in Hk as [_ <-]. eauto.
Qed.

(** X25: a refresh keeps the position, not the item.  After a refresh
    that succeeds, the next tick of a running category shows the item at
    position [lastIndex + 1] of the items the database now holds for the
    category, whatever was at that position before, and saves that
    index: an item that the refresh brought in at an earlier position
    is never shown, and the item it displaced is shown again. *)
Theorem refresh_keeps_position
    (id : nat) (category : string) (imm canc : bool) (s : App)
    (fetched : result error (list Category)) (commit : bool)
    (db' : Tx) (names : list string) (items' : list Item)
    (commitSave commitDelete : bool) :
  goroutines s !! id = Some (mkGoroutine category imm Ticking canc) →
  is_Some (activeReminders s !! category) →
  active_readable s →
  downloadFromAPI fetched commit (db s) = (db', Ok names) →
  categoryItems category db' = Ok items' →
  (GoInt.len items' ≤ GoInt.maxInt)%Z →
  (-1 ≤ lastIndexOf s category)%Z →
  (lastIndexOf s category + 1 < GoInt.len items')%Z →
  ∃ nextItem s',
    GoInt.index items' (lastIndexOf s category + 1) = Some nextItem
    ∧ run [ClickRefresh fetched commit; Tick id commitSave commitDelete] s
      = Ret () s'
    ∧ activeReminders (refreshCategories fetched commit s) !! category
      = Some items'
    ∧ windows (new_effects s s') = [window_of category nextItem]
    ∧ saved_indices category (new_effects s s') = [(lastIndexOf s category + 1)%Z].
Proof.
  intros Hg Hact Hread Hdl Hitems Hmax Hlo Hhi.
  pose proof (refreshCategories_Ok fetched commit s db' names Hdl Hread) as Heq.
  set (s1 := refreshCategories fetched commit s) in *.
  assert (activeReminders s1 !! category = Some items') as Hact1.
  { rewrite Heq. cbn [activeReminders]. by apply reloaded_lookup. }
  assert (lastIndexOf s1 category = lastIndexOf s category) as Hidx
    by (unfold lastIndexOf; by rewrite Heq).
  assert (cursor_ok s1 category items') as Hok.
  { split; [done|]. split; [done|]. rewrite Hidx. lia. }
  destruct (showReminder_shows commitSave category s1 items' Hok)
    as (nextItem & Hnext & Hshow).
  { unfold remainingOf. rewrite Hact1, Hidx. lia. }
  rewrite Hidx in Hnext, Hshow.
  exists nextItem.
  set (j := Z.to_nat (lastIndexOf s category + 1)).
  assert (Z.of_nat j = lastIndexOf s category + 1)%Z as Hj by (unfold j; lia).
  rewrite <- Hj in Hshow.
  destruct (shown_recorded_facts commitSave category items' j nextItem s1)
    as (es1 & He1 & Hw1 & Hs1 & _).
  set (s2 := shown category items' (Z.of_nat j) nextItem
               (recorded commitSave category (Z.of_nat j) s1)) in *.
  assert (effects s1 = effects s) as He by by rewrite Heq.
  assert (goroutines s1 !! id = Some (mkGoroutine category imm Ticking canc)) as Hg1
    by by rewrite Heq.
  rewrite He in He1. rewrite Hj in Hs1.
  destruct (0 <? remainingOf s1 category - 1)%Z.
  - exists s2. split; [done|]. split.
    { cbn [run step]. fold s1. unfold goTick. by rewrite Hg1, Hshow. }
    split; [done|]. rewrite (new_effects_app _ _ _ He1). done.
  - exists (set_phase id Returned (killReminder id commitDelete category s2)).
    split; [done|]. split.
    { cbn [run step]. fold s1. unfold goTick. by rewrite Hg1, Hshow. }
    split; [done|].
    assert (effects (set_phase id Returned (killReminder id commitDelete category s2))
            = effects s ++ es1
                ++ [DeleteLastRun category
                      (deleteLastRun commitDelete category (db s2)).2]) as He2.
    { rewrite killReminder_eq. cbn [effects set_phase set_goroutines].
      by rewrite He1, <- app_assoc. }
    rewrite (new_effects_app _ _ _ He2).
    rewrite windows_app, saved_indices_app, Hw1, Hs1. done.
Qed.

End Continue.

(** ** The further properties on the examples *)



Lemma download_with_empty_name_stores_nothing_witness :
  ∃ e, downloadFromAPI (Ok unnamed_payload) true (db quotes_at_0)
       = (db quotes_at_0, Err e)
       ∧ refreshCategories (Ok unnamed_payload) true quotes_at_0
         = set_errorLabel (Some (Error e)) quotes_at_0.
Proof.
  apply (download_with_empty_name_stores_nothing true quotes_at_0 unnamed_payload
           (mkCategory EmptyString [])).
  - apply list_elem_of_further, list_elem_of_here.
  - left. reflexivity.
Defined.

Lemma categoryItems_reads_back_download_witness :
  ∃ items,
    categoryItems "news" (downloadFromAPI (Ok [news]) true ∅).1 = Ok items
    ∧ (∀ item, item ∈ Category_Items news → item ∈ items)
    ∧ (catalogue_entry ∅ "news" = None →
       items ≡ₚ Category_Items news
       ∧ StronglySorted key_lt (Item_Name <$> items)).
Proof.
  apply (categoryItems_reads_back_download true ∅ _ [news] ["news"] news).
  - vm_compute; reflexivity.
  - apply (bool_decide_unpack _). vm_compute; reflexivity.
  - apply list_elem_of_here.
  - apply (bool_decide_unpack _). vm_compute; reflexivity.
Defined.

Lemma categoriesFromDB_after_download_witness :
  ["quotes"; "solo"] = Category_Name <$> [quotes; solo]
  ∧ StronglySorted key_lt
      (categoriesFromDB (downloadFromAPI (Ok [quotes; solo]) true ∅).1)
  ∧ NoDup (categoriesFromDB (downloadFromAPI (Ok [quotes; solo]) true ∅).1)
  ∧ ∀ c, c ∈ categoriesFromDB (downloadFromAPI (Ok [quotes; solo]) true ∅).1
         ↔ c ∈ categoriesFromDB ∅ ∨ c ∈ ["quotes"; "solo"].
Proof.
  apply (categoriesFromDB_after_download true ∅ _ [quotes; solo] ["quotes"; "solo"]).
  vm_compute; reflexivity.
Defined.

Lemma refresh_reloads_active_items_witness :
  errorLabel (refreshCategories (Ok quotes_update) true quotes_at_0) = None
  ∧ categoryOptions (refreshCategories (Ok quotes_update) true quotes_at_0)
    = ["quotes"]
  ∧ ∃ items,
      categoryItems "quotes"
        (downloadFromAPI (Ok quotes_update) true (db quotes_at_0)).1 = Ok items
      ∧ activeReminders (refreshCategories (Ok quotes_update) true quotes_at_0)
          !! "quotes" = Some items.
Proof.
  destruct (refresh_reloads_active_items (Ok quotes_update) true quotes_at_0
              (downloadFromAPI (Ok quotes_update) true (db quotes_at_0)).1
              ["quotes"]) as (Heq & _ & Hactive & _).
  - vm_compute; reflexivity.
  - apply (readable_run [ClickStart (Some "quotes") false; Begin 0 true;
                         Tick 0 true true] (main (Ok [quotes]) true ∅)).
    + apply readable_main. apply catalogue_wfb_true. vm_compute; reflexivity.
    + vm_compute; reflexivity.
  - rewrite Heq. split; [done|]. split; [done|].
    apply Hactive. exists (Category_Items quotes). vm_compute; reflexivity.
Defined.

Lemma finished_record_blocks_category_witness :
  goroutines (main (Err (Errorf "offline")) true (db solo_shown)) = []
  ∧ activeReminders (main (Err (Errorf "offline")) true (db solo_shown)) !! "solo"
    = Some [mkItem "only" "text" "o"]
  ∧ record (db (main (Err (Errorf "offline")) true (db solo_shown))) "solo"
    = Some (Leaf "0")
  ∧ errorLabel (startButton (Some "solo") true
                  (main (Err (Errorf "offline")) true (db solo_shown)))
    = Some "Already running reminders for solo".
Proof.
  destruct (finished_record_blocks_category (Err (Errorf "offline")) true
              (db solo_shown) "solo" 0 [mkItem "only" "text" "o"])
    as (Hg & _ & Ha & _ & Hr & Hstart).
  - vm_compute; reflexivity.
  - vm_compute; reflexivity.
  - by vm_compute.
  - vm_compute; reflexivity.
  - split; [exact Hg|]. split; [exact Ha|]. split; [exact Hr|].
    by rewrite (Hstart true).
Defined.

Lemma main_without_records_witness :
  main (Ok [quotes]) true ∅
  = mkApp (downloadFromAPI (Ok [quotes]) true ∅).1 ∅ ∅
          (match (downloadFromAPI (Ok [quotes]) true ∅).2 with
           | Ok names => names
           | Err _ => categoriesFromDB ∅
           end)
          (match (downloadFromAPI (Ok [quotes]) true ∅).2 with
           | Ok _ => None
           | Err e => Some (Error e)
           end) [] [] [].
Proof.
  apply (main_without_records (Ok [quotes]) true ∅). vm_compute; reflexivity.
Defined.

Lemma cancel_before_first_tick_witness :
  ∃ s',
    run [ClickStart (Some "quotes") false; Begin 0 true; ClickX 0; CtxDone 0 true]
        (main (Ok [quotes]) true ∅) = Ret () s'
    ∧ new_effects (main (Ok [quotes]) true ∅) s' = [DeleteLastRun "quotes" None]
    ∧ activeReminders s' = ∅
    ∧ lastRunStatuses s' = ∅.
Proof.
  destruct (cancel_before_first_tick "quotes" (main (Ok [quotes]) true ∅)
              (Category_Items quotes) true true)
    as (s' & Hrun & _ & He & Ha & Hl & _).
  - vm_compute; reflexivity.
  - vm_compute; reflexivity.
  - vm_compute; reflexivity.
  - done.
  - by vm_compute.
  - exists s'. split; [exact Hrun|]. split; [exact He|]. split; [exact Ha|].
    exact Hl.
Defined.

Lemma storeItem_then_listed_witness :
  ∃ category,
    category ∈ apiServer.categoriesWithItems server_after_store
    ∧ Category_Name category = "quotes"
    ∧ mkItem "q9" (ToLower "Text") "hello" ∈ Category_Items category.
Proof.
  destruct (storeItem_then_listed true store_request ∅ server_after_store
              (JSON (apiServer.categoriesWithItems server_after_store)))
    as (category & _ & _ & Hin & Hname & Hitem & _).
  - vm_compute; reflexivity.
  - exists category. split; [exact Hin|]. split; [exact Hname|]. exact Hitem.
Defined.

Lemma storeItem_rejects_empty_names_witness :
  resp_code (apiServer.storeItem true (mkRequest "" "q9" "text" "hello" MissingFile)
               server_after_store).2 ≠ 200%Z
  ∧ (apiServer.storeItem true (mkRequest "" "q9" "text" "hello" MissingFile)
       server_after_store).1 = server_after_store.
Proof.
  apply (storeItem_rejects_empty_names true
           (mkRequest "" "q9" "text" "hello" MissingFile) server_after_store).
  left. reflexivity.
Defined.

Lemma client_mirrors_server_witness :
  (∀ category, category ∈ apiServer.categoriesWithItems server_after_store →
     ∃ items,
       categoryItems (Category_Name category)
         (downloadFromAPI (Ok (apiServer.categoriesWithItems server_after_store))
            true ∅).1 = Ok items
       ∧ (∀ item, item ∈ Category_Items category → item ∈ items)
       ∧ (catalogue_entry ∅ (Category_Name category) = None →
          items = Category_Items category))
  ∧ ((∅ : Tx) !! categoriesBkt = None →
     categoriesFromDB
       (downloadFromAPI (Ok (apiServer.categoriesWithItems server_after_store))
          true ∅).1 = ["quotes"]
     ∧ ["quotes"] = Category_Name <$> apiServer.categoriesWithItems server_after_store).
Proof.
  apply (client_mirrors_server server_after_store true ∅).
  vm_compute; reflexivity.
Defined.

Lemma goroutine_touches_one_category_witness :
  lastRunStatuses (final (step (Tick 0 true true) first_session)) !! "solo"
  = lastRunStatuses first_session !! "solo"
  ∧ activeReminders (final (step (Tick 0 true true) first_session)) !! "solo"
    = activeReminders first_session !! "solo"
  ∧ record (db (final (step (Tick 0 true true) first_session))) "solo"
    = record (db first_session) "solo"
  ∧ ∃ es, effects (final (step (Tick 0 true true) first_session))
          = effects first_session ++ es
          ∧ saved_indices "solo" es = [].
Proof.
  apply (goroutine_touches_one_category (Tick 0 true true) 0
           (mkGoroutine "quotes" true Ticking false) first_session "solo").
  - reflexivity.
  - vm_compute; reflexivity.
  - done.
Defined.


Lemma resumed_category_plays_the_rest_witness :
  ∃ s',
    run [Begin 0 true; Tick 0 true true; Tick 0 true true]
        (main (Err (Errorf "offline")) true (db quotes_at_0)) = Ret () s'
    ∧ windows (new_effects (main (Err (Errorf "offline")) true (db quotes_at_0)) s')
      = [window_of "quotes" (mkItem "q2" "Image" "b");
         window_of "quotes" (mkItem "q3" "link" "c")]
    ∧ record (db s') "quotes" = None.
Proof.
  destruct (resumed_category_plays_the_rest (Err (Errorf "offline")) true true
              (db quotes_at_0) "quotes" 0 (Category_Items quotes) true true)
    as (s' & _ & Hrun & Hw & _ & _ & _ & _ & Hr).
  - vm_compute; reflexivity.
  - vm_compute; reflexivity.
  - by vm_compute.
  - simpl. lia.
  - exists s'. split; [exact Hrun|]. split; [exact Hw|]. by apply Hr.
Defined.

Lemma refresh_keeps_position_witness :
  ∃ s',
    run [ClickRefresh (Ok quotes_update) true; Tick 0 true true] quotes_at_0
    = Ret () s'
    ∧ activeReminders (refreshCategories (Ok quotes_update) true quotes_at_0)
        !! "quotes"
      = Some [mkItem "q0" "text" "new"; mkItem "q1" "text" "a";
              mkItem "q2" "Image" "b"; mkItem "q3" "link" "c"]
    ∧ windows (new_effects quotes_at_0 s')
      = [window_of "quotes" (mkItem "q1" "text" "a")]
    ∧ windows (effects quotes_at_0) = [window_of "quotes" (mkItem "q1" "text" "a")].
Proof.
  destruct (refresh_keeps_position 0 "quotes" false false quotes_at_0
              (Ok quotes_update) true
              (downloadFromAPI (Ok quotes_update) true (db quotes_at_0)).1
              ["quotes"]
              [mkItem "q0" "text" "new"; mkItem "q1" "text" "a";
               mkItem "q2" "Image" "b"; mkItem "q3" "link" "c"] true true)
    as (nextItem & s' & Hnext & Hrun & Ha & Hw & _).
  - vm_compute; reflexivity.
  - exists (Category_Items quotes). vm_compute; reflexivity.
  - apply (readable_run [ClickStart (Some "quotes") false; Begin 0 true;
                         Tick 0 true true] (main (Ok [quotes]) true ∅)).
    + apply readable_main. apply catalogue_wfb_true. vm_compute; reflexivity.
    + vm_compute; reflexivity.
  - vm_compute; reflexivity.
  - vm_compute; reflexivity.
  - by vm_compute.
  - by vm_compute.
  - by vm_compute.
  - exists s'. split; [exact Hrun|]. split; [exact Ha|].
    split; [|vm_compute; reflexivity].
    rewrite Hw. f_equal. f_equal.
    assert (GoInt.index [mkItem "q0" "text" "new"; mkItem "q1" "text" "a";
                         mkItem "q2" "Image" "b"; mkItem "q3" "link" "c"]
              (lastIndexOf quotes_at_0 "quotes" + 1)
            = Some (mkItem "q1" "text" "a")) as Hq1 by (vm_compute; reflexivity).
    rewrite Hq1 in Hnext. by injection Hnext as <-.
Defined.
